(** * The calculator's expression evaluator, embedded from app/(tabs)/index.tsx

    The development follows [calculateExpressionWithSteps] (lines 13-60) and
    [factorial] (lines 124-129) of the source.  JavaScript numbers are IEEE-754
    binary64 values; they are modelled with the executable specification of
    floating-point arithmetic of the Standard Library ([SpecFloat], precision
    53, maximal exponent 1024, rounding to nearest, ties to even).  Strings
    are byte strings: the input alphabet accepted by the validation is ASCII,
    and any other code unit is rejected by it. *)

From Stdlib Require Import ZArith List String Ascii Bool Lia.
From Stdlib Require Import Floats.SpecFloat.
From Stdlib Require Import DecimalString.
Import ListNotations.

Local Open Scope string_scope.
Local Open Scope Z_scope.

(** ** JavaScript numbers *)

Module JsNumber.

Definition prec : Z := 53.
Definition emax : Z := 1024.

Definition number : Type := spec_float.

Definition NaN : number := S754_nan.
Definition Infinity : number := S754_infinity false.
Definition zero : number := S754_zero false.

Definition add : number -> number -> number := SFadd prec emax.
Definition sub : number -> number -> number := SFsub prec emax.
Definition mul : number -> number -> number := SFmul prec emax.
Definition div : number -> number -> number := SFdiv prec emax.
Definition ltb : number -> number -> bool := SFltb.
Definition leb : number -> number -> bool := SFleb.

(** The number nearest to the integer [z]. *)
Definition ofZ (z : Z) : number := binary_normalize prec emax z 0 false.

(** The number nearest to the fraction [n / d]: the quotient is computed
    with as many bits as the format needs, together with the position of
    the remainder, and rounded once. *)
Definition ofRatio (n : N) (d : positive) : number :=
  match n with
  | N0 => zero
  | Npos p => div (S754_finite false p 0) (S754_finite false d 0)
  end.

Definition isNaN (x : number) : bool :=
  match x with S754_nan => true | _ => false end.

Definition isInfinite (x : number) : bool :=
  match x with S754_infinity _ => true | _ => false end.

Definition isZero (x : number) : bool :=
  match x with S754_zero _ => true | _ => false end.

(** Structural equality of two numbers (same datum). *)
Definition same (x y : number) : bool :=
  match x, y with
  | S754_zero a, S754_zero b => Bool.eqb a b
  | S754_infinity a, S754_infinity b => Bool.eqb a b
  | S754_nan, S754_nan => true
  | S754_finite a m e, S754_finite b m' e' =>
      Bool.eqb a b && Pos.eqb m m' && Z.eqb e e'
  | _, _ => false
  end.

(** The integer a number stands for, when it is finite and integral. *)
Definition toZ (x : number) : option Z :=
  match x with
  | S754_zero _ => Some 0
  | S754_finite s m e =>
      let v :=
        match e with
        | Z0 => Some (Zpos m)
        | Zpos _ => Some (Zpos m * 2 ^ e)
        | Zneg _ =>
            if Zpos m mod 2 ^ (- e) =? 0 then Some (Zpos m / 2 ^ (- e))
            else None
        end in
      option_map (fun z => if s then - z else z) v
  | _ => None
  end.

End JsNumber.

Import JsNumber.

(** ** Characters and the two regular expressions *)

Definition isDigit (c : ascii) : bool :=
  let n := N_of_ascii c in (48 <=? n)%N && (n <=? 57)%N.

(** The class [[()+\-*/]] of the token expression. *)
Definition isPunct (c : ascii) : bool :=
  match c with
  | "("%char | ")"%char | "+"%char | "-"%char | "*"%char | "/"%char => true
  | _ => false
  end.

(** The class [[0-9+\-*/.() ]] of the validation expression. *)
Definition isAllowed (c : ascii) : bool :=
  isDigit c || isPunct c ||
  match c with "."%char | " "%char => true | _ => false end.

Fixpoint allChars (p : ascii -> bool) (s : string) : bool :=
  match s with
  | EmptyString => true
  | String c s' => p c && allChars p s'
  end.

(** [/^[0-9+\-*/.() ]+$/.test(expr)]: one character at least, all of them
    in the class (without the [m] flag [$] is the end of the input). *)
Definition test (expr : string) : bool :=
  match expr with
  | EmptyString => false
  | _ => allChars isAllowed expr
  end.

(** The longest prefix of digits, and what follows it. *)
Fixpoint spanDigits (s : string) : string * string :=
  match s with
  | String c s' =>
      if isDigit c then
        let '(d, r) := spanDigits s' in (String c d, r)
      else (EmptyString, s)
  | EmptyString => (EmptyString, EmptyString)
  end.

(** [expr.match(/\d+(\.\d+)?|[()+\-*/]/g)], as the list of the successive
    matches.  At a digit the first alternative matches: all the digits
    that follow, then a point and digits when a point followed by a digit
    comes next (the group is optional; when it does not match, the search
    resumes at the point).  At one of [()+-*/] the second alternative
    matches that character.  At any other character nothing matches and the
    search moves on by one character.  Every round consumes a character, so
    the length of the input is fuel enough. *)
Fixpoint matchAll (fuel : nat) (s : string) : list string :=
  match fuel with
  | O => []
  | S fuel' =>
      match s with
      | EmptyString => []
      | String c s' =>
          if isDigit c then
            let '(int, r1) := spanDigits s in
            match r1 with
            | String "."%char r2 =>
                let '(frac, r3) := spanDigits r2 in
                match frac with
                | EmptyString => int :: matchAll fuel' r1
                | _ => (int ++ "." ++ frac) :: matchAll fuel' r3
                end
            | _ => int :: matchAll fuel' r1
            end
          else if isPunct c then String c EmptyString :: matchAll fuel' s'
          else matchAll fuel' s'
      end
  end.

(** [String.prototype.match] with a global expression: [null] when there
    is no match at all. *)
Definition tokensOf (expr : string) : list string :=
  matchAll (String.length expr) expr.

Definition regexMatch (expr : string) : option (list string) :=
  match tokensOf expr with
  | [] => None
  | ts => Some ts
  end.

(** ** Conversions between strings and numbers *)

Definition digitValue (c : ascii) : N := (N_of_ascii c - 48)%N.

(** The natural number written by a string of decimal digits. *)
Fixpoint digitsValue (acc : N) (s : string) : N :=
  match s with
  | EmptyString => acc
  | String c s' => digitsValue (acc * 10 + digitValue c)%N s'
  end.

(** [Number(t)] on the strings the token expression can match: a decimal
    literal [digits] or [digits.digits] is the number nearest to its value
    (the correct rounding that engines compute; the standard tolerates an
    approximation past the twentieth significant digit); the six
    one-character tokens are not numeric and give [NaN].  (Other strings
    never reach the call; they are given [NaN].) *)
Definition Number (t : string) : number :=
  match t with
  | EmptyString => NaN
  | String c _ =>
      if isDigit c then
        let '(int, r1) := spanDigits t in
        match r1 with
        | EmptyString => ofZ (Z.of_N (digitsValue 0 int))
        | String "."%char r2 =>
            let '(frac, r3) := spanDigits r2 in
            match frac, r3 with
            | String _ _, EmptyString =>
                ofRatio (digitsValue 0 (int ++ frac))
                        (10 ^ Pos.of_nat (String.length frac))
            | _, _ => NaN
            end
        | _ => NaN
        end
      else NaN
  end.

(** *** Number::toString (radix 10)

    For a finite positive number [x] of exact value [m * 2^e] the standard
    asks for integers [n], [k] and [s] with [10^(k-1) <= s < 10^k], such
    that [s * 10^(n-k)] rounds to [x], [k] as small as possible, and [s] the
    closest to [x] (the even one on a tie).  The two multiples of
    [10^(n-k)] around [x] are the only candidates. *)

Module Render.

(** [10^(n-1) <= num/den < 10^n], searched upwards from [n]. *)
Fixpoint magnitudeUp (fuel : nat) (num den : Z) (n : Z) : Z :=
  match fuel with
  | O => n
  | S fuel' =>
      if num <? den * 10 ^ n then n
      else magnitudeUp fuel' num den (n + 1)
  end.

(** The same for a value below one, searched downwards from [n]. *)
Fixpoint magnitudeDown (fuel : nat) (num den : Z) (n : Z) : Z :=
  match fuel with
  | O => n
  | S fuel' =>
      if den <=? num * 10 ^ (1 - n) then n
      else magnitudeDown fuel' num den (n - 1)
  end.

Definition magnitude (num den : Z) : Z :=
  if den <=? num then magnitudeUp 400 num den 1
  else magnitudeDown 400 num den 0.

(** The number nearest to [s * 10^p]. *)
Definition scaled (s : Z) (p : Z) : number :=
  match p with
  | Zneg _ => ofRatio (Z.to_N s) (Z.to_pos (10 ^ (- p)))
  | _ => ofZ (s * 10 ^ p)
  end.

(** The shortest digits: [(n, k, s)] for the value [num/den] of [x]. *)
Fixpoint shortest (fuel : nat) (x : number) (num den : Z) (n0 : Z) (k : Z)
  : Z * Z * Z :=
  let p := n0 - k in
  let num' := num * 10 ^ (Z.max (- p) 0) in
  let den' := den * 10 ^ (Z.max p 0) in
  let lo := num' / den' in
  let r := num' mod den' in
  let hi := lo + 1 in
  let okLo := same (scaled lo p) x in
  let okHi := same (scaled hi p) x in
  let pick (s : Z) := if s =? 10 ^ k then (n0 + 1, k, 10 ^ (k - 1)) else (n0, k, s) in
  let nearest :=
    match 2 * r ?= den' with
    | Lt => lo
    | Gt => hi
    | Eq => if Z.even lo then lo else hi
    end in
  match fuel with
  | O => pick nearest
  | S fuel' =>
      if okLo && okHi then pick nearest
      else if okLo then pick lo
      else if okHi then pick hi
      else shortest fuel' x num den n0 (k + 1)
  end.

Definition digitsOf (z : Z) : string :=
  NilZero.string_of_uint (N.to_uint (Z.to_N z)).

Fixpoint zeros (n : nat) : string :=
  match n with
  | O => EmptyString
  | S n' => String "0"%char (zeros n')
  end.

(** The characters before and after position [n] of a string. *)
Fixpoint splitAt (n : nat) (s : string) : string * string :=
  match n, s with
  | S n', String c s' => let '(a, b) := splitAt n' s' in (String c a, b)
  | _, _ => (EmptyString, s)
  end.

Definition layout (n k s : Z) : string :=
  let ds := digitsOf s in
  if (k <=? n) && (n <=? 21) then ds ++ zeros (Z.to_nat (n - k))
  else if (0 <? n) && (n <=? 21) then
    let '(a, b) := splitAt (Z.to_nat n) ds in a ++ "." ++ b
  else if (-6 <? n) && (n <=? 0) then
    "0." ++ zeros (Z.to_nat (- n)) ++ ds
  else
    let e := n - 1 in
    let sign := if e <? 0 then "-" else "+" in
    let '(a, b) := splitAt 1 ds in
    match b with
    | EmptyString => a ++ "e" ++ sign ++ digitsOf (Z.abs e)
    | _ => a ++ "." ++ b ++ "e" ++ sign ++ digitsOf (Z.abs e)
    end.

Definition positive_toString (x : number) (m : positive) (e : Z) : string :=
  let num := Zpos m * 2 ^ (Z.max e 0) in
  let den := 2 ^ (Z.max (- e) 0) in
  let '(n, k, s) := shortest 17 x num den (magnitude num den) 1 in
  layout n k s.

Definition toString (x : number) : string :=
  match x with
  | S754_nan => "NaN"
  | S754_zero _ => "0"
  | S754_infinity false => "Infinity"
  | S754_infinity true => "-Infinity"
  | S754_finite false m e => positive_toString x m e
  | S754_finite true m e =>
      "-" ++ positive_toString (S754_finite false m e) m e
  end.

End Render.

(** ** The evaluator: [calculateExpressionWithSteps] *)

(** An element of the arrays typed [any[]]: a number or a string. *)
Inductive any : Type :=
| Num (n : number)
| Str (s : string).

(** What a call can produce: a returned value or a thrown [Error].  The
    source throws at two places, both for an input that is not an
    expression; [MalformedExpression] is the second kind of failure the
    specification names. *)
Inductive ErrorKind : Type := InvalidExpression | MalformedExpression.

Record JsError : Type := mkError { kind : ErrorKind; message : string }.

Inductive completion (A : Type) : Type :=
| Return (a : A)
| Throw (e : JsError).
Arguments Return {A} a.
Arguments Throw {A} e.

(** The returned object [{ result, steps }]; [result] is [calc[0]], which
    is [undefined] ([None]) when the array is empty. *)
Record outcome : Type := mkOutcome { result : option number; steps : list string }.

(** [const ops = { "+": 1, "-": 1, "*": 2, "/": 2 }]; a lookup of another
    key gives [undefined] ([None]). *)
Definition ops (key : string) : option Z :=
  if String.eqb key "+" then Some 1
  else if String.eqb key "-" then Some 1
  else if String.eqb key "*" then Some 2
  else if String.eqb key "/" then Some 2
  else None.

(** [t in ops], for the strings the token expression can match. *)
Definition inOps (t : string) : bool :=
  match ops t with Some _ => true | None => false end.

(** [x >= y] on two lookups: a comparison with [undefined] is false. *)
Definition geLookup (x y : option Z) : bool :=
  match x, y with
  | Some a, Some b => b <=? a
  | _, _ => false
  end.

(** The arrays [stack] and [calc] are used as stacks: they are kept with
    their last element (the top) first.  [output] and [steps] are kept in
    array order. *)
Record scan : Type := mkScan { stack : list string; output : list any }.

(** [while (stack.length && ops[stack[stack.length - 1]] >= ops[t])
       output.push(stack.pop());] *)
Fixpoint popWhileGe (t : string) (stk : list string) (out : list any) : scan :=
  match stk with
  | top :: rest =>
      if geLookup (ops top) (ops t) then popWhileGe t rest (out ++ [Str top])
      else mkScan stk out
  | [] => mkScan [] out
  end.

(** [while (stack.length && stack[stack.length - 1] !== "(")
       output.push(stack.pop());] *)
Fixpoint popUntilParen (stk : list string) (out : list any) : scan :=
  match stk with
  | top :: rest =>
      if String.eqb top "(" then mkScan stk out
      else popUntilParen rest (out ++ [Str top])
  | [] => mkScan [] out
  end.

(** [stack.pop()] whose value is dropped: nothing happens on an empty
    array. *)
Definition dropTop (stk : list string) : list string := tl stk.

(** The body of [tokens.forEach] (lines 24-37). *)
Definition scanToken (st : scan) (t : string) : scan :=
  if negb (isNaN (Number t)) then mkScan (stack st) (output st ++ [Num (Number t)])
  else if inOps t then
    let st' := popWhileGe t (stack st) (output st) in
    mkScan (t :: stack st') (output st')
  else if String.eqb t "(" then mkScan (t :: stack st) (output st)
  else if String.eqb t ")" then
    let st' := popUntilParen (stack st) (output st) in
    mkScan (dropTop (stack st')) (output st')
  else st.

Definition scanTokens (tokens : list string) : scan :=
  fold_left scanToken tokens (mkScan [] []).

(** [while (stack.length) output.push(stack.pop());] (line 39). *)
Fixpoint flush (stk : list string) (out : list any) : list any :=
  match stk with
  | top :: rest => flush rest (out ++ [Str top])
  | [] => out
  end.

(** The array [output] when the evaluation starts (lines 24-39). *)
Definition toPostfix (tokens : list string) : list any :=
  let st := scanTokens tokens in flush (stack st) (output st).

(** [calc.pop()]: the last element, [undefined] on an empty array. *)
Definition pop (calc : list number) : option number * list number :=
  match calc with
  | x :: rest => (Some x, rest)
  | [] => (None, [])
  end.

(** An operand of an arithmetic operator: [undefined] converts to [NaN]. *)
Definition toNumber (v : option number) : number :=
  match v with Some x => x | None => NaN end.

(** The [switch] of lines 48-53 after [let res = 0]. *)
Definition applyOp (t : string) (a b : option number) : number :=
  if String.eqb t "+" then add (toNumber a) (toNumber b)
  else if String.eqb t "-" then sub (toNumber a) (toNumber b)
  else if String.eqb t "*" then mul (toNumber a) (toNumber b)
  else if String.eqb t "/" then div (toNumber a) (toNumber b)
  else zero.

(** A value inside a template literal. *)
Definition show (v : option number) : string :=
  match v with
  | Some x => Render.toString x
  | None => "undefined"
  end.

(** One resolved operation, before it is rendered. *)
Record Step : Type :=
  mkStep { leftOperand : option number; operator : string;
           rightOperand : option number; stepResult : number }.

(** [`${a} ${t} ${b} = ${res}`] *)
Definition renderStep (s : Step) : string :=
  show (leftOperand s) ++ " " ++ operator s ++ " " ++ show (rightOperand s)
  ++ " = " ++ show (Some (stepResult s)).

Record evalState : Type := mkEval { calc : list number; trace : list Step }.

(** The body of [output.forEach] (lines 42-57). *)
Definition evalItem (st : evalState) (t : any) : evalState :=
  match t with
  | Num n => mkEval (n :: calc st) (trace st)
  | Str t =>
      let '(b, calc1) := pop (calc st) in
      let '(a, calc2) := pop calc1 in
      let res := applyOp t a b in
      mkEval (res :: calc2) (trace st ++ [mkStep a t b res])
  end.

Definition evalPostfix (out : list any) : evalState :=
  fold_left evalItem out (mkEval [] []).

(** [calc[0]]: the element pushed first, the last one of the top-first
    list. *)
Definition first (calc : list number) : option number :=
  match rev calc with
  | x :: _ => Some x
  | [] => None
  end.

Definition errInvalidExpression : JsError := mkError InvalidExpression "Invalid expression".
Definition errInvalid : JsError := mkError InvalidExpression "Invalid".

Definition calculateExpressionWithSteps (expr : string) : completion outcome :=
  if negb (test expr) then Throw errInvalidExpression
  else
    match regexMatch expr with
    | None => Throw errInvalid
    | Some tokens =>
        let st := evalPostfix (toPostfix tokens) in
        Return (mkOutcome (first (calc st)) (map renderStep (trace st)))
    end.

(** The name the specification gives to the evaluator. *)
Definition evaluate : string -> completion outcome := calculateExpressionWithSteps.

(** ** The scientific operation [factorial] (lines 124-129) *)

(** [for (let i = 2; i <= n; i++) r *= i;] with the number of rounds
    bounded by [fuel]: [None] when the loop has not finished by then. *)
Fixpoint factorialLoop (fuel : nat) (n i r : number) : option number :=
  match fuel with
  | O => None
  | S fuel' =>
      if leb i n then factorialLoop fuel' n (add i (ofZ 1)) (mul r i)
      else Some r
  end.

Definition factorial (fuel : nat) (n : number) : option number :=
  if ltb n zero then Some NaN
  else factorialLoop fuel n (ofZ 2) (ofZ 1).

(** ** Notions used to state the properties *)

(** The operations an evaluation resolves, in order, before rendering. *)
Definition resolved (expr : string) : list Step :=
  match regexMatch expr with
  | Some tokens => trace (evalPostfix (toPostfix tokens))
  | None => []
  end.

(** The output holds no left parenthesis. *)
Definition noParen (out : list any) : Prop := ~ In (Str "(") out.

(** The result recorded in a step is the one of its operation. *)
Definition stepComputed (s : Step) : Prop :=
  stepResult s = applyOp (operator s) (leftOperand s) (rightOperand s).

Definition startsWithDigit (s : string) : bool :=
  match s with
  | String c _ => isDigit c
  | EmptyString => false
  end.

(** No fractional part begins the string: it is not a point followed by a
    digit. *)
Definition noFraction (s : string) : bool :=
  match s with
  | String "."%char r => negb (startsWithDigit r)
  | _ => true
  end.

(** A non-empty string of digits: an integer literal. *)
Definition digitString (d : string) : bool :=
  match d with
  | EmptyString => false
  | _ => allChars isDigit d
  end.

(** The integer an integer literal writes. *)
Definition literalValue (d : string) : Z := Z.of_N (digitsValue 0 d).

(** The expression [d + d1 + ... + dn] written without spaces. *)
Fixpoint plusTail (ds : list string) : string :=
  match ds with
  | [] => EmptyString
  | d :: ds' => "+" ++ d ++ plusTail ds'
  end.

Definition sumExpr (d : string) (ds : list string) : string := d ++ plusTail ds.

Definition sumZ (l : list Z) : Z := fold_right Z.add 0 l.

(** The tokens of [sumExpr d ds] after the first literal. *)
Definition plusTokens (ds : list string) : list string :=
  flat_map (fun d => ["+"; d]) ds.

(** The integers [i], [i+1], ..., [i+c-1]. *)
Fixpoint range (i : Z) (c : nat) : list Z :=
  match c with
  | O => []
  | S c' => i :: range (i + 1) c'
  end.

(** The factorial of a natural number, as an integer. *)
Fixpoint factZ (n : nat) : Z :=
  match n with
  | O => 1
  | S k => Z.of_nat (S k) * factZ k
  end.

(** [m * 2^e] is the integer [z], written as the format writes the integers
    from 1 to [2^53]: a mantissa of 53 bits. *)
Definition intRep (z : Z) (m : positive) (e : Z) : Prop :=
  Zpos (digits2_pos m) = 53 /\ -52 <= e <= 1
  /\ Zpos m * 2 ^ (e + 52) = z * 2 ^ 52.

(** ** Further notions: tokens and postfix sequences *)

(** A number literal of the token expression: digits, or digits, a point
    and digits. *)
Definition isLiteral (t : string) : bool :=
  let '(int, r1) := spanDigits t in
  match int, r1 with
  | EmptyString, _ => false
  | _, EmptyString => true
  | _, String "."%char r2 =>
      let '(frac, r3) := spanDigits r2 in
      match frac, r3 with
      | String _ _, EmptyString => true
      | _, _ => false
      end
  | _, _ => false
  end.

(** One of the six one-character tokens. *)
Definition isPunctToken (t : string) : bool :=
  match t with
  | String c EmptyString => isPunct c
  | _ => false
  end.

(** A character that starts no token and belongs to none. *)
Definition isBlank (c : ascii) : bool := negb (isDigit c || isPunct c).

(** The numbers of an output array, in order. *)
Definition numbersOf (out : list any) : list number :=
  flat_map (fun x => match x with Num n => [n] | Str _ => [] end) out.

(** The strings of an output array, in order. *)
Definition stringsOf (out : list any) : list string :=
  flat_map (fun x => match x with Num _ => [] | Str s => [s] end) out.

(** The tokens the scan takes for numbers. *)
Definition numberTokens (tokens : list string) : list string :=
  filter (fun t => negb (isNaN (Number t))) tokens.

(** An entry the scan can leave on the stack: an operator or ["("]. *)
Definition isStackEntry (s : string) : bool := inOps s || String.eqb s "(".

(** The operator tokens. *)
Definition operatorTokens (tokens : list string) : list string :=
  filter inOps tokens.

(** How many times a string occurs in a list. *)
Definition occurrences (s : string) (l : list string) : nat :=
  count_occ string_dec l s.

(** An operator applied to two numbers. *)
Definition binop (o : string) (x y : number) : number :=
  applyOp o (Some x) (Some y).

(** The expression [d o1 d1 o2 d2 ...] written without spaces, from its
    first literal and the list of the pairs operator, literal that follow. *)
Fixpoint chainTail (l : list (string * string)) : string :=
  match l with
  | [] => EmptyString
  | (o, d) :: l' => o ++ d ++ chainTail l'
  end.

Definition chainExpr (d : string) (l : list (string * string)) : string :=
  d ++ chainTail l.

Definition chainTokens (l : list (string * string)) : list string :=
  flat_map (fun od => [fst od; snd od]) l.

(** The same expression evaluated from left to right. *)
Definition leftFold (d : string) (l : list (string * string)) : number :=
  fold_left (fun acc od => binop (fst od) acc (Number (snd od))) l (Number d).

(** A pair operator, literal of a chain whose operators have the
    precedence [p]. *)
Definition chainLink (p : Z) (od : string * string) : Prop :=
  ops (fst od) = Some p /\ isLiteral (snd od) = true.

(** ** The screen: state and handlers of [App] (lines 62-185) *)

Module App.

(** An entry of the history as the screen reads it: [{ input, result }].
    (The rows loaded from the table carry two more columns, which nothing
    reads.) *)
Inductive Entry : Type := mkEntry (input : string) (result : string).

(** A statement sent to the database. *)
Inductive Statement : Type :=
| InsertCalculation (input : string) (result : string)
| DeleteCalculations.

(** The state of the component: [db] tells whether the database has been
    opened ([null] before). *)
Record state : Type :=
  mkState { db : bool; input : string; result : string; steps : list string;
            history : list Entry; isScientific : bool }.

Definition initial : state := mkState false "" "" [] [] false.

Definition basicButtons : list (list string) :=
  [ ["7"; "8"; "9"; "/"]; ["4"; "5"; "6"; "*"]; ["1"; "2"; "3"; "-"];
    ["0"; "."; "="; "+"]; ["C"] ].

Definition scientificButtons : list (list string) :=
  [ ["sin"; "cos"; "tan"; "log"; "ln"; "√"; "^"; "!"]; ["π"; "e"] ].

(** [calculateResult] (lines 103-121).  [dbOk] tells whether the awaited
    [INSERT] succeeds; the handler is taken as a whole, from the state it
    reads to the state it leaves, with the statements it sends.
    [res.toString()] throws when [res] is [undefined]; whatever is thrown
    inside [try] ends in [catch]. *)
Definition calculateResult (dbOk : bool) (s : state) : state * list Statement :=
  let failed :=
    mkState (db s) (input s) "Error" [] (history s) (isScientific s) in
  match calculateExpressionWithSteps (input s) with
  | Return (mkOutcome (Some res) stps) =>
      let r := Render.toString res in
      let entries := mkEntry (input s) r :: history s in
      if db s then
        if dbOk then
          (mkState (db s) (input s) r stps entries (isScientific s),
           [InsertCalculation (input s) r])
        else
          (mkState (db s) (input s) "Error" [] entries (isScientific s),
           [InsertCalculation (input s) r])
      else (mkState (db s) (input s) r stps entries (isScientific s), [])
  | Return (mkOutcome None _) => (failed, [])
  | Throw _ => (failed, [])
  end.

(** [handlePress] (lines 94-101). *)
Definition handlePress (dbOk : bool) (v : string) (s : state)
  : state * list Statement :=
  if String.eqb v "=" then calculateResult dbOk s
  else if String.eqb v "C" then
    (mkState (db s) "" "" [] (history s) (isScientific s), [])
  else
    (mkState (db s) (input s ++ v) (result s) (steps s) (history s)
             (isScientific s), []).

(** [clearHistory] (lines 167-171): nothing is done before the database is
    opened; [ok] tells whether the awaited [DELETE] succeeds (when it does
    not, the history is left as it is). *)
Definition clearHistory (ok : bool) (s : state) : state * list Statement :=
  if db s then
    if ok then
      (mkState (db s) (input s) (result s) (steps s) [] (isScientific s),
       [DeleteCalculations])
    else (s, [DeleteCalculations])
  else (s, []).

(** The functions of the language that [calculateScientific] calls and that
    the source does not define: the conversion [Number] of any string and
    the functions and constants of [Math]. *)
Record Builtins : Type :=
  mkBuiltins { toNumberOfString : string -> number;
               sin : number -> number; cos : number -> number;
               tan : number -> number; log10 : number -> number;
               log : number -> number; sqrt : number -> number;
               pow : number -> number -> number;
               PI : number; E : number }.

(** The [switch] of lines 135-147: [None] is the [default] branch, which
    returns at once; the factorial may not end within [fuel] rounds. *)
Definition scientificValue (lib : Builtins) (fuel : nat) (func : string)
           (v : number) : option (option number) :=
  if String.eqb func "sin" then Some (Some (sin lib v))
  else if String.eqb func "cos" then Some (Some (cos lib v))
  else if String.eqb func "tan" then Some (Some (tan lib v))
  else if String.eqb func "log" then Some (Some (log10 lib v))
  else if String.eqb func "ln" then Some (Some (log lib v))
  else if String.eqb func "√" then Some (Some (sqrt lib v))
  else if String.eqb func "^" then Some (Some (pow lib v (ofZ 2)))
  else if String.eqb func "!" then Some (factorial fuel v)
  else if String.eqb func "π" then Some (Some (PI lib))
  else if String.eqb func "e" then Some (Some (E lib))
  else None.

(** [calculateScientific] (lines 131-165); [None] when the factorial has
    not ended within [fuel] rounds. *)
Definition calculateScientific (lib : Builtins) (fuel : nat) (dbOk : bool)
           (func : string) (s : state) : option (state * list Statement) :=
  let v := toNumberOfString lib (input s) in
  match scientificValue lib fuel func v with
  | None => Some (s, [])
  | Some None => None
  | Some (Some r) =>
      let res := Render.toString r in
      let step := func ++ "(" ++ Render.toString v ++ ") = " ++ res in
      let entryInput := func ++ "(" ++ input s ++ ")" in
      let entries := mkEntry entryInput res :: history s in
      if db s then
        if dbOk then
          Some (mkState (db s) (input s) res [step] entries (isScientific s),
                [InsertCalculation entryInput res])
        else
          Some (mkState (db s) (input s) "Error" [] entries (isScientific s),
                [InsertCalculation entryInput res])
      else
        Some (mkState (db s) (input s) res [step] entries (isScientific s), [])
  end.

(** A character of the keys that [handlePress] appends. *)
Definition isKeypadChar (c : ascii) : bool :=
  isDigit c ||
  match c with
  | "."%char | "+"%char | "-"%char | "*"%char | "/"%char => true
  | _ => false
  end.

(** What changes the state: the user presses a key of the basic keypad or
    a scientific key, clears the history or switches the mode; [initDB]
    (lines 71-91) sets [db] once the database is opened and, later, the
    history to the rows it has read.  [ok] is the fate of the database
    statement a handler awaits, if it sends one. *)
Inductive Event : Type :=
| Press (ok : bool) (v : string)
| Scientific (ok : bool) (func : string)
| ClearHistory (ok : bool)
| ToggleMode
| DatabaseOpened
| HistoryLoaded (rows : list Entry).

(** The state a handler leaves; [None] when it never returns. *)
Definition handle (lib : Builtins) (fuel : nat) (e : Event) (s : state)
  : option state :=
  match e with
  | Press ok v => Some (fst (handlePress ok v s))
  | Scientific ok func => option_map fst (calculateScientific lib fuel ok func s)
  | ClearHistory ok => Some (fst (clearHistory ok s))
  | ToggleMode =>
      Some (mkState (db s) (input s) (result s) (steps s) (history s)
                    (negb (isScientific s)))
  | DatabaseOpened =>
      Some (mkState true (input s) (result s) (steps s) (history s)
                    (isScientific s))
  | HistoryLoaded rows =>
      Some (mkState (db s) (input s) (result s) (steps s) rows
                    (isScientific s))
  end.

Fixpoint run (lib : Builtins) (fuel : nat) (events : list Event) (s : state)
  : option state :=
  match events with
  | [] => Some s
  | e :: rest =>
      match handle lib fuel e s with
      | Some s' => run lib fuel rest s'
      | None => None
      end
  end.

(** The keys of a table of buttons. *)
Definition keysOf (table : list (list string)) : list string :=
  List.concat table.

(** The event presses a key that the basic keypad has, or is not a press. *)
Definition fromKeypad (e : Event) : Prop :=
  match e with
  | Press _ v => In v (keysOf basicButtons)
  | _ => True
  end.

(** What a list of keys writes. *)
Definition typed (keys : list string) : string :=
  fold_right append EmptyString keys.

(** A key that [handlePress] appends to the input. *)
Definition isTypingKey (v : string) : bool :=
  negb (String.eqb v "=") && negb (String.eqb v "C").

End App.

(** A character other than the two parentheses. *)
Definition isNotParen (c : ascii) : bool :=
  match c with
  | "("%char | ")"%char => false
  | _ => true
  end.

(** ** The evaluator as it is written: arrays in a store, loops, throws

    [calculateExpressionWithSteps] once more, statement by statement, with
    what the functional rendering above leaves implicit: the arrays live
    in a store that the call receives and hands back, a [while] loop runs
    as long as its test holds (here: as long as some fuel lasts), and any
    statement may end the call abnormally. *)

Module Imp.

(** The values the arrays of the function hold. *)
Inductive value : Type :=
| VUndefined
| VNum (n : number)
| VStr (s : string).

(** An array, first index first; the store is the list of the arrays that
    exist, an array being known by its position (its address). *)
Definition array : Type := list value.
Definition heap : Type := list array.

(** How a call can end otherwise than by [return]: a [throw] of the
    source, an error raised by the language, or a situation this rendering
    does not cover (an operand that is a string, an address without
    array). *)
Inductive abnormal : Type :=
| JsThrow (e : JsError)
| TypeError (what : string)
| Stuck (what : string).

Inductive run (A : Type) : Type :=
| Done (h : heap) (a : A)
| Abort (h : heap) (t : abnormal)
| OutOfFuel.
Arguments Done {A} h a.
Arguments Abort {A} h t.
Arguments OutOfFuel {A}.

Definition M (A : Type) : Type := heap -> run A.

Definition ret {A : Type} (a : A) : M A := fun h => Done h a.

Definition bind {A B : Type} (m : M A) (k : A -> M B) : M B :=
  fun h =>
    match m h with
    | Done h' a => k a h'
    | Abort h' t => Abort h' t
    | OutOfFuel => OutOfFuel
    end.

Definition abort {A : Type} (t : abnormal) : M A := fun h => Abort h t.

Notation "x <- m ;; k" := (bind m (fun x => k))
  (at level 61, m at next level, right associativity).
Notation "m ;;; k" := (bind m (fun _ => k))
  (at level 61, right associativity).

Fixpoint update (a : nat) (arr : array) (h : heap) : heap :=
  match h, a with
  | [], _ => []
  | _ :: r, O => arr :: r
  | x :: r, S a' => x :: update a' arr r
  end.

(** An operation on the array at an address. *)
Definition onArray {A : Type} (a : nat) (f : array -> array * A) : M A :=
  fun h =>
    match nth_error h a with
    | Some arr => Done (update a (fst (f arr)) h) (snd (f arr))
    | None => Abort h (Stuck "no array at this address")
    end.

(** [[]]: a new array, at a new address. *)
Definition newArray : M nat :=
  fun h => Done (h ++ [[]])%list (List.length h).

(** [a.push(v)] *)
Definition push (a : nat) (v : value) : M unit :=
  onArray a (fun arr => ((arr ++ [v])%list, tt)).

(** [a.pop()]: [undefined] on an empty array. *)
Definition pop (a : nat) : M value :=
  onArray a (fun arr => (removelast arr, last arr VUndefined)).

(** [a.length] *)
Definition len (a : nat) : M nat :=
  onArray a (fun arr => (arr, List.length arr)).

(** [a[i]]: [undefined] outside the array. *)
Definition get (a : nat) (i : nat) : M value :=
  onArray a (fun arr => (arr, nth i arr VUndefined)).

(** The elements of an array, as [forEach] visits them. *)
Definition elements (a : nat) : M array :=
  onArray a (fun arr => (arr, arr)).

(** [while (cond) body] *)
Fixpoint while (fuel : nat) (cond : M bool) (body : M unit) : M unit :=
  match fuel with
  | O => fun _ => OutOfFuel
  | S fuel' =>
      b <- cond ;;
      if b then body ;;; while fuel' cond body else ret tt
  end.

(** [l.forEach(f)] on the elements [l]. *)
Fixpoint forEach {A : Type} (l : list A) (f : A -> M unit) : M unit :=
  match l with
  | [] => ret tt
  | x :: r => f x ;;; forEach r f
  end.

(** [tokens.forEach(f)], [tokens] being an array or [null]. *)
Definition forEachOf (tokens : option (list string)) (f : string -> M unit)
  : M unit :=
  match tokens with
  | Some l => forEach l f
  | None => abort (TypeError "Cannot read properties of null")
  end.

(** [ops[v]]: the key is looked up as a string; no number and no
    [undefined] is a key of [ops]. *)
Definition opsOf (v : value) : option Z :=
  match v with
  | VStr s => ops s
  | _ => None
  end.

(** [v !== "("] *)
Definition isNotLeftParen (v : value) : bool :=
  match v with
  | VStr s => negb (String.eqb s "(")
  | _ => true
  end.

(** [stack.length && ops[stack[stack.length - 1]] >= ops[t]] *)
Definition topBindsTighter (stack : nat) (t : string) : M bool :=
  n <- len stack ;;
  match n with
  | O => ret false
  | S i => top <- get stack i ;; ret (geLookup (opsOf top) (ops t))
  end.

(** [stack.length && stack[stack.length - 1] !== "("] *)
Definition topIsNotLeftParen (stack : nat) : M bool :=
  n <- len stack ;;
  match n with
  | O => ret false
  | S i => top <- get stack i ;; ret (isNotLeftParen top)
  end.

(** [stack.length] as a condition. *)
Definition nonEmpty (stack : nat) : M bool :=
  n <- len stack ;;
  match n with
  | O => ret false
  | S _ => ret true
  end.

(** [output.push(stack.pop())] *)
Definition moveTop (stack output : nat) : M unit :=
  v <- pop stack ;; push output v.

(** The body of [tokens.forEach] (lines 24-37). *)
Definition scanToken (fuel : nat) (stack output : nat) (t : string) : M unit :=
  if negb (isNaN (Number t)) then push output (VNum (Number t))
  else if inOps t then
    while fuel (topBindsTighter stack t) (moveTop stack output) ;;;
    push stack (VStr t)
  else if String.eqb t "(" then push stack (VStr t)
  else if String.eqb t ")" then
    while fuel (topIsNotLeftParen stack) (moveTop stack output) ;;;
    _ <- pop stack ;; ret tt
  else ret tt.

(** A value inside a template literal. *)
Definition showValue (v : value) : string :=
  match v with
  | VUndefined => "undefined"
  | VNum n => Render.toString n
  | VStr s => s
  end.

(** An operand of [+ - * /] taken from [calc]: a number or [undefined];
    what the operators do with a string is not rendered. *)
Definition operand (v : value) : M number :=
  match v with
  | VUndefined => ret NaN
  | VNum n => ret n
  | VStr _ => abort (Stuck "an operand is a string")
  end.

(** [let res = 0; switch (t) { ... }] (lines 47-53). *)
Definition switchOperator (t a b : value) : M number :=
  match t with
  | VStr s =>
      if String.eqb s "+" then x <- operand a ;; y <- operand b ;; ret (add x y)
      else if String.eqb s "-" then
        x <- operand a ;; y <- operand b ;; ret (sub x y)
      else if String.eqb s "*" then
        x <- operand a ;; y <- operand b ;; ret (mul x y)
      else if String.eqb s "/" then
        x <- operand a ;; y <- operand b ;; ret (div x y)
      else ret zero
  | _ => ret zero
  end.

(** The body of [output.forEach] (lines 42-57). *)
Definition evalValue (calc steps : nat) (t : value) : M unit :=
  match t with
  | VNum _ => push calc t
  | _ =>
      b <- pop calc ;;
      a <- pop calc ;;
      res <- switchOperator t a b ;;
      push steps
           (VStr (showValue a ++ " " ++ showValue t ++ " " ++ showValue b
                  ++ " = " ++ showValue (VNum res))) ;;;
      push calc (VNum res)
  end.

(** The function (lines 13-60).  It returns the value [calc[0]] and the
    array [steps], that is its address. *)
Definition calculateExpressionWithSteps (fuel : nat) (expr : string)
  : M (value * nat) :=
  if negb (test expr) then abort (JsThrow errInvalidExpression)
  else
    stack <- newArray ;;
    output <- newArray ;;
    steps <- newArray ;;
    let tokens := regexMatch expr in
    match tokens with
    | None => abort (JsThrow errInvalid)
    | Some _ => ret tt
    end ;;;
    forEachOf tokens (scanToken fuel stack output) ;;;
    while fuel (nonEmpty stack) (moveTop stack output) ;;;
    calc <- newArray ;;
    out <- elements output ;;
    forEach out (evalValue calc steps) ;;;
    result <- get calc 0 ;;
    ret (result, steps).

(** What the caller sees of a call: the value and the elements of the
    array of steps, or the error thrown by the source; nothing when the
    call ends in another way. *)
Definition observe (r : run (value * nat))
  : option (completion (value * array)) :=
  match r with
  | Done h (v, a) =>
      match nth_error h a with
      | Some arr => Some (Return (v, arr))
      | None => None
      end
  | Abort _ (JsThrow e) => Some (Throw e)
  | _ => None
  end.

(** The heap a call leaves. *)
Definition heapAfter {A : Type} (r : run A) : option heap :=
  match r with
  | Done h _ => Some h
  | Abort h _ => Some h
  | OutOfFuel => None
  end.

(** The arrays of the functional rendering, as the store holds them: the
    stacks are kept top first there, last index last here. *)
Definition ofAny (x : any) : value :=
  match x with
  | Num n => VNum n
  | Str s => VStr s
  end.

Definition stackArray (stk : list string) : array := rev (map VStr stk).
Definition outputArray (out : list any) : array := map ofAny out.
Definition calcArray (c : list number) : array := rev (map VNum c).
Definition stepsArray (tr : list Step) : array :=
  map (fun s => VStr (renderStep s)) tr.

Definition ofResult (r : option number) : value :=
  match r with
  | Some n => VNum n
  | None => VUndefined
  end.

(** What the caller sees, from an outcome of the functional rendering. *)
Definition ofCompletion (c : completion outcome) : completion (value * array) :=
  match c with
  | Return (mkOutcome r stps) => Return (ofResult r, map VStr stps)
  | Throw e => Throw e
  end.

End Imp.

(** * Properties *)

(** ** Sample runs *)

Example regexMatch_example :
  regexMatch "12.5+(3 - .4)*1.2.3" =
  Some ["12.5"; "+"; "("; "3"; "-"; "4"; ")"; "*"; "1.2"; "3"].
Proof. reflexivity. Qed.

(** A few values against what JavaScript prints for them. *)
Example toString_examples :
  map Render.toString
    [ Number "14"; Number "0.5"; add (Number "0.1") (Number "0.2");
      div (Number "1") (Number "3"); Number "1000000000000000000000";
      Number "123456789012345678901"; div (Number "1") (Number "3000000");
      div (Number "1") (Number "30000000"); sub (Number "0") (Number "2.5");
      Number "9007199254740993"; div (Number "1") (Number "0");
      Number "100"; mul (Number "1.5") (Number "1.5") ]
  = [ "14"; "0.5"; "0.30000000000000004"; "0.3333333333333333"; "1e+21";
      "123456789012345680000"; "3.3333333333333335e-7";
      "3.3333333333333334e-8"; "-2.5"; "9007199254740992"; "Infinity";
      "100"; "2.25" ].
Proof. vm_compute. reflexivity. Qed.

Example evaluate_parentheses :
  evaluate "(2+3)*4" = Return (mkOutcome (Some (ofZ 20)) ["2 + 3 = 5"; "5 * 4 = 20"]).
Proof. vm_compute. reflexivity. Qed.

Example evaluate_left_assoc :
  evaluate "10/2/5" = Return (mkOutcome (Some (ofZ 1)) ["10 / 2 = 5"; "5 / 5 = 1"]).
Proof. vm_compute. reflexivity. Qed.

Example evaluate_decimals :
  evaluate "1.5+2.5" = Return (mkOutcome (Some (ofZ 4)) ["1.5 + 2.5 = 4"]).
Proof. vm_compute. reflexivity. Qed.

Example evaluate_two_numbers :
  evaluate "2 3" = Return (mkOutcome (Some (ofZ 2)) []).
Proof. vm_compute. reflexivity. Qed.

Example evaluate_no_token :
  evaluate " . " = Throw errInvalid.
Proof. vm_compute. reflexivity. Qed.

Example evaluate_close_only :
  evaluate ")" = Return (mkOutcome None []).
Proof. vm_compute. reflexivity. Qed.

(** ** The token expression *)

Lemma spanDigits_length (s : string) :
  (String.length (fst (spanDigits s)) + String.length (snd (spanDigits s))
   = String.length s)%nat.
Proof.
  induction s as [|c s IH]; simpl; [reflexivity|].
  destruct (isDigit c); simpl; [|reflexivity].
  destruct (spanDigits s) as [d r]; simpl in *. lia.
Qed.

Lemma spanDigits_rest_le (s d r : string) :
  spanDigits s = (d, r) -> (String.length r <= String.length s)%nat.
Proof.
  intros H. pose proof (spanDigits_length s) as L. rewrite H in L. simpl in L. lia.
Qed.

(** Any fuel that covers the length of the input gives the same matches. *)
Lemma matchAll_fuel (f1 : nat) :
  forall (f2 : nat) (s : string),
    (String.length s <= f1)%nat -> (String.length s <= f2)%nat ->
    matchAll f1 s = matchAll f2 s.
Proof.
  induction f1 as [|f1 IH]; intros f2 s H1 H2.
  - destruct s; simpl in H1; [|lia]. destruct f2; reflexivity.
  - destruct s as [|c s]; [destruct f2; reflexivity|].
    destruct f2 as [|f2]; [simpl in H2; lia|].
    simpl in H1, H2.
    cbn [matchAll]. destruct (isDigit c) eqn:Hc.
    + destruct (spanDigits (String c s)) as [int r1] eqn:Hs.
      assert (L1 : (String.length r1 <= String.length s)%nat).
      { simpl in Hs. rewrite Hc in Hs. destruct (spanDigits s) as [d r] eqn:Hs'.
        inversion Hs; subst. eapply spanDigits_rest_le; eauto. }
      destruct r1 as [|c1 r2]; [apply f_equal; apply IH; simpl; lia|].
      assert (E : matchAll f1 (String c1 r2) = matchAll f2 (String c1 r2))
        by (apply IH; lia).
      destruct (Ascii.eqb c1 "."%char) eqn:Hd.
      * apply Ascii.eqb_eq in Hd. subst c1.
        destruct (spanDigits r2) as [frac r3] eqn:Hs2.
        pose proof (spanDigits_rest_le _ _ _ Hs2) as L2. simpl in L1.
        destruct frac; [now rewrite E|].
        apply f_equal. apply IH; lia.
      * destruct c1 as [[] [] [] [] [] [] [] []]; try discriminate Hd;
          now rewrite E.
    + destruct (isPunct c); [apply f_equal|]; apply IH; lia.
Qed.

Lemma matchAll_tokensOf (f : nat) (s : string) :
  (String.length s <= f)%nat -> matchAll f s = tokensOf s.
Proof. intros H. apply matchAll_fuel; [exact H | apply Nat.le_refl]. Qed.

(** The unfolding of the search at the first character. *)
Lemma tokensOf_skip (c : ascii) (s : string) :
  isDigit c = false -> isPunct c = false ->
  tokensOf (String c s) = tokensOf s.
Proof.
  intros Hd Hp. unfold tokensOf at 1. simpl. rewrite Hd, Hp. reflexivity.
Qed.

Lemma tokensOf_punct (c : ascii) (s : string) :
  isPunct c = true ->
  tokensOf (String c s) = String c EmptyString :: tokensOf s.
Proof.
  intros Hp. unfold tokensOf at 1. simpl.
  assert (Hd : isDigit c = false)
    by (destruct c as [[] [] [] [] [] [] [] []]; try discriminate Hp; reflexivity).
  rewrite Hd, Hp. reflexivity.
Qed.

(** ** Validation *)

Lemma allChars_app (p : ascii -> bool) (s1 s2 : string) :
  allChars p (s1 ++ s2) = allChars p s1 && allChars p s2.
Proof.
  induction s1 as [|c s1 IH]; simpl; [reflexivity|].
  rewrite IH. apply andb_assoc.
Qed.

Lemma test_rejects (pre post : string) (c : ascii) :
  isAllowed c = false -> test (pre ++ String c post) = false.
Proof.
  intros Hc. unfold test.
  assert (H : allChars isAllowed (pre ++ String c post) = false).
  { rewrite allChars_app. simpl. rewrite Hc. apply andb_false_r. }
  destruct (pre ++ String c post); [reflexivity | exact H].
Qed.

(** C5: an input with a character outside [[0-9+\-*/.() ]] fails with the
    error of line 14, the one thrown before the token expression is
    applied, whose kind is [InvalidExpression]; ["2+3a"] is such an
    input. *)
Theorem evaluate_invalid_character (pre post : string) (c : ascii) :
  isAllowed c = false ->
  evaluate (pre ++ String c post) = Throw errInvalidExpression
  /\ kind errInvalidExpression = InvalidExpression
  /\ evaluate "2+3a" = Throw errInvalidExpression.
Proof.
  intros Hc. unfold evaluate, calculateExpressionWithSteps.
  rewrite (test_rejects pre post c Hc). simpl. repeat split.
Qed.

Lemma evaluate_invalid_character_witness :
  evaluate ("2+3" ++ String "a"%char "") = Throw errInvalidExpression
  /\ kind errInvalidExpression = InvalidExpression
  /\ evaluate "2+3a" = Throw errInvalidExpression.
Proof. apply (evaluate_invalid_character "2+3" "" "a"%char). reflexivity. Defined.

(** ** Outcomes of the evaluator *)

Lemma evaluate_returns (expr : string) (tokens : list string) :
  test expr = true -> regexMatch expr = Some tokens ->
  evaluate expr =
  Return (mkOutcome (first (calc (evalPostfix (toPostfix tokens))))
                    (map renderStep (resolved expr))).
Proof.
  intros Ht Hm. unfold evaluate, calculateExpressionWithSteps, resolved.
  rewrite Ht, Hm. reflexivity.
Qed.

Lemma evaluate_throw_kind (expr : string) (e : JsError) :
  evaluate expr = Throw e -> kind e = InvalidExpression.
Proof.
  unfold evaluate, calculateExpressionWithSteps.
  destruct (test expr); simpl.
  - destruct (regexMatch expr); intros H; inversion H; reflexivity.
  - intros H; inversion H; reflexivity.
Qed.

(** C2: ["2+3*4"] evaluates to 14 and the trace is the multiplication,
    then the addition. *)
Theorem evaluate_precedence :
  evaluate "2+3*4" =
  Return (mkOutcome (Some (ofZ 14)) ["3 * 4 = 12"; "2 + 12 = 14"]).
Proof. vm_compute. reflexivity. Qed.

(** ** Operand stack underflow *)

Lemma applyOp_undefined_left (t : string) (b : option number) :
  inOps t = true -> applyOp t None b = NaN.
Proof.
  unfold inOps, ops, applyOp.
  destruct (String.eqb t "+"); [reflexivity|].
  destruct (String.eqb t "-"); [reflexivity|].
  destruct (String.eqb t "*"); [reflexivity|].
  destruct (String.eqb t "/"); [reflexivity|].
  discriminate.
Qed.

(** C1, as the code has it: an operator applied to fewer than two values
    raises nothing.  The missing left operand is [undefined], the result of
    the operation is [NaN], the step is recorded, [NaN] is left alone on the
    operand stack and the evaluation goes on; no input makes the evaluator
    fail with the kind [MalformedExpression]. *)
Theorem operator_underflow_continues (st : evalState) (t : string) :
  (List.length (calc st) < 2)%nat -> inOps t = true ->
  evalItem st (Str t) =
    mkEval [NaN] (trace st ++ [mkStep None t (hd_error (calc st)) NaN])
  /\ forall expr e, evaluate expr = Throw e -> kind e <> MalformedExpression.
Proof.
  intros Hlen Ht. split.
  - destruct st as [c tr]. simpl in *.
    destruct c as [|x [|y c]]; simpl in *; try lia;
      rewrite (applyOp_undefined_left t _ Ht); reflexivity.
  - intros expr e H. rewrite (evaluate_throw_kind expr e H). discriminate.
Qed.

Lemma operator_underflow_continues_witness :
  evalItem (mkEval [ofZ 2] []) (Str "+") =
    mkEval [NaN] ([] ++ [mkStep None "+" (Some (ofZ 2)) NaN])
  /\ forall expr e, evaluate expr = Throw e -> kind e <> MalformedExpression.
Proof.
  apply (operator_underflow_continues (mkEval [ofZ 2] []) "+");
    [simpl; lia | reflexivity].
Defined.

(** C1 as the specification states it fails on ["+2"]: the postfix
    sequence is [2 +], the operator finds one value only, and the evaluator returns [NaN] with one step. *)
Lemma operator_underflow_counterexample :
  toPostfix ["+"; "2"] = [Num (ofZ 2); Str "+"]
  /\ evaluate "+2" = Return (mkOutcome (Some NaN) ["undefined + 2 = NaN"])
  /\ ~ (exists msg, evaluate "+2" = Throw (mkError MalformedExpression msg)).
Proof.
  split; [vm_compute; reflexivity|]. split; [vm_compute; reflexivity|].
  intros [msg H]. vm_compute in H. discriminate H.
Qed.

(** ** What is left on the stack after the scan *)

Lemma flush_spec (stk : list string) (out : list any) :
  flush stk out = (out ++ map Str stk)%list.
Proof.
  revert out. induction stk as [|top rest IH]; intros out; simpl.
  - symmetry. apply app_nil_r.
  - rewrite IH, <- app_assoc. reflexivity.
Qed.

Lemma noParen_snoc (out : list any) (x : any) :
  noParen out -> x <> Str "(" -> noParen (out ++ [x])%list.
Proof.
  unfold noParen. intros H Hx Hin. apply in_app_or in Hin.
  destruct Hin as [Hin | [Hin | []]]; [auto | congruence].
Qed.

Lemma popWhileGe_noParen (t : string) (stk : list string) :
  forall out, noParen out -> noParen (output (popWhileGe t stk out)).
Proof.
  induction stk as [|top rest IH]; intros out H; simpl; [exact H|].
  destruct (geLookup (ops top) (ops t)) eqn:G; simpl; [|exact H].
  apply IH. apply noParen_snoc; [exact H|].
  intros E. inversion E; subst. discriminate G.
Qed.

Lemma popUntilParen_noParen (stk : list string) :
  forall out, noParen out -> noParen (output (popUntilParen stk out)).
Proof.
  induction stk as [|top rest IH]; intros out H; simpl; [exact H|].
  destruct (String.eqb top "(") eqn:E; simpl; [exact H|].
  apply IH. apply noParen_snoc; [exact H|].
  intros E'. inversion E'; subst. discriminate E.
Qed.

Lemma scanToken_noParen (st : scan) (t : string) :
  noParen (output st) -> noParen (output (scanToken st t)).
Proof.
  intros H. unfold scanToken.
  destruct (negb (isNaN (Number t))); simpl.
  { apply noParen_snoc; [exact H | discriminate]. }
  destruct (inOps t); simpl; [apply popWhileGe_noParen; exact H|].
  destruct (String.eqb t "("); simpl; [exact H|].
  destruct (String.eqb t ")"); simpl; [apply popUntilParen_noParen|]; exact H.
Qed.

Lemma scanTokens_noParen (tokens : list string) :
  forall st, noParen (output st) ->
             noParen (output (fold_left scanToken tokens st)).
Proof.
  induction tokens as [|t ts IH]; intros st H; simpl; [exact H|].
  apply IH. apply scanToken_noParen. exact H.
Qed.

(** C3, as the code has it: after the scan every entry left on the stack,
    an unmatched ["("] as well as an operator, is appended to the output in
    pop order; the scan itself puts no ["("] into the output, so the
    postfix sequence holds as many ["("] as the stack did. *)
Theorem toPostfix_flushes_whole_stack (tokens : list string) :
  toPostfix tokens =
    (output (scanTokens tokens) ++ map Str (stack (scanTokens tokens)))%list
  /\ ~ In (Str "(") (output (scanTokens tokens))
  /\ (In (Str "(") (toPostfix tokens) <-> In "(" (stack (scanTokens tokens))).
Proof.
  assert (N : noParen (output (scanTokens tokens))).
  { apply scanTokens_noParen. intros []. }
  unfold toPostfix. rewrite flush_spec. split; [reflexivity|]. split; [exact N|].
  split.
  - intros H. apply in_app_or in H. destruct H as [H | H]; [destruct (N H)|].
    apply in_map_iff in H. destruct H as [s [E H]]. inversion E; subst. exact H.
  - intros H. apply in_or_app. right. apply in_map. exact H.
Qed.

(** C3 as the specification states it fails on ["(2"]: the unmatched
    ["("] ends the postfix sequence, and the evaluation applies it as an operator. *)
Lemma toPostfix_paren_counterexample :
  regexMatch "(2" = Some ["("; "2"]
  /\ toPostfix ["("; "2"] = [Num (ofZ 2); Str "("]
  /\ In (Str "(") (toPostfix ["("; "2"])
  /\ evaluate "(2" = Return (mkOutcome (Some zero) ["undefined ( 2 = 0"]).
Proof.
  split; [reflexivity|]. split; [vm_compute; reflexivity|].
  split; [vm_compute; right; left; reflexivity|]. vm_compute. reflexivity.
Qed.

(** ** Division by zero *)

Lemma evalItem_computed (st : evalState) (t : any) :
  Forall stepComputed (trace st) -> Forall stepComputed (trace (evalItem st t)).
Proof.
  intros H. destruct t as [n | t]; simpl; [exact H|].
  destruct (pop (calc st)) as [b calc1]. destruct (pop calc1) as [a calc2].
  simpl. apply Forall_app. split; [exact H|].
  constructor; [reflexivity | constructor].
Qed.

Lemma evalPostfix_computed (out : list any) :
  forall st, Forall stepComputed (trace st) ->
             Forall stepComputed (trace (fold_left evalItem out st)).
Proof.
  induction out as [|t out IH]; intros st H; simpl; [exact H|].
  apply IH. apply evalItem_computed. exact H.
Qed.

Lemma resolved_computed (expr : string) : Forall stepComputed (resolved expr).
Proof.
  unfold resolved. destruct (regexMatch expr); [|constructor].
  apply evalPostfix_computed. constructor.
Qed.

Lemma div_by_zero (a : option number) (z : number) :
  isZero z = true ->
  isInfinite (applyOp "/" a (Some z)) || isNaN (applyOp "/" a (Some z)) = true.
Proof.
  intros Hz. destruct z; try discriminate Hz.
  destruct a as [[| | |]|]; reflexivity.
Qed.

(** C6, as the code has it: a division whose right operand is zero raises
    nothing, and its own result is an infinity or [NaN].  An input that
    passes the validation and has a token is evaluated to its end; each
    division by a zero in its trace has an infinity or [NaN] as its result;
    when the whole input is one division [a / z] by a zero, this result is
    the value returned: ["1/0"] returns [Infinity] and ["0/0"] returns
    [NaN].  The value returned for a longer input need not be one of
    them. *)
Theorem division_by_zero_returns (expr : string) :
  test expr = true -> regexMatch expr <> None ->
  (exists o, evaluate expr = Return o
             /\ steps o = map renderStep (resolved expr))
  /\ Forall (fun s =>
               operator s = "/" ->
               forall z, rightOperand s = Some z -> isZero z = true ->
                         isInfinite (stepResult s) || isNaN (stepResult s) = true)
            (resolved expr)
  /\ (forall tokens a z,
         regexMatch expr = Some tokens ->
         toPostfix tokens = [Num a; Num z; Str "/"] ->
         isZero z = true ->
         exists v,
           evaluate expr =
           Return (mkOutcome (Some v)
                             [renderStep (mkStep (Some a) "/" (Some z) v)])
           /\ isInfinite v || isNaN v = true)
  /\ evaluate "1/0" = Return (mkOutcome (Some Infinity) ["1 / 0 = Infinity"])
  /\ evaluate "0/0" = Return (mkOutcome (Some NaN) ["0 / 0 = NaN"]).
Proof.
  intros Ht Hm. split; [|split; [|split; [|split; vm_compute; reflexivity]]].
  - destruct (regexMatch expr) as [tokens|] eqn:E; [|contradiction].
    eexists. split; [apply (evaluate_returns expr tokens Ht E) | reflexivity].
  - eapply Forall_impl; [|apply resolved_computed].
    intros s Hs Hop z Hr Hz. rewrite Hs, Hop, Hr. apply div_by_zero. exact Hz.
  - intros tokens a z E P Hz. exists (applyOp "/" (Some a) (Some z)).
    split; [|apply div_by_zero; exact Hz].
    rewrite (evaluate_returns expr tokens Ht E). unfold resolved.
    rewrite E, P. reflexivity.
Qed.

Lemma division_by_zero_returns_witness :
  (exists o, evaluate "2/(1-1)" = Return o
             /\ steps o = map renderStep (resolved "2/(1-1)"))
  /\ Forall (fun s =>
               operator s = "/" ->
               forall z, rightOperand s = Some z -> isZero z = true ->
                         isInfinite (stepResult s) || isNaN (stepResult s) = true)
            (resolved "2/(1-1)")
  /\ (forall tokens a z,
         regexMatch "2/(1-1)" = Some tokens ->
         toPostfix tokens = [Num a; Num z; Str "/"] ->
         isZero z = true ->
         exists v,
           evaluate "2/(1-1)" =
           Return (mkOutcome (Some v)
                             [renderStep (mkStep (Some a) "/" (Some z) v)])
           /\ isInfinite v || isNaN v = true)
  /\ evaluate "1/0" = Return (mkOutcome (Some Infinity) ["1 / 0 = Infinity"])
  /\ evaluate "0/0" = Return (mkOutcome (Some NaN) ["0 / 0 = NaN"]).
Proof.
  apply (division_by_zero_returns "2/(1-1)"); [reflexivity | discriminate].
Defined.

(** C6 as the specification states it fails on ["2/(1/0)"] and on
    ["1 2/0"]: both evaluations divide by zero; the first returns 0, the
    second returns 1, the element of [calc] pushed first. *)
Lemma division_by_zero_counterexample :
  evaluate "2/(1/0)" =
  Return (mkOutcome (Some zero) ["1 / 0 = Infinity"; "2 / Infinity = 0"])
  /\ In (mkStep (Some (ofZ 1)) "/" (Some zero) Infinity) (resolved "2/(1/0)")
  /\ isInfinite zero || isNaN zero = false
  /\ evaluate "1 2/0" = Return (mkOutcome (Some (ofZ 1)) ["2 / 0 = Infinity"])
  /\ In (mkStep (Some (ofZ 2)) "/" (Some zero) Infinity) (resolved "1 2/0")
  /\ isInfinite (ofZ 1) || isNaN (ofZ 1) = false.
Proof.
  split; [vm_compute; reflexivity|].
  split; [vm_compute; left; reflexivity|].
  split; [reflexivity|].
  split; [vm_compute; reflexivity|].
  split; [vm_compute; left; reflexivity|].
  vm_compute. reflexivity.
Qed.

(** ** Number literals and stray points *)

Lemma length_append (s1 s2 : string) :
  String.length (s1 ++ s2) = (String.length s1 + String.length s2)%nat.
Proof. induction s1 as [|c s1 IH]; simpl; [reflexivity | now rewrite IH]. Qed.

Lemma spanDigits_stop (s : string) :
  startsWithDigit s = false -> spanDigits s = (EmptyString, s).
Proof. destruct s as [|c s]; simpl; [reflexivity | now intros ->]. Qed.

Lemma spanDigits_app (ds r : string) :
  allChars isDigit ds = true -> startsWithDigit r = false ->
  spanDigits (ds ++ r) = (ds, r).
Proof.
  intros Hd Hr. induction ds as [|c ds IH]; simpl.
  - apply spanDigits_stop. exact Hr.
  - simpl in Hd. apply andb_prop in Hd. destruct Hd as [Hc Hd].
    rewrite Hc, (IH Hd). reflexivity.
Qed.

Lemma matchAll_empty (f : nat) : matchAll f "" = [].
Proof. destruct f; reflexivity. Qed.

(** A run of digits that no fractional part follows is one token. *)
Lemma tokensOf_int (ds r : string) :
  ds <> "" -> allChars isDigit ds = true ->
  startsWithDigit r = false -> noFraction r = true ->
  tokensOf (ds ++ r) = ds :: tokensOf r.
Proof.
  intros Hne Hd Hr Hf. destruct ds as [|c ds]; [contradiction|].
  unfold tokensOf at 1.
  change (String.length (String c ds ++ r)) with (S (String.length (ds ++ r))).
  change (String c ds ++ r) with (String c (ds ++ r)).
  cbn [matchAll].
  change (String c (ds ++ r)) with (String c ds ++ r).
  rewrite (spanDigits_app _ _ Hd Hr).
  simpl in Hd. apply andb_prop in Hd. destruct Hd as [Hc _]. rewrite Hc.
  assert (L : forall r', (String.length r' <= String.length r)%nat ->
                         matchAll (String.length (ds ++ r)) r' = tokensOf r').
  { intros r' H. apply matchAll_tokensOf. rewrite length_append. lia. }
  destruct r as [|c1 r2]; [now rewrite matchAll_empty|].
  destruct (Ascii.eqb c1 "."%char) eqn:E.
  - apply Ascii.eqb_eq in E. subst c1. simpl in Hf.
    apply negb_true_iff in Hf. rewrite (spanDigits_stop _ Hf).
    rewrite L by apply Nat.le_refl. reflexivity.
  - rewrite <- (L (String c1 r2)) by apply Nat.le_refl.
    destruct c1 as [[] [] [] [] [] [] [] []]; try discriminate E; reflexivity.
Qed.

(** C10: a point that belongs to no number literal is dropped by the token
    expression and raises nothing: at the start of a match the search
    steps over it, and after digits that no digit follows it the literal
    ends before it.  ["2.+3"] has the tokens [2 + 3] and the value 5. *)
Theorem stray_point_dropped :
  (forall s, tokensOf ("." ++ s) = tokensOf s)
  /\ (forall ds r, ds <> "" -> allChars isDigit ds = true ->
                   startsWithDigit r = false ->
                   tokensOf (ds ++ "." ++ r) = ds :: tokensOf r)
  /\ regexMatch "2.+3" = Some ["2"; "+"; "3"]
  /\ evaluate "2.+3" = Return (mkOutcome (Some (ofZ 5)) ["2 + 3 = 5"]).
Proof.
  assert (P : forall s, tokensOf ("." ++ s) = tokensOf s)
    by (intros s; apply tokensOf_skip; reflexivity).
  split; [exact P|]. split; [|split; vm_compute; reflexivity].
  intros ds r Hne Hd Hr.
  rewrite (tokensOf_int ds ("." ++ r) Hne Hd); [now rewrite P | reflexivity |].
  simpl. now rewrite Hr.
Qed.

Lemma stray_point_dropped_witness :
  tokensOf ("12" ++ "." ++ "+3") = "12" :: tokensOf "+3".
Proof.
  apply (proj1 (proj2 stray_point_dropped) "12" "+3");
    [discriminate | reflexivity | reflexivity].
Defined.

(** ** Integers in the number format

    The additions and comparisons of the source are the ones of binary64.
    On integers up to [2^53] they are the exact ones, which is shown here
    from the definition of rounding. *)

Module FloatInt.

(** The number of binary digits of a mantissa bounds it. *)
Lemma digits2_bounds (m : positive) :
  2 ^ (Zpos (digits2_pos m) - 1) <= Zpos m < 2 ^ Zpos (digits2_pos m).
Proof.
  induction m as [m IH | m IH |]; simpl digits2_pos.
  - rewrite Pos2Z.inj_succ.
    replace (Z.succ (Zpos (digits2_pos m)) - 1)
      with (Z.succ (Zpos (digits2_pos m) - 1)) by lia.
    rewrite !Z.pow_succ_r by lia. lia.
  - rewrite Pos2Z.inj_succ.
    replace (Z.succ (Zpos (digits2_pos m)) - 1)
      with (Z.succ (Zpos (digits2_pos m) - 1)) by lia.
    rewrite !Z.pow_succ_r by lia. lia.
  - simpl. lia.
Qed.

Lemma pow2_pos (k : Z) : 0 <= k -> 0 < 2 ^ k.
Proof. intros H. apply Z.pow_pos_nonneg; lia. Qed.

(** Two scaled mantissas of the same value have their digits at the same
    place. *)
Lemma digits2_scaled (m1 m2 : positive) (k1 k2 : Z) :
  0 <= k1 -> 0 <= k2 ->
  Zpos m1 * 2 ^ k1 = Zpos m2 * 2 ^ k2 ->
  Zpos (digits2_pos m1) + k1 = Zpos (digits2_pos m2) + k2.
Proof.
  intros H1 H2 E.
  pose proof (digits2_bounds m1) as [L1 U1].
  pose proof (digits2_bounds m2) as [L2 U2].
  set (d1 := Zpos (digits2_pos m1)) in *.
  set (d2 := Zpos (digits2_pos m2)) in *.
  assert (P1 : 0 < 2 ^ k1) by now apply pow2_pos.
  assert (P2 : 0 < 2 ^ k2) by now apply pow2_pos.
  assert (A : 2 ^ (d1 - 1 + k1) < 2 ^ (d2 + k2)).
  { rewrite !Z.pow_add_r by (unfold d1, d2; lia). nia. }
  assert (B : 2 ^ (d2 - 1 + k2) < 2 ^ (d1 + k1)).
  { rewrite !Z.pow_add_r by (unfold d1, d2; lia). nia. }
  apply Z.pow_lt_mono_r_iff in A; [|lia|unfold d2; lia].
  apply Z.pow_lt_mono_r_iff in B; [|lia|unfold d1; lia].
  lia.
Qed.

Lemma iter_xO (m d : positive) :
  Zpos (Pos.iter xO m d) = Zpos m * 2 ^ Zpos d.
Proof.
  induction d as [|d IH] using Pos.peano_ind.
  - simpl. lia.
  - rewrite Pos.iter_succ, Pos2Z.inj_succ, Z.pow_succ_r by lia.
    rewrite Pos2Z.inj_xO, IH. lia.
Qed.

Lemma iter_pos_nat {A : Type} (f : A -> A) (p : positive) :
  forall x, iter_pos f p x = Nat.iter (Pos.to_nat p) f x.
Proof.
  induction p as [p IH | p IH |]; intros x; simpl iter_pos.
  - rewrite !IH, Pos2Nat.inj_xI, <- Nat.iter_add, Nat.iter_swap.
    replace (2 * Pos.to_nat p)%nat with (Pos.to_nat p + Pos.to_nat p)%nat by lia.
    reflexivity.
  - rewrite !IH, Pos2Nat.inj_xO, <- Nat.iter_add.
    replace (2 * Pos.to_nat p)%nat with (Pos.to_nat p + Pos.to_nat p)%nat by lia.
    reflexivity.
  - reflexivity.
Qed.

(** Shifting out zero bits loses nothing. *)
Lemma shr_zero_bits (n : nat) :
  forall M m0 : positive,
    Zpos M = Zpos m0 * 2 ^ Z.of_nat n ->
    Nat.iter n shr_1 (Build_shr_record (Zpos M) false false)
    = Build_shr_record (Zpos m0) false false.
Proof.
  induction n as [|n IH]; intros M m0 E.
  - simpl in *. f_equal. lia.
  - rewrite Nat.iter_succ_r. rewrite Nat2Z.inj_succ, Z.pow_succ_r in E by lia.
    destruct M as [M | M |]; try lia.
    simpl shr_1. apply IH. lia.
Qed.

Lemma fexp_normal (e0 : Z) : -1074 <= e0 -> fexp prec emax (53 + e0) = e0.
Proof. intros H. unfold fexp, emin, prec, emax. lia. Qed.

(** Rounding a value that the format holds gives that value. *)
Lemma binary_round_aux_exact (s : bool) (M m0 : positive) (e e0 : Z) :
  Zpos (digits2_pos m0) = 53 -> -1074 <= e0 <= 971 -> e <= e0 ->
  Zpos M = Zpos m0 * 2 ^ (e0 - e) ->
  binary_round_aux prec emax s (Zpos M) e loc_Exact = S754_finite s m0 e0.
Proof.
  intros Hd He0 Hle E.
  assert (D : Zpos (digits2_pos M) + e = 53 + e0).
  { rewrite <- Hd.
    replace (Zpos (digits2_pos M) + e)
      with (Zpos (digits2_pos M) + 0 + e) by lia.
    rewrite (digits2_scaled M m0 0 (e0 - e)); lia. }
  unfold binary_round_aux, shr_fexp.
  cbn [Zdigits2 shr_record_of_loc].
  rewrite D, fexp_normal by lia.
  assert (S1 : shr (Build_shr_record (Zpos M) false false) e (e0 - e)
               = (Build_shr_record (Zpos m0) false false, e0)).
  { unfold shr. destruct (e0 - e) as [|d|d] eqn:Ed; try lia.
    - f_equal; [|lia]. f_equal. simpl in E. lia.
    - rewrite iter_pos_nat. f_equal; [|lia].
      apply shr_zero_bits. rewrite positive_nat_Z. exact E. }
  rewrite S1. cbn [shr_m loc_of_shr_record round_nearest_even Zdigits2].
  rewrite Hd, fexp_normal by lia. rewrite Z.sub_diag. cbn [shr shr_m].
  unfold prec, emax.
  destruct (Z.leb_spec e0 (1024 - 53)); [reflexivity | lia].
Qed.

Lemma binary_round_exact (s : bool) (M m0 : positive) (e e0 K : Z) :
  Zpos (digits2_pos m0) = 53 -> -1074 <= e0 <= 971 ->
  0 <= e + K -> 0 <= e0 + K ->
  Zpos M * 2 ^ (e + K) = Zpos m0 * 2 ^ (e0 + K) ->
  binary_round prec emax s M e = S754_finite s m0 e0.
Proof.
  intros Hd He0 HK HK0 E.
  pose proof (digits2_scaled M m0 _ _ HK HK0 E) as D.
  unfold binary_round.
  replace (Zpos (digits2_pos M) + e) with (53 + e0) by lia.
  rewrite fexp_normal by lia.
  unfold shl_align.
  destruct (e0 - e) as [|d|d] eqn:Ed.
  - apply binary_round_aux_exact; try lia.
    assert (e = e0) by lia. subst e. rewrite Z.sub_diag, Z.mul_1_r.
    apply Z.mul_reg_r with (2 ^ (e0 + K)); [|exact E].
    pose proof (pow2_pos _ HK0). lia.
  - apply binary_round_aux_exact; try lia.
    rewrite Ed. replace (e0 + K) with (Zpos d + (e + K)) in E by lia.
    rewrite (Z.pow_add_r 2 (Zpos d) (e + K)), Z.mul_assoc in E by lia.
    apply Z.mul_reg_r with (2 ^ (e + K)); [|exact E].
    pose proof (pow2_pos _ HK). lia.
  - apply binary_round_aux_exact; try lia.
    rewrite Z.sub_diag, Z.mul_1_r, iter_xO.
    replace (e + K) with (Zpos d + (e0 + K)) in E by lia.
    rewrite (Z.pow_add_r 2 (Zpos d) (e0 + K)), Z.mul_assoc in E by lia.
    apply Z.mul_reg_r with (2 ^ (e0 + K)); [|exact E].
    pose proof (pow2_pos _ HK0). lia.
Qed.


Lemma intRep_pos (z : Z) (m : positive) (e : Z) : intRep z m e -> 1 <= z.
Proof.
  intros (_ & He & E).
  assert (0 < 2 ^ (e + 52)) by (apply pow2_pos; lia).
  assert (0 < 2 ^ 52) by (apply pow2_pos; lia). nia.
Qed.

Lemma ofZ_rep (z : Z) :
  1 <= z <= 2 ^ 53 ->
  exists m e, ofZ z = S754_finite false m e /\ intRep z m e.
Proof.
  intros [Hl Hu]. destruct z as [|p|p]; try lia.
  destruct (Z.eq_dec (Zpos p) (2 ^ 53)) as [E | N].
  { rewrite E. exists (2 ^ 52)%positive, 1. split; [vm_compute; reflexivity|].
    repeat split; vm_compute; congruence. }
  pose proof (digits2_bounds p) as [L U].
  set (d := Zpos (digits2_pos p)) in *.
  assert (Hd : 1 <= d <= 53).
  { split; [unfold d; lia|].
    destruct (Z_lt_le_dec 53 d) as [G|G]; [|exact G].
    assert (2 ^ 53 <= 2 ^ (d - 1)) by (apply Z.pow_le_mono_r; lia). lia. }
  assert (P : 0 < 2 ^ (53 - d)) by (apply pow2_pos; lia).
  destruct (Zpos p * 2 ^ (53 - d)) as [|m|m] eqn:Em; try lia.
  assert (R : intRep (Zpos p) m (d - 53)).
  { repeat split; try lia.
    - pose proof (digits2_scaled m p 0 (53 - d)) as D.
      rewrite Z.pow_0_r, Z.mul_1_r in D. fold d in D. specialize (D ltac:(lia) ltac:(lia) (eq_sym Em)). lia.
    - rewrite <- Em, <- Z.mul_assoc, <- Z.pow_add_r by lia.
      replace (53 - d + (d - 53 + 52)) with 52 by lia. reflexivity. }
  exists m, (d - 53). split; [|exact R].
  destruct R as (R1 & R2 & R3).
  unfold ofZ, binary_normalize.
  apply binary_round_exact with (K := 52); lia.
Qed.

Lemma shl_align_fst (m : positive) (e e' : Z) :
  e' <= e -> Zpos (fst (shl_align m e e')) = Zpos m * 2 ^ (e - e').
Proof.
  intros H. unfold shl_align. destruct (e' - e) as [|d|d] eqn:Ed; try lia.
  - replace (e - e') with 0 by lia. simpl. lia.
  - simpl fst. rewrite iter_xO. replace (e - e') with (Zpos d) by lia. reflexivity.
Qed.

(** The sum of two integers is exact as long as it stays below [2^53]. *)
Lemma add_rep (a b : Z) (ma mb : positive) (ea eb : Z) :
  intRep a ma ea -> intRep b mb eb -> a + b <= 2 ^ 53 ->
  add (S754_finite false ma ea) (S754_finite false mb eb) = ofZ (a + b).
Proof.
  intros Ra Rb Hs.
  pose proof (intRep_pos _ _ _ Ra). pose proof (intRep_pos _ _ _ Rb).
  destruct (ofZ_rep (a + b)) as (m0 & e0 & E0 & R0); [lia|].
  rewrite E0. destruct Ra as (Da & Ha & Ea), Rb as (Db & Hb & Eb), R0 as (D0 & H0' & E0').
  unfold add, SFadd. cbn [cond_Zopp].
  set (ez := Z.min ea eb).
  pose proof (shl_align_fst ma ea ez ltac:(unfold ez; lia)) as Va.
  pose proof (shl_align_fst mb eb ez ltac:(unfold ez; lia)) as Vb.
  set (xa := fst (shl_align ma ea ez)) in *.
  set (xb := fst (shl_align mb eb ez)) in *.
  change (Zpos xa + Zpos xb) with (Zpos (xa + xb)).
  cbn [binary_normalize].
  apply binary_round_exact with (K := 52); try (unfold ez; lia).
  rewrite E0', Z.mul_add_distr_r, <- Ea, <- Eb.
  rewrite Pos2Z.inj_add, Va, Vb, Z.mul_add_distr_r.
  rewrite <- !Z.mul_assoc, <- !Z.pow_add_r by (unfold ez; lia).
  replace (ea - ez + (ez + 52)) with (ea + 52) by lia.
  replace (eb - ez + (ez + 52)) with (eb + 52) by lia.
  reflexivity.
Qed.

(** The arithmetic behind the comparison of two mantissas. *)
Lemma scaled_le (ma mb a b X T : Z) :
  0 < X -> 0 < T -> ma * X = a * T -> mb * X = b * T ->
  (ma <= mb <-> a <= b).
Proof.
  intros HX HT Ea Eb. split; intros H.
  - apply (Z.mul_le_mono_pos_r _ _ T HT). rewrite <- Ea, <- Eb.
    apply Z.mul_le_mono_nonneg_r; lia.
  - apply (Z.mul_le_mono_pos_r _ _ X HX). rewrite Ea, Eb.
    apply Z.mul_le_mono_nonneg_r; lia.
Qed.

Lemma scaled_lt_exp (ma mb a b X T W : Z) :
  0 < X -> 0 < T -> 2 <= W -> T <= mb -> ma < 2 * T ->
  ma * X = a * T -> mb * (W * X) = b * T -> a < b.
Proof.
  intros HX HT HW Lb Ua Ea Eb.
  apply (Z.mul_lt_mono_pos_r T _ _ HT). rewrite <- Ea, <- Eb.
  apply Z.lt_le_trans with (2 * T * X).
  - apply Z.mul_lt_mono_pos_r; lia.
  - rewrite Z.mul_assoc. apply Z.mul_le_mono_nonneg_r; [lia|].
    rewrite (Z.mul_comm mb W). apply Z.mul_le_mono_nonneg; lia.
Qed.

Lemma leb_rep (a b : Z) (ma mb : positive) (ea eb : Z) :
  intRep a ma ea -> intRep b mb eb ->
  leb (S754_finite false ma ea) (S754_finite false mb eb) = (a <=? b).
Proof.
  intros (Da & Ha & Ea) (Db & Hb & Eb).
  pose proof (digits2_bounds ma) as [La Ua]. rewrite Da in La, Ua.
  pose proof (digits2_bounds mb) as [Lb Ub]. rewrite Db in Lb, Ub.
  assert (P52 : 0 < 2 ^ 52) by (apply pow2_pos; lia).
  change (2 ^ (53 - 1)) with (2 ^ 52) in *.
  change (2 ^ 53) with (2 * 2 ^ 52) in *.
  unfold leb, SFleb, SFcompare.
  destruct (Z.compare_spec ea eb) as [C | C | C].
  - subst eb. fold (Pos.compare ma mb).
    assert (P : 0 < 2 ^ (ea + 52)) by (apply pow2_pos; lia).
    pose proof (scaled_le _ _ _ _ _ _ P P52 Ea Eb) as S.
    destruct (Pos.compare_spec ma mb) as [C | C | C];
      symmetry; [apply Z.leb_le | apply Z.leb_le | apply Z.leb_gt].
    + apply S. subst mb. lia.
    + apply S. apply Pos2Z.pos_lt_pos in C. lia.
    + apply Pos2Z.pos_lt_pos in C.
      destruct (Z_lt_le_dec b a) as [G | G]; [exact G|].
      apply S in G. lia.
  - symmetry. apply Z.leb_le. apply Z.lt_le_incl.
    assert (P : 0 < 2 ^ (ea + 52)) by (apply pow2_pos; lia).
    replace (eb + 52) with ((eb - ea) + (ea + 52)) in Eb by lia.
    rewrite (Z.pow_add_r 2 (eb - ea) (ea + 52)) in Eb by lia.
    assert (2 <= 2 ^ (eb - ea)).
    { change 2 with (2 ^ 1) at 1. apply Z.pow_le_mono_r; lia. }
    apply (scaled_lt_exp (Zpos ma) (Zpos mb) a b (2 ^ (ea + 52)) (2 ^ 52)
             (2 ^ (eb - ea))); assumption.
  - symmetry. apply Z.leb_gt.
    assert (P : 0 < 2 ^ (eb + 52)) by (apply pow2_pos; lia).
    replace (ea + 52) with ((ea - eb) + (eb + 52)) in Ea by lia.
    rewrite (Z.pow_add_r 2 (ea - eb) (eb + 52)) in Ea by lia.
    assert (2 <= 2 ^ (ea - eb)).
    { change 2 with (2 ^ 1) at 1. apply Z.pow_le_mono_r; lia. }
    apply (scaled_lt_exp (Zpos mb) (Zpos ma) b a (2 ^ (eb + 52)) (2 ^ 52)
             (2 ^ (ea - eb))); assumption.
Qed.

Lemma toZ_rep (z : Z) (m : positive) (e : Z) :
  intRep z m e -> toZ (S754_finite false m e) = Some z.
Proof.
  intros (D & H & E). unfold toZ.
  destruct e as [|e|e]; cbn [option_map].
  - f_equal. simpl in E. lia.
  - assert (He : e = 1%positive) by lia. subst e. f_equal.
    change (2 ^ (1 + 52)) with (2 * 2 ^ 52) in E. change (2 ^ 1) with 2. lia.
  - assert (P : 0 < 2 ^ (- Zneg e)) by (apply pow2_pos; lia).
    assert (V : Zpos m = z * 2 ^ (- Zneg e)).
    { apply Z.mul_reg_r with (2 ^ (Zneg e + 52)).
      - pose proof (pow2_pos (Zneg e + 52)); lia.
      - rewrite E, <- Z.mul_assoc, <- Z.pow_add_r by lia.
        replace (- Zneg e + (Zneg e + 52)) with 52 by lia. reflexivity. }
    rewrite V, Z.mod_mul, Z.div_mul by lia. reflexivity.
Qed.

End FloatInt.

Import FloatInt.

Lemma ofZ_add (a b : Z) :
  0 <= a -> 0 <= b -> a + b <= 2 ^ 53 -> add (ofZ a) (ofZ b) = ofZ (a + b).
Proof.
  intros Ha Hb Hs.
  destruct (Z.eq_dec a 0) as [-> | Na].
  { simpl Z.add. destruct (Z.eq_dec b 0) as [-> | Nb]; [reflexivity|].
    destruct (ofZ_rep b) as (m & e & E & _); [lia|]. rewrite E. reflexivity. }
  destruct (ofZ_rep a) as (ma & ea & Ea & Ra); [lia|].
  destruct (Z.eq_dec b 0) as [-> | Nb].
  { rewrite Z.add_0_r, Ea. reflexivity. }
  destruct (ofZ_rep b) as (mb & eb & Eb & Rb); [lia|].
  rewrite Ea, Eb. apply add_rep; assumption.
Qed.

Lemma ofZ_leb (a b : Z) :
  0 <= a <= 2 ^ 53 -> 0 <= b <= 2 ^ 53 -> leb (ofZ a) (ofZ b) = (a <=? b).
Proof.
  intros Ha Hb.
  destruct (Z.eq_dec a 0) as [-> | Na].
  { destruct (Z.eq_dec b 0) as [-> | Nb]; [reflexivity|].
    destruct (ofZ_rep b) as (m & e & E & _); [lia|]. rewrite E.
    symmetry. apply Z.leb_le. lia. }
  destruct (ofZ_rep a) as (ma & ea & Ea & Ra); [lia|].
  destruct (Z.eq_dec b 0) as [-> | Nb].
  { rewrite Ea. symmetry. apply Z.leb_gt. lia. }
  destruct (ofZ_rep b) as (mb & eb & Eb & Rb); [lia|].
  rewrite Ea, Eb. apply leb_rep; assumption.
Qed.

Lemma toZ_ofZ (a : Z) : 0 <= a <= 2 ^ 53 -> toZ (ofZ a) = Some a.
Proof.
  intros Ha. destruct (Z.eq_dec a 0) as [-> | Na]; [reflexivity|].
  destruct (ofZ_rep a) as (m & e & E & R); [lia|].
  rewrite E. apply toZ_rep. exact R.
Qed.

(** Rounding a positive mantissa never gives [NaN]. *)
Lemma shr_1_nonneg (mrs : shr_record) : 0 <= shr_m mrs -> 0 <= shr_m (shr_1 mrs).
Proof.
  destruct mrs as [m r s]. simpl. intros H.
  destruct m as [|[p|p|]|p]; simpl; lia.
Qed.

Lemma shr_nonneg (mrs : shr_record) (e n : Z) :
  0 <= shr_m mrs -> 0 <= shr_m (fst (shr mrs e n)).
Proof.
  intros H. unfold shr. destruct n as [|p|p]; simpl; try exact H.
  rewrite iter_pos_nat. apply Nat.iter_invariant; [|exact H].
  intros x. apply shr_1_nonneg.
Qed.

Lemma shr_fexp_nonneg (m e : Z) (l : location) :
  0 <= m -> 0 <= shr_m (fst (shr_fexp prec emax m e l)).
Proof.
  intros H. unfold shr_fexp. apply shr_nonneg.
  destruct l as [|[]]; exact H.
Qed.

Lemma binary_round_aux_not_nan (s : bool) (m e : Z) (l : location) :
  0 <= m -> isNaN (binary_round_aux prec emax s m e l) = false.
Proof.
  intros H. unfold binary_round_aux.
  pose proof (shr_fexp_nonneg m e l H) as H1.
  destruct (shr_fexp prec emax m e l) as [mrs' e'].
  simpl fst in H1.
  assert (H2 : 0 <= round_nearest_even (shr_m mrs') (loc_of_shr_record mrs')).
  { unfold round_nearest_even.
    destruct (loc_of_shr_record mrs') as [|[]]; try lia.
    destruct (Z.even (shr_m mrs')); lia. }
  pose proof (shr_fexp_nonneg _ e' loc_Exact H2) as H3.
  destruct (shr_fexp prec emax _ e' loc_Exact) as [mrs'' e''].
  simpl fst in H3.
  destruct (shr_m mrs'') as [|p|p]; [reflexivity | | lia].
  destruct (e'' <=? emax - prec); reflexivity.
Qed.

Lemma ofZ_not_nan (z : Z) : 0 <= z -> isNaN (ofZ z) = false.
Proof.
  intros H. destruct z as [|p|p]; [reflexivity | | lia].
  unfold ofZ, binary_normalize, binary_round.
  destruct (shl_align p 0 _) as [mz ez].
  apply binary_round_aux_not_nan. lia.
Qed.

(** ** Sums of integer literals *)

Lemma digitString_inv (d : string) :
  digitString d = true -> d <> "" /\ allChars isDigit d = true.
Proof. destruct d; simpl; [discriminate | intros H; split; [discriminate | exact H]]. Qed.

Lemma append_empty_r (s : string) : s ++ "" = s.
Proof. induction s as [|c s IH]; simpl; [reflexivity | now rewrite IH]. Qed.

Lemma digitsValue_nonneg (d : string) : 0 <= literalValue d.
Proof. unfold literalValue. apply N2Z.is_nonneg. Qed.

Lemma Number_digitString (d : string) :
  digitString d = true -> Number d = ofZ (literalValue d).
Proof.
  intros H. destruct (digitString_inv d H) as [Hne Hd].
  destruct d as [|c d]; [contradiction|].
  unfold Number.
  assert (Hc : isDigit c = true) by (simpl in Hd; now apply andb_prop in Hd).
  rewrite Hc.
  rewrite <- (append_empty_r (String c d)) at 1.
  rewrite (spanDigits_app _ "" Hd eq_refl). reflexivity.
Qed.

Lemma isDigit_isAllowed (c : ascii) : isDigit c = true -> isAllowed c = true.
Proof. intros H. unfold isAllowed. rewrite H. reflexivity. Qed.

Lemma allChars_impl (p q : ascii -> bool) (s : string) :
  (forall c, p c = true -> q c = true) ->
  allChars p s = true -> allChars q s = true.
Proof.
  intros I. induction s as [|c s IH]; simpl; [reflexivity|].
  intros H. apply andb_prop in H. destruct H as [Hc Hs].
  rewrite (I c Hc), (IH Hs). reflexivity.
Qed.

Lemma allowed_plusTail (ds : list string) :
  Forall (fun d => digitString d = true) ds ->
  allChars isAllowed (plusTail ds) = true.
Proof.
  induction 1 as [|d ds Hd _ IH]; simpl; [reflexivity|].
  rewrite allChars_app, IH, andb_true_r.
  apply (allChars_impl isDigit); [exact isDigit_isAllowed|].
  apply digitString_inv. exact Hd.
Qed.

Lemma test_sumExpr (d : string) (ds : list string) :
  digitString d = true -> Forall (fun x => digitString x = true) ds ->
  test (sumExpr d ds) = true.
Proof.
  intros Hd Hds. destruct (digitString_inv d Hd) as [Hne Ha].
  unfold test, sumExpr. destruct d as [|c d]; [contradiction|].
  change (String c d ++ plusTail ds) with (String c (d ++ plusTail ds)).
  change (String c (d ++ plusTail ds)) with (String c d ++ plusTail ds).
  rewrite allChars_app, (allowed_plusTail ds Hds), andb_true_r.
  apply (allChars_impl isDigit); [exact isDigit_isAllowed | exact Ha].
Qed.

Lemma tokensOf_sumExpr (ds : list string) :
  Forall (fun x => digitString x = true) ds ->
  forall d, digitString d = true ->
            tokensOf (sumExpr d ds) = d :: plusTokens ds.
Proof.
  induction 1 as [|d' ds Hd' _ IH]; intros d Hd;
    destruct (digitString_inv d Hd) as [Hne Ha]; unfold sumExpr.
  - simpl plusTail. rewrite (tokensOf_int d "" Hne Ha eq_refl eq_refl).
    reflexivity.
  - change (plusTail (d' :: ds)) with (String "+"%char (sumExpr d' ds)).
    rewrite (tokensOf_int d (String "+"%char (sumExpr d' ds)) Hne Ha
               eq_refl eq_refl).
    rewrite tokensOf_punct by reflexivity.
    rewrite (IH d' Hd'). reflexivity.
Qed.

Lemma scanToken_literal (st : scan) (d : string) :
  digitString d = true ->
  scanToken st d = mkScan (stack st) (output st ++ [Num (Number d)]).
Proof.
  intros H. unfold scanToken.
  rewrite (Number_digitString d H), ofZ_not_nan by apply digitsValue_nonneg.
  reflexivity.
Qed.

(** The flushed output of a scan that goes on from a stack holding at most
    one ["+"]. *)
Lemma scan_plusTokens (ds : list string) :
  Forall (fun x => digitString x = true) ds ->
  forall (stk : list string) (out : list any),
    stk = [] \/ stk = ["+"] ->
    (let st := fold_left scanToken (plusTokens ds) (mkScan stk out) in
     flush (stack st) (output st))
    = (out ++ map Str stk
           ++ flat_map (fun d => [Num (Number d); Str "+"]) ds)%list.
Proof.
  induction 1 as [|d ds Hd _ IH]; intros stk out Hstk.
  - cbn. rewrite flush_spec, app_nil_r. reflexivity.
  - cbn [plusTokens flat_map app fold_left].
    assert (E : scanToken (mkScan stk out) "+"
                = mkScan ["+"] (out ++ map Str stk)).
    { destruct Hstk as [-> | ->]; cbn; [rewrite app_nil_r|]; reflexivity. }
    rewrite E, (scanToken_literal _ d Hd). cbn [stack output].
    fold (plusTokens ds). rewrite (IH ["+"] _ (or_intror eq_refl)).
    cbn [map app]. rewrite <- !app_assoc. reflexivity.
Qed.

Lemma toPostfix_sum (d : string) (ds : list string) :
  digitString d = true -> Forall (fun x => digitString x = true) ds ->
  toPostfix (d :: plusTokens ds)
  = Num (Number d) :: flat_map (fun x => [Num (Number x); Str "+"]) ds.
Proof.
  intros Hd Hds. unfold toPostfix, scanTokens. cbn [fold_left].
  rewrite (scanToken_literal _ d Hd). cbn [stack output app].
  apply (scan_plusTokens ds Hds [] [Num (Number d)]). left. reflexivity.
Qed.

Lemma evalPostfix_sum (ds : list string) :
  forall (acc : number) (tr : list Step),
  exists tr',
    fold_left evalItem (flat_map (fun x => [Num (Number x); Str "+"]) ds)
              (mkEval [acc] tr)
    = mkEval [fold_left add (map Number ds) acc] tr'
    /\ List.length tr' = (List.length tr + List.length ds)%nat.
Proof.
  induction ds as [|d ds IH]; intros acc tr.
  - exists tr. split; [reflexivity | simpl; lia].
  - cbn [flat_map app fold_left map].
    change (evalItem (evalItem (mkEval [acc] tr) (Num (Number d))) (Str "+"))
      with (mkEval [add acc (Number d)]
                   (tr ++ [mkStep (Some acc) "+" (Some (Number d))
                                  (add acc (Number d))])).
    destruct (IH (add acc (Number d))
                 (tr ++ [mkStep (Some acc) "+" (Some (Number d))
                                (add acc (Number d))])%list) as (tr' & E & L).
    exists tr'. split; [exact E|].
    rewrite L, length_app. simpl. lia.
Qed.

Lemma sum_exact (ds : list string) :
  forall a : Z,
    0 <= a -> a + sumZ (map literalValue ds) <= 2 ^ 53 ->
    Forall (fun x => digitString x = true) ds ->
    fold_left add (map Number ds) (ofZ a)
    = ofZ (a + sumZ (map literalValue ds)).
Proof.
  induction ds as [|d ds IH]; intros a Ha Hs Hds; simpl.
  - now rewrite Z.add_0_r.
  - inversion Hds as [|? ? Hd Hds']; subst.
    pose proof (digitsValue_nonneg d) as Pd.
    assert (Ps : 0 <= sumZ (map literalValue ds)).
    { clear. induction ds as [|x ds IH]; simpl; [lia|].
      pose proof (digitsValue_nonneg x). lia. }
    simpl in Hs.
    rewrite (Number_digitString d Hd), ofZ_add by lia.
    rewrite IH by (try assumption; lia). f_equal. lia.
Qed.

(** C4, as the code has it: for literals [d], [d1], ..., [dn] made of
    digits, the evaluation of [d+d1+...+dn] succeeds, its trace has one step
    for each [+] (the number of operands minus one), and its value is the
    sum taken from left to right in binary64 arithmetic; this is the sum of
    the integers whenever that sum is at most [2^53]. *)
Theorem sum_of_literals (d : string) (ds : list string) :
  digitString d = true -> Forall (fun x => digitString x = true) ds ->
  exists stps,
    evaluate (sumExpr d ds)
    = Return (mkOutcome (Some (fold_left add (map Number ds) (Number d))) stps)
    /\ List.length stps = List.length ds
    /\ (literalValue d + sumZ (map literalValue ds) <= 2 ^ 53 ->
        toZ (fold_left add (map Number ds) (Number d))
        = Some (literalValue d + sumZ (map literalValue ds))).
Proof.
  intros Hd Hds.
  assert (Hm : regexMatch (sumExpr d ds) = Some (d :: plusTokens ds)).
  { unfold regexMatch. rewrite (tokensOf_sumExpr ds Hds d Hd). reflexivity. }
  destruct (evalPostfix_sum ds (Number d) []) as (tr & E & L).
  exists (map renderStep tr). split; [|split].
  - rewrite (evaluate_returns _ _ (test_sumExpr d ds Hd Hds) Hm).
    unfold resolved. rewrite Hm, (toPostfix_sum d ds Hd Hds).
    unfold evalPostfix. cbn [fold_left].
    change (evalItem (mkEval [] []) (Num (Number d)))
      with (mkEval [Number d] []).
    rewrite E. reflexivity.
  - rewrite length_map, L. reflexivity.
  - intros Hs. pose proof (digitsValue_nonneg d) as Pd.
    assert (Ps : 0 <= sumZ (map literalValue ds)).
    { clear. induction ds as [|x ds IH]; simpl; [lia|].
      pose proof (digitsValue_nonneg x). lia. }
    rewrite (Number_digitString d Hd), sum_exact by (try assumption; lia).
    apply toZ_ofZ. lia.
Qed.

Lemma sum_of_literals_witness :
  exists stps,
    evaluate (sumExpr "12" ["30"; "4"])
    = Return (mkOutcome
                (Some (fold_left add (map Number ["30"; "4"]) (Number "12"))) stps)
    /\ List.length stps = List.length ["30"; "4"]
    /\ (literalValue "12" + sumZ (map literalValue ["30"; "4"]) <= 2 ^ 53 ->
        toZ (fold_left add (map Number ["30"; "4"]) (Number "12"))
        = Some (literalValue "12" + sumZ (map literalValue ["30"; "4"]))).
Proof.
  apply (sum_of_literals "12" ["30"; "4"]); [reflexivity|].
  repeat constructor.
Defined.

(** C4 as the specification states it fails on ["9007199254740992+1"]:
    the literals add up to 9007199254740993, the value returned is 9007199254740992. *)
Lemma sum_of_literals_counterexample :
  exists v stps,
    evaluate (sumExpr "9007199254740992" ["1"]) = Return (mkOutcome (Some v) stps)
    /\ stps = ["9007199254740992 + 1 = 9007199254740992"]
    /\ toZ v = Some 9007199254740992
    /\ literalValue "9007199254740992" + sumZ (map literalValue ["1"])
       = 9007199254740993.
Proof.
  eexists. eexists. split; [vm_compute; reflexivity|].
  split; [reflexivity|]. split; vm_compute; reflexivity.
Qed.

(** ** The factorial *)

Lemma ofZ_ltb_zero (z : Z) : 0 <= z <= 2 ^ 53 -> ltb (ofZ z) zero = false.
Proof.
  intros H. destruct (Z.eq_dec z 0) as [-> | N]; [reflexivity|].
  destruct (ofZ_rep z) as (m & e & E & _); [lia|]. rewrite E. reflexivity.
Qed.

(** The loop from [i] to [z]: [c] rounds, then the test that ends it. *)
Lemma factorialLoop_run (c : nat) :
  forall (i z : Z) (r : number) (fuel : nat),
    2 <= i -> i + Z.of_nat c = z + 1 -> z < 2 ^ 53 -> (c < fuel)%nat ->
    factorialLoop fuel (ofZ z) (ofZ i) r
    = Some (fold_left mul (map ofZ (range i c)) r).
Proof.
  induction c as [|c IH]; intros i z r fuel Hi Hc Hz Hf;
    (destruct fuel as [|fuel]; [lia|]); cbn [factorialLoop].
  - rewrite ofZ_leb by lia.
    destruct (Z.leb_spec i z); [lia | reflexivity].
  - rewrite ofZ_leb by lia.
    destruct (Z.leb_spec i z); [|lia].
    rewrite ofZ_add by lia.
    rewrite (IH (i + 1) z) by lia. reflexivity.
Qed.

Lemma factorial_product (z : Z) (fuel : nat) :
  0 <= z < 2 ^ 53 -> (Z.to_nat z < fuel)%nat ->
  factorial fuel (ofZ z)
  = Some (fold_left mul (map ofZ (range 2 (Z.to_nat (z - 1)))) (ofZ 1)).
Proof.
  intros Hz Hf. unfold factorial. rewrite ofZ_ltb_zero by lia.
  destruct (Z.eq_dec z 0) as [-> | N].
  - destruct fuel; [lia | reflexivity].
  - apply factorialLoop_run; lia.
Qed.

(** C7, as the code has it: a negative input gives [NaN]; for an integer
    [0 <= n < 2^53] the loop ends and returns the product [1 * 2 * ... * n]
    taken from left to right in binary64 arithmetic, which is 1 for 0 and 1
    and is [n!] up to [n = 22]. *)
Theorem factorial_spec :
  (forall (fuel : nat) (n : number),
      ltb n zero = true -> factorial fuel n = Some NaN)
  /\ (forall (z : Z) (fuel : nat),
         0 <= z < 2 ^ 53 -> (Z.to_nat z < fuel)%nat ->
         factorial fuel (ofZ z)
         = Some (fold_left mul (map ofZ (range 2 (Z.to_nat (z - 1)))) (ofZ 1)))
  /\ (forall (z : Z) (fuel : nat),
         0 <= z <= 22 -> (Z.to_nat z < fuel)%nat ->
         exists r, factorial fuel (ofZ z) = Some r
                   /\ toZ r = Some (factZ (Z.to_nat z))).
Proof.
  split; [|split].
  - intros fuel n H. unfold factorial. rewrite H. reflexivity.
  - exact factorial_product.
  - intros z fuel Hz Hf. eexists. split.
    + apply factorial_product; [|exact Hf].
      change (2 ^ 53) with 9007199254740992. lia.
    + assert (C : z = 0 \/ z = 1 \/ z = 2 \/ z = 3 \/ z = 4 \/ z = 5 \/ z = 6
                  \/ z = 7 \/ z = 8 \/ z = 9 \/ z = 10 \/ z = 11 \/ z = 12
                  \/ z = 13 \/ z = 14 \/ z = 15 \/ z = 16 \/ z = 17 \/ z = 18
                  \/ z = 19 \/ z = 20 \/ z = 21 \/ z = 22) by lia.
      repeat (destruct C as [-> | C]; [vm_compute; reflexivity|]).
      subst z. vm_compute. reflexivity.
Qed.

Lemma factorial_spec_witness :
  factorial 1 (ofZ (-3)) = Some NaN
  /\ factorial 6 (ofZ 5)
     = Some (fold_left mul (map ofZ (range 2 (Z.to_nat (5 - 1)))) (ofZ 1))
  /\ exists r, factorial 6 (ofZ 5) = Some r
               /\ toZ r = Some (factZ (Z.to_nat 5)).
Proof.
  split; [|split].
  - apply (proj1 factorial_spec 1%nat (ofZ (-3))). reflexivity.
  - apply (proj1 (proj2 factorial_spec) 5 6%nat);
      [change (2 ^ 53) with 9007199254740992; lia | simpl; lia].
  - apply (proj2 (proj2 factorial_spec) 5 6%nat); [lia | simpl; lia].
Defined.

(** C7 as the specification states it fails on 23 and on 171: the
    product returned for 23 is not [23!], and the one returned for 171 is [Infinity]. *)
Lemma factorial_counterexample :
  (exists r, factorial 24 (ofZ 23) = Some r
             /\ toZ r = Some 25852016738884978212864
             /\ factZ 23 = 25852016738884976640000)
  /\ factorial 172 (ofZ 171) = Some Infinity
  /\ toZ Infinity = None.
Proof.
  split; [eexists; split; [vm_compute; reflexivity|]|];
    split; vm_compute; reflexivity.
Qed.

(** * Further properties of the evaluator *)

(** ** The token expression, one match at a time *)

Lemma tokensOf_step (c : ascii) (s : string) :
  tokensOf (String c s) =
  if isDigit c then
    let '(int, r1) := spanDigits (String c s) in
    match r1 with
    | String "."%char r2 =>
        let '(frac, r3) := spanDigits r2 in
        match frac with
        | EmptyString => int :: tokensOf r1
        | _ => (int ++ "." ++ frac) :: tokensOf r3
        end
    | _ => int :: tokensOf r1
    end
  else if isPunct c then String c EmptyString :: tokensOf s
  else tokensOf s.
Proof.
  unfold tokensOf at 1. cbn [String.length matchAll].
  destruct (isDigit c) eqn:Hc; [|reflexivity].
  destruct (spanDigits (String c s)) as [int r1] eqn:Hs.
  assert (L1 : (String.length r1 <= String.length s)%nat).
  { simpl in Hs. rewrite Hc in Hs. destruct (spanDigits s) as [d r] eqn:Hs'.
    inversion Hs; subst. eapply spanDigits_rest_le; eauto. }
  destruct r1 as [|c1 r2]; [now rewrite matchAll_empty|].
  rewrite (matchAll_tokensOf _ (String c1 r2) L1).
  destruct (spanDigits r2) as [frac r3] eqn:Hs2.
  pose proof (spanDigits_rest_le _ _ _ Hs2) as L2. simpl in L1.
  rewrite (matchAll_tokensOf _ r3) by lia.
  reflexivity.
Qed.

Lemma spanDigits_split (s : string) :
  s = fst (spanDigits s) ++ snd (spanDigits s).
Proof.
  induction s as [|c s IH]; simpl; [reflexivity|].
  destruct (isDigit c); [|reflexivity].
  destruct (spanDigits s) as [d r]. simpl in *. now rewrite <- IH.
Qed.

Lemma spanDigits_digits (s : string) :
  allChars isDigit (fst (spanDigits s)) = true.
Proof.
  induction s as [|c s IH]; simpl; [reflexivity|].
  destruct (isDigit c) eqn:Hc; [|reflexivity].
  destruct (spanDigits s) as [d r]. simpl in *. now rewrite Hc, IH.
Qed.

Lemma spanDigits_rest (s : string) :
  startsWithDigit (snd (spanDigits s)) = false.
Proof.
  induction s as [|c s IH]; simpl; [reflexivity|].
  destruct (isDigit c) eqn:Hc; [|simpl; exact Hc].
  destruct (spanDigits s) as [d r]. simpl in *. exact IH.
Qed.

(** Strong induction on the length of a string. *)
Lemma string_length_ind (P : string -> Prop) :
  (forall s, (forall r, (String.length r < String.length s)%nat -> P r) -> P s) ->
  forall s, P s.
Proof.
  intros H s.
  assert (G : forall n r, (String.length r < n)%nat -> P r).
  { induction n as [|n IH]; intros r Hr; [lia|].
    apply H. intros r' Hr'. apply IH. lia. }
  apply (G (S (String.length s))). lia.
Qed.

(** ** Tokens are literals or punctuation *)

Lemma spanDigits_all (d : string) :
  allChars isDigit d = true -> spanDigits d = (d, EmptyString).
Proof.
  intros H. rewrite <- (append_empty_r d) at 1.
  apply spanDigits_app; [exact H | reflexivity].
Qed.

Lemma isLiteral_int (d : string) :
  d <> "" -> allChars isDigit d = true -> isLiteral d = true.
Proof.
  intros Hne Hd. unfold isLiteral. rewrite (spanDigits_all d Hd).
  destruct d; [contradiction | reflexivity].
Qed.

Lemma isLiteral_frac (int frac : string) :
  int <> "" -> allChars isDigit int = true ->
  frac <> "" -> allChars isDigit frac = true ->
  isLiteral (int ++ "." ++ frac) = true.
Proof.
  intros Hi Di Hf Df. unfold isLiteral.
  rewrite (spanDigits_app int ("." ++ frac) Di eq_refl).
  destruct int; [contradiction|].
  change ("." ++ frac) with (String "."%char frac). cbv iota beta.
  rewrite (spanDigits_all frac Df).
  destruct frac; [contradiction | reflexivity].
Qed.

Lemma div_eucl_quotient_nonneg (a b : Z) :
  0 <= a -> 0 < b -> 0 <= fst (Z.div_eucl a b).
Proof.
  intros Ha Hb. change (fst (Z.div_eucl a b)) with (a / b).
  apply Z.div_pos; assumption.
Qed.

Lemma ofRatio_not_nan (n : N) (d : positive) : isNaN (ofRatio n d) = false.
Proof.
  destruct n as [|p]; [reflexivity|].
  unfold ofRatio, div, SFdiv, SFdiv_core_binary.
  set (m' := match _ - _ - _ with Z0 => Zpos p | Zpos _ => _ | Zneg _ => 0 end).
  assert (Hm : 0 <= m').
  { unfold m'. destruct (_ - _ - _); try lia.
    apply Z.shiftl_nonneg. lia. }
  pose proof (div_eucl_quotient_nonneg m' (Zpos d) Hm ltac:(lia)) as Hq.
  destruct (Z.div_eucl m' (Zpos d)) as [q r]. simpl fst in Hq.
  apply binary_round_aux_not_nan. exact Hq.
Qed.

(** [Number] turns a literal into a number. *)
Lemma Number_literal (t : string) : isLiteral t = true -> isNaN (Number t) = false.
Proof.
  unfold isLiteral, Number. intros H.
  destruct t as [|c t]; [discriminate H|].
  destruct (isDigit c) eqn:Hc.
  2:{ simpl in H. rewrite Hc in H. discriminate H. }
  destruct (spanDigits (String c t)) as [int r1].
  destruct int as [|ci int]; [discriminate H|].
  destruct r1 as [|c1 r2].
  { apply ofZ_not_nan. apply N2Z.is_nonneg. }
  destruct (Ascii.eqb c1 "."%char) eqn:E.
  - apply Ascii.eqb_eq in E. subst c1.
    destruct (spanDigits r2) as [frac r3].
    destruct frac; [discriminate H|]. destruct r3; [|discriminate H].
    apply ofRatio_not_nan.
  - destruct c1 as [[] [] [] [] [] [] [] []]; try discriminate E; discriminate H.
Qed.

Lemma Number_punct (t : string) :
  isPunctToken t = true ->
  isNaN (Number t) = true
  /\ (inOps t || String.eqb t "(" || String.eqb t ")") = true.
Proof.
  destruct t as [|c [|c' t]]; try discriminate.
  simpl. intros H.
  destruct c as [[] [] [] [] [] [] [] []]; try discriminate H; split; reflexivity.
Qed.

Lemma spanDigits_first (c : ascii) (s int r1 : string) :
  isDigit c = true -> spanDigits (String c s) = (int, r1) ->
  int <> "" /\ allChars isDigit int = true
  /\ (String.length r1 <= String.length s)%nat
  /\ startsWithDigit r1 = false.
Proof.
  intros Hc Hs.
  pose proof (spanDigits_digits (String c s)) as D.
  pose proof (spanDigits_length (String c s)) as L.
  pose proof (spanDigits_rest (String c s)) as R.
  rewrite Hs in D, L, R. simpl fst in *. simpl snd in *.
  simpl in Hs. rewrite Hc in Hs. destruct (spanDigits s) as [d r].
  inversion Hs; subst. repeat split; try assumption; [discriminate|].
  simpl in L. lia.
Qed.

Lemma tokens_shape (s : string) :
  Forall (fun t =>
            (isLiteral t = true /\ isNaN (Number t) = false)
            \/ (isPunctToken t = true /\ isNaN (Number t) = true
                /\ (inOps t || String.eqb t "(" || String.eqb t ")") = true))
         (tokensOf s).
Proof.
  match goal with |- Forall ?Q _ => set (P := Q) end.
  induction s as [s IH] using string_length_ind.
  destruct s as [|c s]; [constructor|].
  rewrite tokensOf_step.
  destruct (isDigit c) eqn:Hc.
  - destruct (spanDigits (String c s)) as [int r1] eqn:Hs.
    destruct (spanDigits_first c s int r1 Hc Hs) as (Hne & Hd & L1 & _).
    assert (Tint : isLiteral int = true /\ isNaN (Number int) = false).
    { pose proof (isLiteral_int int Hne Hd) as E.
      split; [exact E | apply Number_literal; exact E]. }
    assert (T1 : forall r, (String.length r <= String.length r1)%nat ->
                           Forall P (tokensOf r))
      by (intros r Hr; apply IH; simpl; lia).
    destruct r1 as [|c1 r2]; [constructor; [left; exact Tint | apply T1; lia]|].
    destruct (Ascii.eqb c1 "."%char) eqn:E.
    + apply Ascii.eqb_eq in E. subst c1.
      destruct (spanDigits r2) as [frac r3] eqn:Hs2.
      pose proof (spanDigits_digits r2) as D2.
      pose proof (spanDigits_rest_le _ _ _ Hs2) as L2.
      rewrite Hs2 in D2. simpl fst in D2.
      destruct frac as [|cf frac];
        [constructor; [left; exact Tint | apply T1; lia]|].
      constructor; [|apply T1; simpl; lia].
      left.
      pose proof (isLiteral_frac int (String cf frac) Hne Hd
                    ltac:(discriminate) D2) as E.
      split; [exact E | apply Number_literal; exact E].
    + assert (G : Forall P (int :: tokensOf (String c1 r2)))
        by (constructor; [left; exact Tint | apply T1; lia]).
      destruct c1 as [[] [] [] [] [] [] [] []]; try discriminate E; exact G.
  - destruct (isPunct c) eqn:Hp; [|apply IH; simpl; lia].
    constructor; [|apply IH; simpl; lia].
    right. split; [exact Hp|]. apply Number_punct. exact Hp.
Qed.

(** X1: whatever the input, each token is a number literal, which [Number]
    turns into a number, or one of the six characters [( ) + - * /], which
    [Number] turns into [NaN] and which is an operator or a parenthesis:
    every token is taken by one of the four branches of the scan. *)
Theorem tokens_wellformed (s : string) :
  Forall (fun t =>
            (isLiteral t = true /\ isNaN (Number t) = false)
            \/ (isPunctToken t = true /\ isNaN (Number t) = true
                /\ (inOps t || String.eqb t "(" || String.eqb t ")") = true))
         (tokensOf s).
Proof. exact (tokens_shape s). Qed.

(** X2: the token expression finds no token (and the evaluator throws
    "Invalid") exactly when the input holds neither a digit nor one of
    [( ) + - * /]; among the inputs that pass the validation these are the
    strings of spaces and points. *)
Theorem no_token_iff (s : string) :
  regexMatch s = None <-> allChars isBlank s = true.
Proof.
  assert (E : tokensOf s = [] <-> allChars isBlank s = true).
  { induction s as [|c s IH]; [split; reflexivity|].
    rewrite tokensOf_step. cbn [allChars]. unfold isBlank at 1.
    destruct (isDigit c) eqn:Hc; cbn [orb negb andb].
    - split; [|discriminate].
      destruct (spanDigits (String c s)) as [int r1].
      destruct r1 as [|c1 r2]; [discriminate|].
      destruct (Ascii.eqb c1 "."%char) eqn:E1.
      + apply Ascii.eqb_eq in E1. subst c1.
        destruct (spanDigits r2) as [[|] ?]; discriminate.
      + destruct c1 as [[] [] [] [] [] [] [] []]; discriminate.
    - destruct (isPunct c); cbn [negb andb]; [split; discriminate | exact IH]. }
  unfold regexMatch. destruct (tokensOf s) eqn:T.
  - split; [intros _; now apply E | reflexivity].
  - split; [discriminate|]. intros H. apply E in H. discriminate H.
Qed.

Lemma spanDigits_sep (c : ascii) (s1 s2 : string) :
  isDigit c = false ->
  spanDigits (s1 ++ String c s2)
  = (fst (spanDigits s1), snd (spanDigits s1) ++ String c s2).
Proof.
  intros Hc. induction s1 as [|a s1 IH]; simpl.
  - rewrite Hc. reflexivity.
  - destruct (isDigit a); [|reflexivity].
    rewrite IH. destruct (spanDigits s1). reflexivity.
Qed.

(** X3: a character that is not a digit, not a point and not one of
    [( ) + - * /] (a space, in an input that passes the validation)
    separates: the tokens of the whole are the tokens of what precedes it
    followed by the tokens of what follows it.  So ["1 2"] is two numbers,
    not twelve. *)
Theorem tokensOf_separator (c : ascii) (s1 s2 : string) :
  isBlank c = true -> c <> "."%char ->
  tokensOf (s1 ++ String c s2) = (tokensOf s1 ++ tokensOf s2)%list.
Proof.
  intros Hb Hp. unfold isBlank in Hb. apply negb_true_iff in Hb.
  apply orb_false_iff in Hb. destruct Hb as [Hd Hq].
  induction s1 as [s1 IH] using string_length_ind.
  destruct s1 as [|a s1].
  { simpl append. rewrite tokensOf_skip by assumption. reflexivity. }
  change (String a s1 ++ String c s2) with (String a (s1 ++ String c s2)).
  rewrite !tokensOf_step.
  destruct (isDigit a) eqn:Ha.
  - change (String a (s1 ++ String c s2)) with (String a s1 ++ String c s2).
    rewrite (spanDigits_sep c _ s2 Hd).
    destruct (spanDigits (String a s1)) as [int r1] eqn:Hs.
    destruct (spanDigits_first a s1 int r1 Ha Hs) as (_ & _ & L1 & _).
    simpl fst. simpl snd.
    destruct r1 as [|c1 r2].
    + simpl append. rewrite tokensOf_skip by assumption.
      assert (N : c <> "."%char) by exact Hp.
      destruct c as [[] [] [] [] [] [] [] []]; try reflexivity.
      contradiction N. reflexivity.
    + change (String c1 r2 ++ String c s2) with (String c1 (r2 ++ String c s2)).
      destruct (Ascii.eqb c1 "."%char) eqn:E.
      * apply Ascii.eqb_eq in E. subst c1.
        rewrite (spanDigits_sep c r2 s2 Hd).
        destruct (spanDigits r2) as [frac r3] eqn:Hs2.
        pose proof (spanDigits_rest_le _ _ _ Hs2) as L2.
        simpl fst. simpl snd. simpl in L1.
        destruct frac.
        -- change (String "." (r2 ++ String c s2))
             with (String "."%char r2 ++ String c s2).
           rewrite IH by (simpl; lia). reflexivity.
        -- rewrite IH by (simpl; lia). reflexivity.
      * assert (G : tokensOf (String c1 (r2 ++ String c s2))
                    = (tokensOf (String c1 r2) ++ tokensOf s2)%list).
        { change (String c1 (r2 ++ String c s2))
            with (String c1 r2 ++ String c s2).
          apply IH. simpl in *. lia. }
        destruct c1 as [[] [] [] [] [] [] [] []]; try discriminate E;
          rewrite G; reflexivity.
  - destruct (isPunct a); rewrite IH by (simpl; lia); reflexivity.
Qed.

Lemma tokensOf_separator_witness :
  tokensOf ("1" ++ String " "%char "2") = (tokensOf "1" ++ tokensOf "2")%list.
Proof.
  apply (tokensOf_separator " "%char "1" "2"); [reflexivity | discriminate].
Defined.

(** ** What the conversion to postfix keeps *)

Lemma numbersOf_app (a b : list any) :
  numbersOf (a ++ b) = (numbersOf a ++ numbersOf b)%list.
Proof. unfold numbersOf. apply flat_map_app. Qed.

Lemma stringsOf_app (a b : list any) :
  stringsOf (a ++ b) = (stringsOf a ++ stringsOf b)%list.
Proof. unfold stringsOf. apply flat_map_app. Qed.

Lemma stringsOf_map_Str (l : list string) : stringsOf (map Str l) = l.
Proof. induction l as [|x l IH]; simpl; [reflexivity | now rewrite IH]. Qed.

Lemma numbersOf_map_Str (l : list string) : numbersOf (map Str l) = [].
Proof. induction l as [|x l IH]; simpl; [reflexivity | exact IH]. Qed.

(** The two loops of the scan move entries from the stack to the output:
    the output grows by a prefix of the stack, turned over to pop order. *)
Lemma popWhileGe_moves (t : string) (stk : list string) :
  forall out, exists moved,
    stk = (moved ++ stack (popWhileGe t stk out))%list
    /\ output (popWhileGe t stk out) = (out ++ map Str moved)%list
    /\ Forall (fun s => inOps s = true) moved.
Proof.
  induction stk as [|top rest IH]; intros out; simpl.
  - exists []. simpl. rewrite app_nil_r. repeat split. constructor.
  - destruct (geLookup (ops top) (ops t)) eqn:G.
    + destruct (IH (out ++ [Str top])%list) as (moved & E1 & E2 & F).
      exists (top :: moved). simpl. rewrite <- E1, E2, <- app_assoc.
      repeat split. constructor; [|exact F].
      unfold inOps. destruct (ops top); [reflexivity | discriminate G].
    + exists []. simpl. rewrite app_nil_r. repeat split. constructor.
Qed.

Lemma popUntilParen_moves (stk : list string) :
  forall out, exists moved,
    stk = (moved ++ stack (popUntilParen stk out))%list
    /\ output (popUntilParen stk out) = (out ++ map Str moved)%list
    /\ Forall (fun s => String.eqb s "(" = false) moved
    /\ (stack (popUntilParen stk out) = []
        \/ exists rest, stack (popUntilParen stk out) = "(" :: rest).
Proof.
  induction stk as [|top rest IH]; intros out; simpl.
  - exists []. simpl. rewrite app_nil_r.
    repeat split; [constructor | left; reflexivity].
  - destruct (String.eqb top "(") eqn:E.
    + exists []. simpl. rewrite app_nil_r. repeat split; [constructor|].
      right. exists rest. apply String.eqb_eq in E. now subst top.
    + destruct (IH (out ++ [Str top])%list) as (moved & E1 & E2 & F & S).
      exists (top :: moved). simpl. rewrite <- E1, E2, <- app_assoc.
      repeat split; [constructor; assumption | exact S].
Qed.

Lemma scanToken_numbers (st : scan) (t : string) :
  numbersOf (output (scanToken st t))
  = (numbersOf (output st)
       ++ (if negb (isNaN (Number t)) then [Number t] else []))%list.
Proof.
  unfold scanToken. destruct (negb (isNaN (Number t))); cbn [stack output].
  { rewrite numbersOf_app. reflexivity. }
  rewrite app_nil_r.
  destruct (inOps t); cbn [stack output].
  { destruct (popWhileGe_moves t (stack st) (output st)) as (m & _ & E & _).
    rewrite E, numbersOf_app, numbersOf_map_Str, app_nil_r. reflexivity. }
  destruct (String.eqb t "("); cbn [stack output]; [reflexivity|].
  destruct (String.eqb t ")"); cbn [stack output]; [|reflexivity].
  destruct (popUntilParen_moves (stack st) (output st)) as (m & _ & E & _).
  rewrite E, numbersOf_app, numbersOf_map_Str, app_nil_r. reflexivity.
Qed.

Lemma numbersOf_toPostfix (tokens : list string) :
  numbersOf (toPostfix tokens) = map Number (numberTokens tokens).
Proof.
  unfold toPostfix. rewrite flush_spec, numbersOf_app, numbersOf_map_Str, app_nil_r.
  unfold scanTokens.
  assert (G : forall st,
             numbersOf (output (fold_left scanToken tokens st))
             = (numbersOf (output st) ++ map Number (numberTokens tokens))%list).
  { induction tokens as [|t ts IH]; intros st; simpl.
    - now rewrite app_nil_r.
    - rewrite IH, scanToken_numbers, <- app_assoc.
      destruct (negb (isNaN (Number t))); reflexivity. }
  rewrite G. reflexivity.
Qed.

(** X4: the conversion to postfix keeps the operands and their order: the
    numbers of the postfix sequence are the numbers of the tokens, from
    left to right. *)
Theorem toPostfix_numbers (tokens : list string) :
  numbersOf (toPostfix tokens) = map Number (numberTokens tokens).
Proof. exact (numbersOf_toPostfix tokens). Qed.

Lemma inOps_cases (o : string) :
  inOps o = true -> o = "+" \/ o = "-" \/ o = "*" \/ o = "/".
Proof.
  unfold inOps, ops.
  destruct (String.eqb_spec o "+"); [auto|].
  destruct (String.eqb_spec o "-"); [auto|].
  destruct (String.eqb_spec o "*"); [auto|].
  destruct (String.eqb_spec o "/"); [auto|]. discriminate.
Qed.

Lemma inOps_not_number (o : string) : inOps o = true -> isNaN (Number o) = true.
Proof. intros H. destruct (inOps_cases o H) as [-> | [-> | [-> | ->]]]; reflexivity. Qed.

Lemma inOps_not_paren (o : string) :
  inOps o = true -> String.eqb o "(" = false /\ String.eqb o ")" = false.
Proof.
  intros H. destruct (inOps_cases o H) as [-> | [-> | [-> | ->]]];
    split; reflexivity.
Qed.

Lemma occurrences_app (s : string) (l1 l2 : list string) :
  occurrences s (l1 ++ l2) = (occurrences s l1 + occurrences s l2)%nat.
Proof. apply count_occ_app. Qed.

Lemma occurrences_cons (s x : string) (l : list string) :
  occurrences s (x :: l)
  = ((if String.eqb x s then 1 else 0) + occurrences s l)%nat.
Proof.
  unfold occurrences. simpl.
  destruct (string_dec x s) as [E | N].
  - subst. now rewrite String.eqb_refl.
  - apply String.eqb_neq in N. now rewrite N.
Qed.

(** What one token does: entries go from the top of the stack to the
    output ([moved]), a ["("] may be discarded ([dropped]), the token may be
    pushed ([pushed]). *)
Lemma scanToken_effect (st : scan) (t : string) :
  Forall (fun s => isStackEntry s = true) (stack st) ->
  exists moved dropped kept pushed,
    stack st = (moved ++ dropped ++ kept)%list
    /\ stringsOf (output (scanToken st t)) = (stringsOf (output st) ++ moved)%list
    /\ stack (scanToken st t) = (pushed ++ kept)%list
    /\ Forall (fun s => inOps s = true) moved
    /\ Forall (fun s => s = "(") dropped
    /\ pushed = (if isNaN (Number t) && isStackEntry t then [t] else []).
Proof.
  intros Hstk. unfold scanToken.
  destruct (isNaN (Number t)) eqn:Hn; cbn [negb andb].
  2:{ exists [], [], (stack st), []. cbn [stack output app].
      rewrite stringsOf_app. cbn [stringsOf flat_map app].
      repeat split; constructor. }
  unfold isStackEntry.
  destruct (inOps t) eqn:Ho; cbn [orb].
  { destruct (popWhileGe_moves t (stack st) (output st)) as (m & E1 & E2 & F).
    exists m, [], (stack (popWhileGe t (stack st) (output st))), [t].
    cbn [stack output app]. rewrite E2, stringsOf_app, stringsOf_map_Str.
    repeat split; [exact E1 | exact F | constructor]. }
  destruct (String.eqb t "(") eqn:Hl.
  { exists [], [], (stack st), [t]. cbn [stack output app].
    rewrite app_nil_r. repeat split; constructor. }
  destruct (String.eqb t ")") eqn:Hr.
  2:{ exists [], [], (stack st), []. cbn [stack output app].
      rewrite app_nil_r. repeat split; constructor. }
  destruct (popUntilParen_moves (stack st) (output st)) as (m & E1 & E2 & F & S).
  assert (Fm : Forall (fun s => inOps s = true) m).
  { rewrite E1 in Hstk. apply Forall_app in Hstk. destruct Hstk as [Hm _].
    rewrite Forall_forall in *. intros x Hx.
    specialize (Hm x Hx). specialize (F x Hx). cbv beta in *.
    unfold isStackEntry in Hm. rewrite F, orb_false_r in Hm. exact Hm. }
  cbn [stack output]. rewrite E2, stringsOf_app, stringsOf_map_Str.
  destruct S as [S | [rest S]].
  - exists m, [], [], []. rewrite S in *. cbn [dropTop tl app].
    repeat split; [exact E1 | exact Fm | constructor].
  - exists m, ["("], rest, []. rewrite S in *. cbn [dropTop tl app].
    repeat split; [exact E1 | exact Fm | repeat constructor].
Qed.

Lemma occurrences_all_paren (o : string) (l : list string) :
  inOps o = true -> Forall (fun s => s = "(") l -> occurrences o l = 0%nat.
Proof.
  intros Ho. induction 1 as [|x l Hx _ IH]; [reflexivity|].
  rewrite occurrences_cons, IH. subst x.
  destruct (String.eqb_spec "(" o) as [E | _]; [|reflexivity].
  subst o. discriminate Ho.
Qed.

Lemma filter_inOps_all (l : list string) :
  Forall (fun s => inOps s = true) l -> filter inOps l = l.
Proof.
  induction 1 as [|x l Hx _ IH]; simpl; [reflexivity|]. now rewrite Hx, IH.
Qed.

Lemma filter_inOps_paren (l : list string) :
  Forall (fun s => s = "(") l -> filter inOps l = [].
Proof.
  induction 1 as [|x l Hx _ IH]; simpl; [reflexivity|]. subst x. exact IH.
Qed.

(** The state of the scan after some tokens, against its state before. *)
Lemma scan_invariant (tokens : list string) :
  forall st,
    Forall (fun s => isStackEntry s = true) (stack st) ->
    Forall (fun s => inOps s = true) (stringsOf (output st)) ->
    let st' := fold_left scanToken tokens st in
    Forall (fun s => isStackEntry s = true) (stack st')
    /\ Forall (fun s => inOps s = true) (stringsOf (output st'))
    /\ (forall o, inOps o = true ->
          (occurrences o (stringsOf (output st')) + occurrences o (stack st')
           = occurrences o (stringsOf (output st)) + occurrences o (stack st)
             + occurrences o tokens)%nat)
    /\ (List.length (stringsOf (output st'))
        + List.length (filter inOps (stack st'))
        = List.length (stringsOf (output st))
          + List.length (filter inOps (stack st))
          + List.length (operatorTokens tokens))%nat
    /\ (forall s, In s (stack st') -> In s (stack st) \/ In s tokens).
Proof.
  induction tokens as [|t ts IH]; intros st Hs Ho.
  { cbn. repeat split; auto. }
  destruct (scanToken_effect st t Hs)
    as (moved & dropped & kept & pushed & E1 & E2 & E3 & Fm & Fd & Ep).
  assert (Hk : Forall (fun s => isStackEntry s = true) kept).
  { rewrite E1 in Hs. apply Forall_app in Hs. destruct Hs as [_ Hs].
    apply Forall_app in Hs. apply Hs. }
  assert (Hp : Forall (fun s => isStackEntry s = true) pushed).
  { rewrite Ep. destruct (isNaN (Number t)); cbn [andb]; [|constructor].
    destruct (isStackEntry t) eqn:Et; repeat constructor. exact Et. }
  assert (Hs1 : Forall (fun s => isStackEntry s = true) (stack (scanToken st t))).
  { rewrite E3. apply Forall_app. split; assumption. }
  assert (Ho1 : Forall (fun s => inOps s = true)
                       (stringsOf (output (scanToken st t)))).
  { rewrite E2. apply Forall_app. split; assumption. }
  destruct (IH (scanToken st t) Hs1 Ho1) as (I1 & I2 & I3 & I4 & I5).
  cbn [fold_left]. cbv zeta in *.
  split; [exact I1|]. split; [exact I2|]. split; [|split].
  - intros o Hop. rewrite (I3 o Hop), E2, E3, E1.
    rewrite !occurrences_app. rewrite (occurrences_cons o t ts).
    rewrite (occurrences_all_paren o dropped Hop Fd).
    assert (P : occurrences o pushed = if String.eqb t o then 1%nat else 0%nat).
    { rewrite Ep. destruct (String.eqb_spec t o) as [-> | N].
      - rewrite (inOps_not_number o Hop). unfold isStackEntry.
        rewrite Hop. cbn [andb orb].
        rewrite occurrences_cons, String.eqb_refl. reflexivity.
      - destruct (isNaN (Number t) && isStackEntry t); [|reflexivity].
        rewrite occurrences_cons. apply String.eqb_neq in N. now rewrite N. }
    rewrite P. lia.
  - rewrite I4, E2, E3, E1. rewrite !filter_app, !length_app.
    rewrite (filter_inOps_all moved Fm), (filter_inOps_paren dropped Fd).
    assert (P : filter inOps pushed = if inOps t then [t] else []).
    { rewrite Ep. destruct (inOps t) eqn:Hop.
      - rewrite (inOps_not_number t Hop). unfold isStackEntry. rewrite Hop.
        cbn [andb orb filter]. now rewrite Hop.
      - destruct (isNaN (Number t) && isStackEntry t); [|reflexivity].
        cbn [filter]. now rewrite Hop. }
    rewrite P. unfold operatorTokens. cbn [filter].
    destruct (inOps t); simpl; lia.
  - intros s Hin. destruct (I5 s Hin) as [H | H]; [|right; right; exact H].
    rewrite E3 in H. apply in_app_or in H. destruct H as [H | H].
    + right. left. rewrite Ep in H.
      destruct (isNaN (Number t) && isStackEntry t); [|destruct H].
      destruct H as [H | []]. exact H.
    + left. rewrite E1. apply in_or_app. right. apply in_or_app. now right.
Qed.

Lemma stringsOf_toPostfix (tokens : list string) :
  stringsOf (toPostfix tokens)
  = (stringsOf (output (scanTokens tokens)) ++ stack (scanTokens tokens))%list.
Proof.
  unfold toPostfix. now rewrite flush_spec, stringsOf_app, stringsOf_map_Str.
Qed.

Lemma operators_in_postfix (tokens : list string) (o : string) :
  inOps o = true ->
  occurrences o (stringsOf (toPostfix tokens)) = occurrences o tokens.
Proof.
  intros Ho.
  destruct (scan_invariant tokens (mkScan [] []) ltac:(constructor)
              ltac:(constructor)) as (_ & _ & I3 & _ & _).
  cbv zeta in *. fold (scanTokens tokens) in *.
  rewrite stringsOf_toPostfix, occurrences_app, (I3 o Ho). reflexivity.
Qed.

Lemma entries_in_postfix (tokens : list string) :
  Forall (fun s => isStackEntry s = true) (stringsOf (toPostfix tokens)).
Proof.
  destruct (scan_invariant tokens (mkScan [] []) ltac:(constructor)
              ltac:(constructor)) as (I1 & I2 & _ & _ & _).
  cbv zeta in *. fold (scanTokens tokens) in *.
  rewrite stringsOf_toPostfix. apply Forall_app. split; [|exact I1].
  eapply Forall_impl; [|exact I2]. intros s Hs. unfold isStackEntry.
  cbv beta in Hs. now rewrite Hs.
Qed.

(** X5: the conversion to postfix loses and adds no operator: each of
    [+ - * /] occurs in the postfix sequence as many times as among the
    tokens.  Besides numbers the sequence holds operators and ["("] only; a
    [")"] never reaches it. *)
Theorem toPostfix_operators (tokens : list string) :
  (forall o, inOps o = true ->
             occurrences o (stringsOf (toPostfix tokens)) = occurrences o tokens)
  /\ Forall (fun s => isStackEntry s = true) (stringsOf (toPostfix tokens))
  /\ ~ In (Str ")") (toPostfix tokens).
Proof.
  pose proof (entries_in_postfix tokens) as F.
  split; [|split; [exact F|]].
  - intros o Ho. apply operators_in_postfix. exact Ho.
  - intros Hin. rewrite Forall_forall in F.
    assert (Hs : In ")" (stringsOf (toPostfix tokens))).
    { unfold stringsOf. apply in_flat_map. exists (Str ")"). split; [exact Hin|].
      left. reflexivity. }
    specialize (F _ Hs). discriminate F.
Qed.

Lemma toPostfix_operators_witness :
  occurrences "+" (stringsOf (toPostfix ["1"; "+"; "("; "2"; "+"; "3"; ")"]))
  = occurrences "+" ["1"; "+"; "("; "2"; "+"; "3"; ")"].
Proof.
  apply (proj1 (toPostfix_operators ["1"; "+"; "("; "2"; "+"; "3"; ")"]) "+").
  reflexivity.
Defined.

(** ** The trace and the result of the evaluation *)

Lemma evalItem_trace (st : evalState) (t : any) :
  List.length (trace (evalItem st t))
  = (List.length (trace st) + List.length (stringsOf [t]))%nat.
Proof.
  destruct t as [n | s]; simpl; [lia|].
  destruct (pop (calc st)) as [b c1]. destruct (pop c1) as [a c2]. simpl.
  rewrite length_app. simpl. lia.
Qed.

Lemma evalPostfix_trace (out : list any) :
  forall st,
    List.length (trace (fold_left evalItem out st))
    = (List.length (trace st) + List.length (stringsOf out))%nat.
Proof.
  induction out as [|t out IH]; intros st; simpl fold_left.
  - simpl. lia.
  - rewrite IH, evalItem_trace.
    change (t :: out) with ([t] ++ out)%list.
    rewrite stringsOf_app, length_app. lia.
Qed.

Lemma evalItem_calc (st : evalState) (t : any) : calc (evalItem st t) <> [].
Proof.
  destruct t as [n | s]; simpl; [discriminate|].
  destruct (pop (calc st)) as [b c1]. destruct (pop c1) as [a c2]. discriminate.
Qed.

Lemma evalPostfix_calc (out : list any) :
  forall st, out <> [] \/ calc st <> [] ->
             calc (fold_left evalItem out st) <> [].
Proof.
  induction out as [|t out IH]; intros st H; simpl.
  - destruct H as [H | H]; [contradiction | exact H].
  - apply IH. right. apply evalItem_calc.
Qed.

Lemma first_none (c : list number) : first c = None <-> c = [].
Proof.
  unfold first. split.
  - destruct (rev c) eqn:E; [|discriminate]. intros _.
    rewrite <- (rev_involutive c), E. reflexivity.
  - intros ->. reflexivity.
Qed.

Lemma stack_entries_split (l : list string) :
  Forall (fun s => isStackEntry s = true) l ->
  List.length l = (List.length (filter inOps l) + occurrences "(" l)%nat.
Proof.
  induction 1 as [|x l Hx _ IH]; [reflexivity|].
  rewrite occurrences_cons. cbn [filter List.length].
  unfold isStackEntry in Hx. destruct (inOps x) eqn:Hop.
  - destruct (inOps_not_paren x Hop) as [E _]. rewrite E. simpl. lia.
  - simpl in Hx. rewrite Hx. simpl. lia.
Qed.

Lemma trace_count (tokens : list string) :
  List.length (trace (evalPostfix (toPostfix tokens)))
  = (List.length (operatorTokens tokens)
     + occurrences "(" (stack (scanTokens tokens)))%nat.
Proof.
  unfold evalPostfix. rewrite evalPostfix_trace. cbn [trace List.length plus].
  destruct (scan_invariant tokens (mkScan [] []) ltac:(constructor)
              ltac:(constructor)) as (I1 & _ & _ & I4 & _).
  cbv zeta in *. fold (scanTokens tokens) in *. cbn in I4.
  rewrite stringsOf_toPostfix, length_app, (stack_entries_split _ I1). lia.
Qed.

Lemma stack_without_paren (tokens : list string) :
  ~ In "(" tokens -> occurrences "(" (stack (scanTokens tokens)) = 0%nat.
Proof.
  intros Hno.
  destruct (scan_invariant tokens (mkScan [] []) ltac:(constructor)
              ltac:(constructor)) as (_ & _ & _ & _ & I5).
  cbv zeta in *. fold (scanTokens tokens) in *.
  apply count_occ_not_In. intros Hin.
  destruct (I5 _ Hin) as [[] | H]. contradiction.
Qed.

Lemma result_of_postfix (tokens : list string) :
  first (calc (evalPostfix (toPostfix tokens))) = None
  <-> toPostfix tokens = [].
Proof.
  rewrite first_none. split.
  - intros H. destruct (toPostfix tokens) as [|x l] eqn:E; [reflexivity|].
    exfalso. revert H. apply evalPostfix_calc. left. discriminate.
  - intros ->. reflexivity.
Qed.

Lemma result_some (tokens : list string) :
  (exists t, In t tokens /\ (isNaN (Number t) = false \/ inOps t = true)) ->
  first (calc (evalPostfix (toPostfix tokens))) <> None.
Proof.
  intros (t & Hin & Hk) Hnone. apply result_of_postfix in Hnone.
  destruct Hk as [Hn | Hop].
  - pose proof (numbersOf_toPostfix tokens) as N. rewrite Hnone in N.
    assert (In t (numberTokens tokens)).
    { unfold numberTokens. apply filter_In. split; [exact Hin|]. now rewrite Hn. }
    destruct (numberTokens tokens); [contradiction | discriminate N].
  - pose proof (operators_in_postfix tokens t Hop) as C.
    rewrite Hnone in C. cbn in C.
    assert (occurrences t tokens > 0)%nat by (apply count_occ_In; exact Hin).
    unfold occurrences in *. lia.
Qed.

(** X6: the trace has one step for each operator token and one more for
    each ["("] that the scan leaves on the stack; an input without ["("]
    has exactly as many steps as operator tokens. *)
Theorem steps_count (expr : string) (tokens : list string) :
  test expr = true -> regexMatch expr = Some tokens ->
  exists o,
    evaluate expr = Return o
    /\ List.length (steps o)
       = (List.length (operatorTokens tokens)
          + occurrences "(" (stack (scanTokens tokens)))%nat
    /\ (~ In "(" tokens ->
        List.length (steps o) = List.length (operatorTokens tokens)).
Proof.
  intros Ht Hm. eexists. split; [apply (evaluate_returns expr tokens Ht Hm)|].
  cbn [steps]. unfold resolved. rewrite Hm, length_map, trace_count.
  split; [reflexivity|].
  intros Hno. rewrite (stack_without_paren tokens Hno). lia.
Qed.

Lemma steps_count_witness :
  exists o,
    evaluate "1+2*3-4" = Return o
    /\ List.length (steps o)
       = (List.length (operatorTokens ["1"; "+"; "2"; "*"; "3"; "-"; "4"])
          + occurrences "("
              (stack (scanTokens ["1"; "+"; "2"; "*"; "3"; "-"; "4"])))%nat
    /\ (~ In "(" ["1"; "+"; "2"; "*"; "3"; "-"; "4"] ->
        List.length (steps o)
        = List.length (operatorTokens ["1"; "+"; "2"; "*"; "3"; "-"; "4"])).
Proof.
  apply (steps_count "1+2*3-4" ["1"; "+"; "2"; "*"; "3"; "-"; "4"]);
    reflexivity.
Defined.

(** X7: the value returned is [undefined] exactly when the postfix sequence
    is empty; as soon as one token is a number or an operator the
    evaluation returns a number (which can be [NaN]). *)
Theorem result_defined (expr : string) (tokens : list string) :
  test expr = true -> regexMatch expr = Some tokens ->
  exists o,
    evaluate expr = Return o
    /\ (result o = None <-> toPostfix tokens = [])
    /\ ((exists t, In t tokens /\ (isNaN (Number t) = false \/ inOps t = true))
        -> result o <> None).
Proof.
  intros Ht Hm. eexists. split; [apply (evaluate_returns expr tokens Ht Hm)|].
  cbn [result]. split; [apply result_of_postfix | apply result_some].
Qed.

Lemma result_defined_witness :
  exists o,
    evaluate "(+)" = Return o
    /\ (result o = None <-> toPostfix ["("; "+"; ")"] = [])
    /\ ((exists t, In t ["("; "+"; ")"]
                   /\ (isNaN (Number t) = false \/ inOps t = true))
        -> result o <> None).
Proof. apply (result_defined "(+)" ["("; "+"; ")"]); reflexivity. Defined.

(** ** [NaN] stays *)

Lemma applyOp_nan_left (t : string) (b : option number) :
  inOps t = true -> applyOp t (Some NaN) b = NaN.
Proof.
  intros H. destruct (inOps_cases t H) as [-> | [-> | [-> | ->]]]; reflexivity.
Qed.

Lemma first_snoc (c : list number) (x : number) : first (c ++ [x]) = Some x.
Proof. unfold first. rewrite rev_app_distr. reflexivity. Qed.

Lemma first_some (c : list number) (x : number) :
  first c = Some x -> exists c', c = (c' ++ [x])%list.
Proof.
  unfold first. destruct (rev c) as [|y l] eqn:E; [discriminate|].
  intros H. inversion H; subst. exists (rev l).
  rewrite <- (rev_involutive c), E. reflexivity.
Qed.

Lemma evalItem_keeps_nan (st : evalState) (x : any) :
  first (calc st) = Some NaN ->
  (forall s, x = Str s -> inOps s = true) ->
  first (calc (evalItem st x)) = Some NaN.
Proof.
  intros H Hx. destruct (first_some _ _ H) as [c' E].
  destruct x as [n | s]; simpl.
  - rewrite E. change (n :: c' ++ [NaN])%list with ((n :: c') ++ [NaN])%list.
    apply first_snoc.
  - specialize (Hx s eq_refl). rewrite E.
    destruct c' as [|b [|a c'']]; simpl.
    + now rewrite applyOp_undefined_left.
    + now rewrite applyOp_nan_left.
    + change (applyOp s (Some a) (Some b) :: c'' ++ [NaN])%list
        with ((applyOp s (Some a) (Some b) :: c'') ++ [NaN])%list.
      apply first_snoc.
Qed.

Lemma evalPostfix_keeps_nan (out : list any) :
  forall st,
    first (calc st) = Some NaN ->
    Forall (fun s => inOps s = true) (stringsOf out) ->
    first (calc (fold_left evalItem out st)) = Some NaN.
Proof.
  induction out as [|x out IH]; intros st H F; simpl; [exact H|].
  change (x :: out) with ([x] ++ out)%list in F.
  rewrite stringsOf_app in F. apply Forall_app in F. destruct F as [Fx Fo].
  apply IH; [|exact Fo]. apply evalItem_keeps_nan; [exact H|].
  intros s ->. simpl in Fx. inversion Fx; assumption.
Qed.

Lemma postfix_without_paren (tokens : list string) :
  ~ In "(" tokens ->
  Forall (fun s => inOps s = true) (stringsOf (toPostfix tokens)).
Proof.
  intros Hno.
  pose proof (entries_in_postfix tokens) as F.
  destruct (scan_invariant tokens (mkScan [] []) ltac:(constructor)
              ltac:(constructor)) as (_ & _ & _ & _ & I5).
  cbv zeta in I5. fold (scanTokens tokens) in I5.
  rewrite Forall_forall in *. intros s Hs. specialize (F s Hs).
  unfold isStackEntry in F. destruct (inOps s); [reflexivity|].
  simpl in F. apply String.eqb_eq in F. subst s. exfalso.
  unfold toPostfix in Hs. rewrite flush_spec, stringsOf_app, stringsOf_map_Str in Hs.
  apply in_app_or in Hs. destruct Hs as [Hs | Hs].
  - assert (N : noParen (output (scanTokens tokens)))
      by (apply scanTokens_noParen; intros []).
    apply N. unfold stringsOf in Hs. apply in_flat_map in Hs.
    destruct Hs as ([n | s] & Hin & Hx); [destruct Hx|].
    destruct Hx as [<- | []]. exact Hin.
  - destruct (I5 _ Hs) as [[] | H]. contradiction.
Qed.

(** X8: in an input without ["("], once an operator has been applied to
    fewer than two operands the value returned is [NaN], whatever
    follows. *)
Theorem underflow_gives_nan (expr : string) (tokens : list string)
        (pre post : list any) (t : string) :
  test expr = true -> regexMatch expr = Some tokens -> ~ In "(" tokens ->
  toPostfix tokens = (pre ++ Str t :: post)%list ->
  (List.length (calc (evalPostfix pre)) < 2)%nat ->
  exists o, evaluate expr = Return o /\ result o = Some NaN.
Proof.
  intros Ht Hm Hno Hp Hlen.
  eexists. split; [apply (evaluate_returns expr tokens Ht Hm)|]. cbn [result].
  pose proof (postfix_without_paren tokens Hno) as F.
  rewrite Hp in *. rewrite stringsOf_app in F. apply Forall_app in F.
  destruct F as [_ F]. change (Str t :: post) with ([Str t] ++ post)%list in F.
  rewrite stringsOf_app in F. apply Forall_app in F. destruct F as [Ft Fp].
  simpl in Ft. inversion Ft as [|? ? Hop _]; subst.
  unfold evalPostfix. rewrite fold_left_app. cbn [fold_left].
  apply evalPostfix_keeps_nan; [|exact Fp].
  unfold evalPostfix in Hlen.
  destruct (fold_left evalItem pre (mkEval [] [])) as [c tr].
  cbn [calc] in Hlen.
  destruct c as [|x [|y c]]; simpl in Hlen; try lia; simpl;
    rewrite (applyOp_undefined_left t _ Hop); reflexivity.
Qed.

Lemma underflow_gives_nan_witness :
  exists o, evaluate "2*+3-1" = Return o /\ result o = Some NaN.
Proof.
  apply (underflow_gives_nan "2*+3-1" ["2"; "*"; "+"; "3"; "-"; "1"]
           [Num (ofZ 2)] [Num (ofZ 3); Str "+"; Num (ofZ 1); Str "-"] "*").
  - reflexivity.
  - reflexivity.
  - intros H. repeat (destruct H as [H | H]; [discriminate H|]). exact H.
  - vm_compute. reflexivity.
  - simpl. lia.
Defined.

(** ** Literals and operators in an expression *)

Lemma append_assoc (s1 s2 s3 : string) : (s1 ++ s2) ++ s3 = s1 ++ (s2 ++ s3).
Proof. induction s1 as [|c s1 IH]; simpl; [reflexivity | now rewrite IH]. Qed.

Lemma isLiteral_shape (t : string) :
  isLiteral t = true ->
  (t <> "" /\ allChars isDigit t = true)
  \/ exists int frac,
      t = int ++ "." ++ frac
      /\ int <> "" /\ allChars isDigit int = true
      /\ frac <> "" /\ allChars isDigit frac = true.
Proof.
  unfold isLiteral. intros H.
  pose proof (spanDigits_split t) as S. pose proof (spanDigits_digits t) as D.
  destruct (spanDigits t) as [int r1]. simpl fst in *. simpl snd in *.
  destruct int as [|ci int]; [discriminate H|].
  destruct r1 as [|c1 r2].
  { left. rewrite append_empty_r in S. subst t. split; [discriminate | exact D]. }
  right. destruct (Ascii.eqb c1 "."%char) eqn:E.
  2:{ destruct c1 as [[] [] [] [] [] [] [] []]; try discriminate E; discriminate H. }
  apply Ascii.eqb_eq in E. subst c1.
  pose proof (spanDigits_split r2) as S2. pose proof (spanDigits_digits r2) as D2.
  destruct (spanDigits r2) as [frac r3]. simpl fst in *. simpl snd in *.
  destruct frac as [|cf frac]; [discriminate H|].
  destruct r3; [|discriminate H].
  rewrite append_empty_r in S2. subst r2.
  exists (String ci int), (String cf frac).
  repeat split; try assumption; discriminate.
Qed.

(** A literal followed by something that cannot continue it is one token. *)
Lemma tokensOf_literal (t r : string) :
  isLiteral t = true -> startsWithDigit r = false -> noFraction r = true ->
  tokensOf (t ++ r) = t :: tokensOf r.
Proof.
  intros Ht Hr Hf.
  destruct (isLiteral_shape t Ht) as [[Hne Hd] | (int & frac & -> & Hi & Di & Hfr & Dfr)].
  { apply tokensOf_int; assumption. }
  destruct int as [|ci int]; [contradiction|].
  rewrite !append_assoc.
  change (String ci int ++ "." ++ frac ++ r)
    with (String ci (int ++ "." ++ frac ++ r)).
  rewrite tokensOf_step.
  assert (Hc : isDigit ci = true) by (simpl in Di; now apply andb_prop in Di).
  rewrite Hc.
  change (String ci (int ++ "." ++ frac ++ r))
    with (String ci int ++ String "."%char (frac ++ r)).
  rewrite (spanDigits_app (String ci int) (String "."%char (frac ++ r)) Di
             eq_refl).
  rewrite (spanDigits_app frac r Dfr Hr).
  destruct frac; [contradiction | reflexivity].
Qed.

Lemma tokensOf_literal_end (t : string) : isLiteral t = true -> tokensOf t = [t].
Proof.
  intros Ht. rewrite <- (append_empty_r t) at 1.
  now rewrite (tokensOf_literal t "" Ht eq_refl eq_refl).
Qed.

Lemma operator_start (o r : string) :
  inOps o = true ->
  startsWithDigit (o ++ r) = false /\ noFraction (o ++ r) = true
  /\ tokensOf (o ++ r) = o :: tokensOf r.
Proof.
  intros H. destruct (inOps_cases o H) as [-> | [-> | [-> | ->]]];
    repeat split; apply tokensOf_punct; reflexivity.
Qed.

Lemma isLiteral_allowed (t : string) :
  isLiteral t = true -> t <> "" /\ allChars isAllowed t = true.
Proof.
  intros Ht.
  destruct (isLiteral_shape t Ht) as [[Hne Hd] | (int & frac & -> & Hi & Di & Hfr & Dfr)].
  - split; [exact Hne|]. apply (allChars_impl isDigit); [exact isDigit_isAllowed | exact Hd].
  - split; [destruct int; [contradiction | discriminate]|].
    rewrite !allChars_app.
    rewrite (allChars_impl isDigit isAllowed int isDigit_isAllowed Di).
    rewrite (allChars_impl isDigit isAllowed frac isDigit_isAllowed Dfr).
    reflexivity.
Qed.

Lemma inOps_allowed (o : string) :
  inOps o = true -> o <> "" /\ allChars isAllowed o = true.
Proof.
  intros H. destruct (inOps_cases o H) as [-> | [-> | [-> | ->]]];
    split; (discriminate || reflexivity).
Qed.

Lemma test_intro (s : string) :
  s <> "" -> allChars isAllowed s = true -> test s = true.
Proof. intros Hne H. unfold test. destruct s; [contradiction | exact H]. Qed.

Lemma append_nonempty_l (s1 s2 : string) : s1 <> "" -> s1 ++ s2 <> "".
Proof. destruct s1; [contradiction | discriminate]. Qed.

Lemma scanToken_lit (st : scan) (t : string) :
  isLiteral t = true ->
  scanToken st t = mkScan (stack st) (output st ++ [Num (Number t)]).
Proof.
  intros H. unfold scanToken. rewrite (Number_literal t H). reflexivity.
Qed.

(** X9: there is no unary operator.  An operator written before a single
    literal, or after it, is applied with [undefined] as its left operand:
    the value is [NaN] and the trace is the one step that shows it; so
    ["-5"] is not minus five. *)
Theorem lone_operator (o d : string) :
  inOps o = true -> isLiteral d = true ->
  evaluate (o ++ d)
  = Return (mkOutcome (Some NaN)
              [renderStep (mkStep None o (Some (Number d)) NaN)])
  /\ evaluate (d ++ o) = evaluate (o ++ d).
Proof.
  intros Ho Hd.
  destruct (isLiteral_allowed d Hd) as [Nd Ad].
  destruct (inOps_allowed o Ho) as [No Ao].
  assert (P : toPostfix [o; d] = [Num (Number d); Str o]).
  { unfold toPostfix, scanTokens. cbn [fold_left].
    rewrite (scanToken_lit _ d Hd).
    destruct (inOps_cases o Ho) as [-> | [-> | [-> | ->]]]; reflexivity. }
  assert (Q : toPostfix [d; o] = [Num (Number d); Str o]).
  { unfold toPostfix, scanTokens. cbn [fold_left].
    rewrite (scanToken_lit _ d Hd).
    destruct (inOps_cases o Ho) as [-> | [-> | [-> | ->]]]; reflexivity. }
  assert (V : evalPostfix [Num (Number d); Str o]
              = mkEval [NaN] [mkStep None o (Some (Number d)) NaN]).
  { unfold evalPostfix. cbn [fold_left evalItem calc trace pop app].
    now rewrite (applyOp_undefined_left o _ Ho). }
  assert (E1 : evaluate (o ++ d)
               = Return (mkOutcome (Some NaN)
                           [renderStep (mkStep None o (Some (Number d)) NaN)])).
  { assert (T : regexMatch (o ++ d) = Some [o; d]).
    { unfold regexMatch.
      rewrite (proj2 (proj2 (operator_start o d Ho))), (tokensOf_literal_end d Hd).
      reflexivity. }
    rewrite (evaluate_returns _ _ (test_intro _ (append_nonempty_l o d No)
               ltac:(rewrite allChars_app, Ao, Ad; reflexivity)) T).
    unfold resolved. rewrite T, P, V. reflexivity. }
  split; [exact E1|]. rewrite E1.
  assert (T : regexMatch (d ++ o) = Some [d; o]).
  { unfold regexMatch.
    destruct (operator_start o "" Ho) as (S1 & S2 & S3).
    rewrite append_empty_r in S1, S2, S3.
    rewrite (tokensOf_literal d o Hd S1 S2), S3. reflexivity. }
  rewrite (evaluate_returns _ _ (test_intro _ (append_nonempty_l d o Nd)
             ltac:(rewrite allChars_app, Ao, Ad; reflexivity)) T).
  unfold resolved. rewrite T, Q, V. reflexivity.
Qed.

Lemma lone_operator_witness :
  evaluate ("-" ++ "5")
  = Return (mkOutcome (Some NaN)
              [renderStep (mkStep None "-" (Some (Number "5")) NaN)])
  /\ evaluate ("5" ++ "-") = evaluate ("-" ++ "5").
Proof. apply (lone_operator "-" "5"); reflexivity. Defined.

(** ** Precedence, associativity and parentheses *)

Lemma tokens_of_three (a b c o1 o2 : string) :
  isLiteral a = true -> isLiteral b = true -> isLiteral c = true ->
  inOps o1 = true -> inOps o2 = true ->
  test (a ++ o1 ++ b ++ o2 ++ c) = true
  /\ regexMatch (a ++ o1 ++ b ++ o2 ++ c) = Some [a; o1; b; o2; c].
Proof.
  intros Ha Hb Hc H1 H2.
  destruct (isLiteral_allowed a Ha) as [Na Aa].
  destruct (isLiteral_allowed b Hb) as [_ Ab].
  destruct (isLiteral_allowed c Hc) as [_ Ac].
  destruct (inOps_allowed o1 H1) as [_ A1].
  destruct (inOps_allowed o2 H2) as [_ A2].
  split.
  - apply test_intro; [now apply append_nonempty_l|].
    rewrite !allChars_app, Aa, Ab, Ac, A1, A2. reflexivity.
  - unfold regexMatch.
    destruct (operator_start o1 (b ++ o2 ++ c) H1) as (S1 & F1 & T1).
    destruct (operator_start o2 c H2) as (S2 & F2 & T2).
    rewrite (tokensOf_literal a _ Ha S1 F1), T1.
    rewrite (tokensOf_literal b _ Hb S2 F2), T2.
    rewrite (tokensOf_literal_end c Hc). reflexivity.
Qed.

Lemma toPostfix_of_three (a b c o1 o2 : string) :
  isLiteral a = true -> isLiteral b = true -> isLiteral c = true ->
  inOps o1 = true -> inOps o2 = true ->
  toPostfix [a; o1; b; o2; c]
  = if geLookup (ops o1) (ops o2)
    then [Num (Number a); Num (Number b); Str o1; Num (Number c); Str o2]
    else [Num (Number a); Num (Number b); Num (Number c); Str o2; Str o1].
Proof.
  intros Ha Hb Hc H1 H2. unfold toPostfix, scanTokens. cbn [fold_left].
  rewrite (scanToken_lit _ c Hc), (scanToken_lit _ b Hb), (scanToken_lit _ a Ha).
  destruct (inOps_cases o1 H1) as [-> | [-> | [-> | ->]]];
    destruct (inOps_cases o2 H2) as [-> | [-> | [-> | ->]]]; reflexivity.
Qed.

(** X10: precedence and associativity of two operators, for all literals
    [a], [b], [c] and all operators: in [a o1 b o2 c] the left operation is
    resolved first when [o1] binds at least as tightly as [o2] (equal
    precedence associates to the left), the right one otherwise; the trace
    lists the two operations in the order they are resolved. *)
Theorem two_operators (a b c o1 o2 : string) :
  isLiteral a = true -> isLiteral b = true -> isLiteral c = true ->
  inOps o1 = true -> inOps o2 = true ->
  evaluate (a ++ o1 ++ b ++ o2 ++ c)
  = Return
      (if geLookup (ops o1) (ops o2)
       then
         let r := binop o1 (Number a) (Number b) in
         mkOutcome (Some (binop o2 r (Number c)))
           (map renderStep
              [mkStep (Some (Number a)) o1 (Some (Number b)) r;
               mkStep (Some r) o2 (Some (Number c)) (binop o2 r (Number c))])
       else
         let r := binop o2 (Number b) (Number c) in
         mkOutcome (Some (binop o1 (Number a) r))
           (map renderStep
              [mkStep (Some (Number b)) o2 (Some (Number c)) r;
               mkStep (Some (Number a)) o1 (Some r) (binop o1 (Number a) r)])).
Proof.
  intros Ha Hb Hc H1 H2.
  destruct (tokens_of_three a b c o1 o2 Ha Hb Hc H1 H2) as [T M].
  rewrite (evaluate_returns _ _ T M). unfold resolved.
  rewrite M, (toPostfix_of_three a b c o1 o2 Ha Hb Hc H1 H2).
  destruct (geLookup (ops o1) (ops o2)); reflexivity.
Qed.

Lemma two_operators_witness :
  evaluate ("8" ++ "-" ++ "2.5" ++ "/" ++ "4")
  = Return
      (if geLookup (ops "-") (ops "/")
       then
         let r := binop "-" (Number "8") (Number "2.5") in
         mkOutcome (Some (binop "/" r (Number "4")))
           (map renderStep
              [mkStep (Some (Number "8")) "-" (Some (Number "2.5")) r;
               mkStep (Some r) "/" (Some (Number "4")) (binop "/" r (Number "4"))])
       else
         let r := binop "/" (Number "2.5") (Number "4") in
         mkOutcome (Some (binop "-" (Number "8") r))
           (map renderStep
              [mkStep (Some (Number "2.5")) "/" (Some (Number "4")) r;
               mkStep (Some (Number "8")) "-" (Some r)
                      (binop "-" (Number "8") r)])).
Proof. apply (two_operators "8" "2.5" "4" "-" "/"); reflexivity. Defined.

Lemma tokens_with_group (a b c o1 o2 : string) :
  isLiteral a = true -> isLiteral b = true -> isLiteral c = true ->
  inOps o1 = true -> inOps o2 = true ->
  (test ("(" ++ a ++ o1 ++ b ++ ")" ++ o2 ++ c) = true
   /\ regexMatch ("(" ++ a ++ o1 ++ b ++ ")" ++ o2 ++ c)
      = Some ["("; a; o1; b; ")"; o2; c])
  /\ (test (a ++ o1 ++ "(" ++ b ++ o2 ++ c ++ ")") = true
      /\ regexMatch (a ++ o1 ++ "(" ++ b ++ o2 ++ c ++ ")")
         = Some [a; o1; "("; b; o2; c; ")"]).
Proof.
  intros Ha Hb Hc H1 H2.
  destruct (isLiteral_allowed a Ha) as [Na Aa].
  destruct (isLiteral_allowed b Hb) as [_ Ab].
  destruct (isLiteral_allowed c Hc) as [_ Ac].
  destruct (inOps_allowed o1 H1) as [_ A1].
  destruct (inOps_allowed o2 H2) as [_ A2].
  split; split.
  - apply test_intro; [discriminate|].
    rewrite !allChars_app, Aa, Ab, Ac, A1, A2. reflexivity.
  - unfold regexMatch.
    destruct (operator_start o1 (b ++ ")" ++ o2 ++ c) H1) as (S1 & F1 & T1).
    destruct (operator_start o2 c H2) as (_ & _ & T2).
    change ("(" ++ a ++ o1 ++ b ++ ")" ++ o2 ++ c)
      with (String "("%char (a ++ o1 ++ b ++ ")" ++ o2 ++ c)).
    rewrite tokensOf_punct by reflexivity.
    rewrite (tokensOf_literal a _ Ha S1 F1), T1.
    rewrite (tokensOf_literal b (")" ++ o2 ++ c) Hb eq_refl eq_refl).
    change (")" ++ o2 ++ c) with (String ")"%char (o2 ++ c)).
    rewrite tokensOf_punct by reflexivity.
    rewrite T2, (tokensOf_literal_end c Hc). reflexivity.
  - apply test_intro; [now apply append_nonempty_l|].
    rewrite !allChars_app, Aa, Ab, Ac, A1, A2. reflexivity.
  - unfold regexMatch.
    destruct (operator_start o1 ("(" ++ b ++ o2 ++ c ++ ")") H1) as (S1 & F1 & T1).
    destruct (operator_start o2 (c ++ ")") H2) as (S2 & F2 & T2).
    rewrite (tokensOf_literal a _ Ha S1 F1), T1.
    change ("(" ++ b ++ o2 ++ c ++ ")")
      with (String "("%char (b ++ o2 ++ c ++ ")")).
    rewrite tokensOf_punct by reflexivity.
    rewrite (tokensOf_literal b _ Hb S2 F2), T2.
    rewrite (tokensOf_literal c ")" Hc eq_refl eq_refl). reflexivity.
Qed.

Lemma toPostfix_with_group (a b c o1 o2 : string) :
  isLiteral a = true -> isLiteral b = true -> isLiteral c = true ->
  inOps o1 = true -> inOps o2 = true ->
  toPostfix ["("; a; o1; b; ")"; o2; c]
  = [Num (Number a); Num (Number b); Str o1; Num (Number c); Str o2]
  /\ toPostfix [a; o1; "("; b; o2; c; ")"]
     = [Num (Number a); Num (Number b); Num (Number c); Str o2; Str o1].
Proof.
  intros Ha Hb Hc H1 H2. unfold toPostfix, scanTokens. cbn [fold_left].
  rewrite !(scanToken_lit _ c Hc), !(scanToken_lit _ b Hb), !(scanToken_lit _ a Ha).
  destruct (inOps_cases o1 H1) as [-> | [-> | [-> | ->]]];
    destruct (inOps_cases o2 H2) as [-> | [-> | [-> | ->]]];
    split; reflexivity.
Qed.

(** X11: parentheses come first, whatever the precedence of the operators,
    for all literals and operators: [(a o1 b) o2 c] resolves [a o1 b] and
    then applies [o2]; [a o1 (b o2 c)] resolves [b o2 c] and then applies
    [o1]. *)
Theorem parenthesised_group (a b c o1 o2 : string) :
  isLiteral a = true -> isLiteral b = true -> isLiteral c = true ->
  inOps o1 = true -> inOps o2 = true ->
  (let r := binop o1 (Number a) (Number b) in
   evaluate ("(" ++ a ++ o1 ++ b ++ ")" ++ o2 ++ c)
   = Return
       (mkOutcome (Some (binop o2 r (Number c)))
          (map renderStep
             [mkStep (Some (Number a)) o1 (Some (Number b)) r;
              mkStep (Some r) o2 (Some (Number c)) (binop o2 r (Number c))])))
  /\ (let r := binop o2 (Number b) (Number c) in
      evaluate (a ++ o1 ++ "(" ++ b ++ o2 ++ c ++ ")")
      = Return
          (mkOutcome (Some (binop o1 (Number a) r))
             (map renderStep
                [mkStep (Some (Number b)) o2 (Some (Number c)) r;
                 mkStep (Some (Number a)) o1 (Some r)
                        (binop o1 (Number a) r)]))).
Proof.
  intros Ha Hb Hc H1 H2.
  destruct (tokens_with_group a b c o1 o2 Ha Hb Hc H1 H2) as [[T1 M1] [T2 M2]].
  destruct (toPostfix_with_group a b c o1 o2 Ha Hb Hc H1 H2) as [P1 P2].
  split; cbv zeta.
  - rewrite (evaluate_returns _ _ T1 M1). unfold resolved.
    rewrite M1, P1. reflexivity.
  - rewrite (evaluate_returns _ _ T2 M2). unfold resolved.
    rewrite M2, P2. reflexivity.
Qed.

Lemma parenthesised_group_witness :
  (let r := binop "+" (Number "2") (Number "3") in
   evaluate ("(" ++ "2" ++ "+" ++ "3" ++ ")" ++ "*" ++ "4")
   = Return
       (mkOutcome (Some (binop "*" r (Number "4")))
          (map renderStep
             [mkStep (Some (Number "2")) "+" (Some (Number "3")) r;
              mkStep (Some r) "*" (Some (Number "4")) (binop "*" r (Number "4"))])))
  /\ (let r := binop "*" (Number "3") (Number "4") in
      evaluate ("2" ++ "+" ++ "(" ++ "3" ++ "*" ++ "4" ++ ")")
      = Return
          (mkOutcome (Some (binop "+" (Number "2") r))
             (map renderStep
                [mkStep (Some (Number "3")) "*" (Some (Number "4")) r;
                 mkStep (Some (Number "2")) "+" (Some r)
                        (binop "+" (Number "2") r)]))).
Proof. apply (parenthesised_group "2" "3" "4" "+" "*"); reflexivity. Defined.

Lemma ops_inOps (o : string) (p : Z) : ops o = Some p -> inOps o = true.
Proof. unfold inOps. now intros ->. Qed.

Lemma allowed_chainTail (p : Z) (l : list (string * string)) :
  Forall (chainLink p) l -> allChars isAllowed (chainTail l) = true.
Proof.
  induction 1 as [|[o d] l [Ho Hd] _ IH]; simpl; [reflexivity|].
  simpl in Ho, Hd. rewrite !allChars_app, IH.
  rewrite (proj2 (inOps_allowed o (ops_inOps o p Ho))).
  rewrite (proj2 (isLiteral_allowed d Hd)). reflexivity.
Qed.

Lemma tokensOf_chain (p : Z) (l : list (string * string)) :
  Forall (chainLink p) l ->
  forall d, isLiteral d = true ->
            tokensOf (chainExpr d l) = d :: chainTokens l.
Proof.
  induction 1 as [|[o d'] l [Ho Hd'] _ IH]; intros d Hd; unfold chainExpr.
  - simpl chainTail. rewrite append_empty_r. now apply tokensOf_literal_end.
  - simpl in Ho, Hd'. cbn [chainTail].
    destruct (operator_start o (d' ++ chainTail l) (ops_inOps o p Ho))
      as (S & F & T).
    rewrite (tokensOf_literal d _ Hd S F), T.
    fold (chainExpr d' l). rewrite (IH d' Hd'). reflexivity.
Qed.

Lemma scanToken_same_precedence (p : Z) (o : string) (stk : list string)
      (out : list any) :
  ops o = Some p ->
  stk = [] \/ (exists o', stk = [o'] /\ ops o' = Some p) ->
  scanToken (mkScan stk out) o = mkScan [o] (out ++ map Str stk).
Proof.
  intros Ho Hstk. unfold scanToken.
  rewrite (inOps_not_number o (ops_inOps o p Ho)), (ops_inOps o p Ho).
  cbn [negb stack output].
  destruct Hstk as [-> | (o' & -> & Ho')]; cbn [popWhileGe map].
  - now rewrite app_nil_r.
  - rewrite Ho', Ho. cbn [geLookup]. rewrite Z.leb_refl. reflexivity.
Qed.

Lemma scan_chain (p : Z) (l : list (string * string)) :
  Forall (chainLink p) l ->
  forall (stk : list string) (out : list any),
    stk = [] \/ (exists o', stk = [o'] /\ ops o' = Some p) ->
    (let st := fold_left scanToken (chainTokens l) (mkScan stk out) in
     flush (stack st) (output st))
    = (out ++ map Str stk
           ++ flat_map (fun od => [Num (Number (snd od)); Str (fst od)]) l)%list.
Proof.
  induction 1 as [|[o d] l [Ho Hd] _ IH]; intros stk out Hstk.
  - cbn. rewrite flush_spec, app_nil_r. reflexivity.
  - simpl in Ho, Hd. cbn [chainTokens flat_map app fold_left fst snd].
    rewrite (scanToken_same_precedence p o stk out Ho Hstk).
    rewrite (scanToken_lit _ d Hd). cbn [stack output].
    fold (chainTokens l).
    rewrite (IH [o] _ (or_intror (ex_intro _ o (conj eq_refl Ho)))).
    cbn [map app]. rewrite <- !app_assoc. reflexivity.
Qed.

Lemma eval_chain (l : list (string * string)) :
  forall (acc : number) (tr : list Step),
  exists tr',
    fold_left evalItem
      (flat_map (fun od => [Num (Number (snd od)); Str (fst od)]) l)
      (mkEval [acc] tr)
    = mkEval [fold_left (fun x od => binop (fst od) x (Number (snd od))) l acc]
             tr'
    /\ List.length tr' = (List.length tr + List.length l)%nat.
Proof.
  induction l as [|[o d] l IH]; intros acc tr.
  - exists tr. split; [reflexivity | simpl; lia].
  - cbn [flat_map app fold_left fst snd].
    change (evalItem (evalItem (mkEval [acc] tr) (Num (Number d))) (Str o))
      with (mkEval [binop o acc (Number d)]
                   (tr ++ [mkStep (Some acc) o (Some (Number d))
                                  (binop o acc (Number d))])).
    destruct (IH (binop o acc (Number d))
                 (tr ++ [mkStep (Some acc) o (Some (Number d))
                                (binop o acc (Number d))])%list) as (tr' & E & L).
    exists tr'. split; [exact E|]. rewrite L, length_app. simpl. lia.
Qed.

(** X12: operators of the same precedence associate to the left, in chains
    of any length: [d o1 d1 o2 d2 ... on dn], with all the operators among
    [+ -] or all among [* /], is evaluated from left to right, with one
    step for each operator. *)
Theorem chain_left_to_right (p : Z) (d : string) (l : list (string * string)) :
  isLiteral d = true -> Forall (chainLink p) l ->
  exists stps,
    evaluate (chainExpr d l) = Return (mkOutcome (Some (leftFold d l)) stps)
    /\ List.length stps = List.length l.
Proof.
  intros Hd Hl.
  assert (Hm : regexMatch (chainExpr d l) = Some (d :: chainTokens l)).
  { unfold regexMatch. rewrite (tokensOf_chain p l Hl d Hd). reflexivity. }
  assert (Ht : test (chainExpr d l) = true).
  { destruct (isLiteral_allowed d Hd) as [Nd Ad].
    apply test_intro; [now apply append_nonempty_l|].
    unfold chainExpr. rewrite allChars_app, Ad, (allowed_chainTail p l Hl).
    reflexivity. }
  destruct (eval_chain l (Number d) []) as (tr & E & L).
  exists (map renderStep tr). split.
  - rewrite (evaluate_returns _ _ Ht Hm). unfold resolved. rewrite Hm.
    assert (P : toPostfix (d :: chainTokens l)
                = Num (Number d)
                  :: flat_map (fun od => [Num (Number (snd od)); Str (fst od)]) l).
    { unfold toPostfix, scanTokens. cbn [fold_left].
      rewrite (scanToken_lit _ d Hd). cbn [stack output app].
      apply (scan_chain p l Hl [] [Num (Number d)]). left. reflexivity. }
    rewrite P. unfold evalPostfix. cbn [fold_left].
    change (evalItem (mkEval [] []) (Num (Number d)))
      with (mkEval [Number d] []).
    rewrite E. reflexivity.
  - rewrite length_map, L. reflexivity.
Qed.

Lemma chain_left_to_right_witness :
  exists stps,
    evaluate (chainExpr "10" [("-", "2.5"); ("+", "4"); ("-", "1")])
    = Return (mkOutcome
                (Some (leftFold "10" [("-", "2.5"); ("+", "4"); ("-", "1")]))
                stps)
    /\ List.length stps = List.length [("-", "2.5"); ("+", "4"); ("-", "1")].
Proof.
  apply (chain_left_to_right 1 "10" [("-", "2.5"); ("+", "4"); ("-", "1")]);
    [reflexivity|].
  repeat constructor.
Defined.

(** * The factorial beyond [2^53] *)

Lemma ofZ_two53 : ofZ (2 ^ 53) = S754_finite false (2 ^ 52) 1.
Proof. vm_compute. reflexivity. Qed.

Lemma counter_stalls : add (ofZ (2 ^ 53)) (ofZ 1) = ofZ (2 ^ 53).
Proof. vm_compute. reflexivity. Qed.

(** A number that is at least [2^53] is above every counter of the loop. *)
Lemma leb_below_two53 (n : number) (k : Z) :
  leb (ofZ (2 ^ 53)) n = true -> 1 <= k <= 2 ^ 53 ->
  leb (ofZ k) n = true /\ ltb n zero = false.
Proof.
  intros Hn Hk. rewrite ofZ_two53 in Hn.
  destruct (ofZ_rep k Hk) as (mk & ek & Ek & (Dk & Rk & Vk)).
  rewrite Ek.
  destruct n as [s | [|] | | [|] m e]; try discriminate Hn;
    [split; reflexivity|].
  split; [|reflexivity].
  unfold leb, SFleb, SFcompare in *.
  destruct (Z.compare_spec 1 e) as [E1 | E1 | E1]; try discriminate Hn.
  - subst e. destruct (Z.compare_spec ek 1) as [E2 | E2 | E2];
      [|reflexivity | lia].
    subst ek.
    assert (mk = (2 ^ 52)%positive).
    { pose proof (digits2_bounds mk) as [L U]. rewrite Dk in L, U.
      change (2 ^ (1 + 52)) with (2 * 2 ^ 52) in Vk.
      change (2 ^ (53 - 1)) with (Zpos (2 ^ 52)) in L.
      change (2 ^ 53) with (2 * Zpos (2 ^ 52)) in Hk.
      change (2 ^ 52) with (Zpos (2 ^ 52)) in Vk. lia. }
    subst mk. exact Hn.
  - destruct (Z.compare_spec ek e) as [E2 | E2 | E2]; [lia | reflexivity | lia].
Qed.

Lemma factorialLoop_never_returns (n : number) :
  leb (ofZ (2 ^ 53)) n = true ->
  forall (fuel : nat) (k : Z) (r : number),
    2 <= k <= 2 ^ 53 -> factorialLoop fuel n (ofZ k) r = None.
Proof.
  intros Hn. induction fuel as [|fuel IH]; intros k r Hk; [reflexivity|].
  cbn [factorialLoop].
  rewrite (proj1 (leb_below_two53 n k Hn ltac:(lia))).
  destruct (Z.eq_dec k (2 ^ 53)) as [-> | Nk].
  - rewrite counter_stalls. apply IH. lia.
  - rewrite ofZ_add by lia. apply IH. lia.
Qed.

Lemma factorial_diverges (n : number) :
  leb (ofZ (2 ^ 53)) n = true ->
  forall fuel : nat, factorial fuel n = None.
Proof.
  intros Hn fuel. unfold factorial.
  rewrite (proj2 (leb_below_two53 n 1 Hn ltac:(lia))).
  apply factorialLoop_never_returns; [exact Hn | lia].
Qed.

(** X13: for an argument of [2^53] or more, [Infinity] included, the loop
    of the factorial never ends: its counter stops growing at [2^53], where
    adding one changes nothing, and stays below the bound.  No number of
    rounds gives a result. *)
Theorem factorial_never_returns (n : number) :
  leb (ofZ (2 ^ 53)) n = true ->
  forall fuel : nat, factorial fuel n = None.
Proof. exact (factorial_diverges n). Qed.

Lemma factorial_never_returns_witness : factorial 1000 Infinity = None.
Proof. apply (factorial_never_returns Infinity). reflexivity. Defined.

(** ** Where tokens break *)

(** A character that is neither a digit nor a point ends the token before
    it. *)
Lemma tokensOf_break (c : ascii) (s1 s2 : string) :
  isDigit c = false -> c <> "."%char ->
  tokensOf (s1 ++ String c s2) = (tokensOf s1 ++ tokensOf (String c s2))%list.
Proof.
  intros Hd Hp.
  induction s1 as [s1 IH] using string_length_ind.
  destruct s1 as [|a s1]; [reflexivity|].
  change (String a s1 ++ String c s2) with (String a (s1 ++ String c s2)).
  rewrite (tokensOf_step a (s1 ++ String c s2)), (tokensOf_step a s1).
  destruct (isDigit a) eqn:Ha.
  - change (String a (s1 ++ String c s2)) with (String a s1 ++ String c s2).
    rewrite (spanDigits_sep c _ s2 Hd).
    destruct (spanDigits (String a s1)) as [int r1] eqn:Hs.
    destruct (spanDigits_first a s1 int r1 Ha Hs) as (_ & _ & L1 & _).
    simpl fst. simpl snd.
    destruct r1 as [|c1 r2].
    + simpl append.
      assert (N : c <> "."%char) by exact Hp.
      destruct c as [[] [] [] [] [] [] [] []]; try reflexivity.
      contradiction N. reflexivity.
    + change (String c1 r2 ++ String c s2) with (String c1 (r2 ++ String c s2)).
      destruct (Ascii.eqb c1 "."%char) eqn:E.
      * apply Ascii.eqb_eq in E. subst c1.
        rewrite (spanDigits_sep c r2 s2 Hd).
        destruct (spanDigits r2) as [frac r3] eqn:Hs2.
        pose proof (spanDigits_rest_le _ _ _ Hs2) as L2.
        simpl fst. simpl snd. simpl in L1.
        destruct frac.
        -- change (String "." (r2 ++ String c s2))
             with (String "."%char r2 ++ String c s2).
           rewrite IH by (simpl; lia). reflexivity.
        -- rewrite IH by (simpl; lia). reflexivity.
      * assert (G : tokensOf (String c1 (r2 ++ String c s2))
                    = (tokensOf (String c1 r2) ++ tokensOf (String c s2))%list).
        { change (String c1 (r2 ++ String c s2))
            with (String c1 r2 ++ String c s2).
          apply IH. simpl in *. lia. }
        destruct c1 as [[] [] [] [] [] [] [] []]; try discriminate E;
          rewrite G; reflexivity.
  - destruct (isPunct a); rewrite IH by (simpl; lia); reflexivity.
Qed.

Lemma punct_breaks (c : ascii) :
  isPunct c = true -> isDigit c = false /\ c <> "."%char.
Proof.
  intros H. destruct c as [[] [] [] [] [] [] [] []]; try discriminate H;
    split; (reflexivity || discriminate).
Qed.

(** X19: a space written just before or just after an operator or a
    parenthesis changes nothing: the tokens are the same, and so is the
    whole outcome of the evaluation, value, steps or failure. *)
Theorem space_around_punctuation (c : ascii) (s1 s2 : string) :
  isPunct c = true ->
  evaluate (s1 ++ " " ++ String c s2) = evaluate (s1 ++ String c s2)
  /\ evaluate (s1 ++ String c (" " ++ s2)) = evaluate (s1 ++ String c s2).
Proof.
  intros Hp. destruct (punct_breaks c Hp) as [Hd Hn].
  assert (Hpa : isAllowed c = true).
  { unfold isAllowed. rewrite Hp, orb_true_r. reflexivity. }
  assert (T0 : tokensOf (s1 ++ String c s2)
               = (tokensOf s1 ++ String c EmptyString :: tokensOf s2)%list).
  { now rewrite (tokensOf_break c s1 s2 Hd Hn), tokensOf_punct. }
  assert (T1 : tokensOf (s1 ++ " " ++ String c s2) = tokensOf (s1 ++ String c s2)).
  { change (" " ++ String c s2) with (String " "%char (String c s2)).
    rewrite (tokensOf_break " "%char s1 _ eq_refl ltac:(discriminate)).
    rewrite (tokensOf_skip " "%char) by reflexivity.
    now rewrite <- (tokensOf_break c s1 s2 Hd Hn). }
  assert (T2 : tokensOf (s1 ++ String c (" " ++ s2)) = tokensOf (s1 ++ String c s2)).
  { rewrite (tokensOf_break c s1 _ Hd Hn), tokensOf_punct by exact Hp.
    change (" " ++ s2) with (String " "%char s2).
    rewrite (tokensOf_skip " "%char) by reflexivity.
    now rewrite T0. }
  assert (A : forall x y, test (x ++ String c y) = allChars isAllowed (x ++ String c y)).
  { intros x y. unfold test. destruct x; reflexivity. }
  assert (A' : forall y, test (s1 ++ " " ++ y) = allChars isAllowed (s1 ++ " " ++ y)).
  { intros y. unfold test. destruct s1; reflexivity. }
  unfold evaluate, calculateExpressionWithSteps, regexMatch.
  rewrite T1, T2, A', !A. rewrite !allChars_app. cbn [allChars].
  change (isAllowed " "%char) with true. cbn [andb].
  rewrite !allChars_app. cbn [allChars]. change (isAllowed " "%char) with true.
  cbn [andb]. split; reflexivity.
Qed.

Lemma space_around_punctuation_witness :
  evaluate ("2" ++ " " ++ String "+"%char "3") = evaluate ("2" ++ String "+"%char "3")
  /\ evaluate ("2" ++ String "+"%char (" " ++ "3"))
     = evaluate ("2" ++ String "+"%char "3").
Proof. apply (space_around_punctuation "+"%char "2" "3"). reflexivity. Defined.

(** ** An unmatched closing parenthesis *)

Lemma popWhileGe_bottom (t : string) (stk : list string) :
  forall out,
    popWhileGe t (stk ++ ["("]) out
    = mkScan (stack (popWhileGe t stk out) ++ ["("])
             (output (popWhileGe t stk out)).
Proof.
  induction stk as [|top rest IH]; intros out; [reflexivity|].
  cbn [app popWhileGe].
  destruct (geLookup (ops top) (ops t)); [apply IH | reflexivity].
Qed.

Lemma scanToken_bottom (stk : list string) (out : list any) (t : string) :
  String.eqb t "(" = false -> String.eqb t ")" = false ->
  scanToken (mkScan (stk ++ ["("]) out) t
  = mkScan (stack (scanToken (mkScan stk out) t) ++ ["("])
           (output (scanToken (mkScan stk out) t)).
Proof.
  intros Hl Hr. unfold scanToken. cbn [stack output].
  destruct (negb (isNaN (Number t))); [reflexivity|].
  destruct (inOps t); [|rewrite Hl, Hr; reflexivity].
  rewrite popWhileGe_bottom. reflexivity.
Qed.

Lemma scan_bottom (ts : list string) :
  ~ In "(" ts -> ~ In ")" ts ->
  forall stk out,
    fold_left scanToken ts (mkScan (stk ++ ["("]) out)
    = mkScan (stack (fold_left scanToken ts (mkScan stk out)) ++ ["("])
             (output (fold_left scanToken ts (mkScan stk out))).
Proof.
  induction ts as [|t ts IH]; intros Hl Hr stk out; [reflexivity|].
  cbn [fold_left].
  assert (El : String.eqb t "(" = false)
    by (apply String.eqb_neq; intros ->; apply Hl; left; reflexivity).
  assert (Er : String.eqb t ")" = false)
    by (apply String.eqb_neq; intros ->; apply Hr; left; reflexivity).
  rewrite (scanToken_bottom stk out t El Er).
  destruct (scanToken (mkScan stk out) t) as [stk' out'].
  cbn [stack output]. apply IH; intros H; [apply Hl | apply Hr]; right; exact H.
Qed.

Lemma popUntilParen_all (stk : list string) :
  ~ In "(" stk ->
  forall out,
    popUntilParen stk out = mkScan [] (out ++ map Str stk)
    /\ popUntilParen (stk ++ ["("]) out = mkScan ["("] (out ++ map Str stk).
Proof.
  induction stk as [|top rest IH]; intros Hno out.
  - cbn. rewrite app_nil_r. split; reflexivity.
  - cbn [app popUntilParen map].
    assert (E : String.eqb top "(" = false)
      by (apply String.eqb_neq; intros ->; apply Hno; left; reflexivity).
    rewrite E.
    destruct (IH (fun H => Hno (or_intror H)) (out ++ [Str top])%list) as [I1 I2].
    rewrite I1, I2, <- app_assoc. split; reflexivity.
Qed.

Lemma toPostfix_closing (ts1 ts2 : list string) :
  ~ In "(" ts1 -> ~ In ")" ts1 ->
  toPostfix (ts1 ++ ")" :: ts2) = toPostfix ("(" :: ts1 ++ ")" :: ts2).
Proof.
  intros Hl Hr. unfold toPostfix, scanTokens.
  cbn [fold_left]. rewrite !fold_left_app. cbn [fold_left].
  change (scanToken (mkScan [] []) "(") with (mkScan ([] ++ ["("]) []).
  rewrite (scan_bottom ts1 Hl Hr [] []).
  assert (Hno : ~ In "(" (stack (fold_left scanToken ts1 (mkScan [] [])))).
  { destruct (scan_invariant ts1 (mkScan [] []) ltac:(constructor)
                ltac:(constructor)) as (_ & _ & _ & _ & I5).
    cbv zeta in I5. intros Hin. destruct (I5 _ Hin) as [[] | H]. contradiction. }
  destruct (fold_left scanToken ts1 (mkScan [] [])) as [stk1 out1].
  cbn [stack output] in *.
  destruct (popUntilParen_all stk1 Hno out1) as [P1 P2].
  assert (E1 : scanToken (mkScan stk1 out1) ")"
               = mkScan [] (out1 ++ map Str stk1)).
  { unfold scanToken. change (isNaN (Number ")")) with true.
    change (inOps ")") with false. change (String.eqb ")" "(") with false.
    change (String.eqb ")" ")") with true. cbn [negb stack output].
    rewrite P1. reflexivity. }
  assert (E2 : scanToken (mkScan (stk1 ++ ["("]) out1) ")"
               = mkScan [] (out1 ++ map Str stk1)).
  { unfold scanToken. change (isNaN (Number ")")) with true.
    change (inOps ")") with false. change (String.eqb ")" "(") with false.
    change (String.eqb ")" ")") with true. cbn [negb stack output].
    rewrite P2. reflexivity. }
  rewrite E1, E2. reflexivity.
Qed.

Lemma allChars_tail (p : ascii -> bool) (s1 s2 : string) :
  allChars p (s1 ++ s2) = true -> allChars p s2 = true.
Proof. rewrite allChars_app. intros H. now apply andb_prop in H. Qed.

(** The tokens of a string are literals or single characters of it. *)
Lemma tokens_chars (p : ascii -> bool) (s : string) :
  allChars p s = true ->
  Forall (fun t => isLiteral t = true
                   \/ exists c, t = String c EmptyString /\ p c = true)
         (tokensOf s).
Proof.
  match goal with |- _ -> Forall ?Q _ => set (P := Q) end.
  induction s as [s IH] using string_length_ind. intros Hk.
  destruct s as [|c s]; [constructor|].
  rewrite tokensOf_step.
  pose proof Hk as Hk'. cbn [allChars] in Hk'. apply andb_prop in Hk'.
  destruct Hk' as [Hc Hs].
  destruct (isDigit c) eqn:Hd.
  - pose proof (spanDigits_split (String c s)) as Sp.
    destruct (spanDigits (String c s)) as [int r1] eqn:Hsp.
    destruct (spanDigits_first c s int r1 Hd Hsp) as (Hne & Hdi & L1 & _).
    simpl fst in Sp. simpl snd in Sp.
    assert (K1 : allChars p r1 = true)
      by (apply (allChars_tail _ int); rewrite <- Sp; exact Hk).
    assert (Tint : P int) by (left; now apply isLiteral_int).
    assert (T1 : Forall P (tokensOf r1)) by (apply IH; [simpl; lia | exact K1]).
    destruct r1 as [|c1 r2]; [constructor; assumption|].
    destruct (Ascii.eqb c1 "."%char) eqn:E.
    + apply Ascii.eqb_eq in E. subst c1.
      pose proof (spanDigits_split r2) as Sp2.
      pose proof (spanDigits_digits r2) as D2.
      destruct (spanDigits r2) as [frac r3] eqn:Hs2.
      pose proof (spanDigits_rest_le _ _ _ Hs2) as L2.
      simpl fst in *. simpl snd in *.
      destruct frac as [|cf frac]; [constructor; assumption|].
      constructor.
      * left. apply isLiteral_frac; try assumption; discriminate.
      * apply IH; [simpl in *; lia|].
        apply (allChars_tail _ (String cf frac)). rewrite <- Sp2.
        cbn [allChars] in K1. apply andb_prop in K1. apply K1.
    + assert (G : Forall P (int :: tokensOf (String c1 r2)))
        by (constructor; assumption).
      destruct c1 as [[] [] [] [] [] [] [] []]; try discriminate E; exact G.
  - destruct (isPunct c) eqn:Hp; [|apply IH; [simpl; lia | exact Hs]].
    constructor; [|apply IH; [simpl; lia | exact Hs]].
    right. exists c. split; [reflexivity | exact Hc].
Qed.

Lemma tokens_without_parens (s : string) :
  allChars isNotParen s = true ->
  ~ In "(" (tokensOf s) /\ ~ In ")" (tokensOf s).
Proof.
  intros H. pose proof (tokens_chars isNotParen s H) as F.
  rewrite Forall_forall in F.
  split; intros Hin; destruct (F _ Hin) as [L | (c & E & Hc)];
    try discriminate L; inversion E; subst c; discriminate Hc.
Qed.

(** X20: an unmatched closing parenthesis closes a group opened at the
    start of the input.  When nothing before the [)] is a parenthesis, the
    evaluation of [s1 ) s2] is the one of [( s1 ) s2]: same value, same steps,
    same failure. *)
Theorem unmatched_closing_parenthesis (s1 s2 : string) :
  allChars isNotParen s1 = true ->
  evaluate (s1 ++ ")" ++ s2) = evaluate ("(" ++ s1 ++ ")" ++ s2).
Proof.
  intros Hs1. destruct (tokens_without_parens s1 Hs1) as [Hl Hr].
  assert (T1 : tokensOf (s1 ++ ")" ++ s2)
               = (tokensOf s1 ++ ")" :: tokensOf s2)%list).
  { change (")" ++ s2) with (String ")"%char s2).
    rewrite (tokensOf_break ")"%char s1 s2 eq_refl ltac:(discriminate)).
    now rewrite tokensOf_punct. }
  assert (T2 : tokensOf ("(" ++ s1 ++ ")" ++ s2)
               = "(" :: (tokensOf s1 ++ ")" :: tokensOf s2)%list).
  { change ("(" ++ s1 ++ ")" ++ s2) with (String "("%char (s1 ++ ")" ++ s2)).
    now rewrite tokensOf_punct, T1. }
  assert (A : test ("(" ++ s1 ++ ")" ++ s2) = test (s1 ++ ")" ++ s2)).
  { unfold test. destruct (s1 ++ ")" ++ s2) eqn:E; [|reflexivity].
    destruct s1; discriminate E. }
  unfold evaluate, calculateExpressionWithSteps, regexMatch.
  rewrite A, T1, T2.
  destruct (negb (test (s1 ++ ")" ++ s2))); [reflexivity|].
  pose proof (toPostfix_closing (tokensOf s1) (tokensOf s2) Hl Hr) as P.
  destruct (tokensOf s1 ++ ")" :: tokensOf s2)%list as [|t ts] eqn:E.
  { destruct (tokensOf s1); discriminate E. }
  rewrite <- P. reflexivity.
Qed.

Lemma unmatched_closing_parenthesis_witness :
  evaluate ("2+3" ++ ")" ++ "*4") = evaluate ("(" ++ "2+3" ++ ")" ++ "*4").
Proof. apply (unmatched_closing_parenthesis "2+3" "*4"). reflexivity. Defined.

(** * The screen *)

Module AppFacts.
Import App.

(** X14: typing.  A run of presses on keys other than [=] and [C] appends
    what the keys write to the input and changes nothing else, whatever
    the state. *)
Theorem typing_appends (lib : Builtins) (fuel : nat)
        (presses : list (bool * string)) (s : state) :
  Forall (fun p => isTypingKey (snd p) = true) presses ->
  run lib fuel (map (fun p => Press (fst p) (snd p)) presses) s
  = Some (mkState (db s) (input s ++ typed (map snd presses)) (result s)
                  (steps s) (history s) (isScientific s)).
Proof.
  intros H. revert s. induction H as [|[ok v] l Hv _ IH]; intros s.
  - cbn. rewrite append_empty_r. destruct s; reflexivity.
  - cbn [map run handle fst snd]. unfold handlePress.
    cbn [snd] in Hv. unfold isTypingKey in Hv.
    apply andb_prop in Hv. destruct Hv as [H1 H2].
    apply negb_true_iff in H1, H2. rewrite H1, H2. cbn [fst].
    rewrite IH. cbn [db input result steps history isScientific typed fold_right].
    rewrite append_assoc. reflexivity.
Qed.

Lemma typing_appends_witness :
  run (mkBuiltins (fun _ => NaN) (fun x => x) (fun x => x) (fun x => x)
                  (fun x => x) (fun x => x) (fun x => x) (fun x _ => x) NaN NaN)
      0 (map (fun p => Press (fst p) (snd p)) [(true, "1"); (false, "+"); (true, "2")])
      initial
  = Some (mkState false ("" ++ typed (map snd [(true, "1"); (false, "+"); (true, "2")]))
                  "" [] [] false).
Proof.
  apply (typing_appends _ 0 [(true, "1"); (false, "+"); (true, "2")] initial).
  repeat constructor.
Defined.

Lemma keypad_allowed (c : ascii) : isKeypadChar c = true -> isAllowed c = true.
Proof.
  unfold isKeypadChar, isAllowed. destruct (isDigit c); [reflexivity|].
  destruct c as [[] [] [] [] [] [] [] []]; simpl; (discriminate || reflexivity).
Qed.

Lemma keypad_key (v : string) :
  In v (keysOf basicButtons) -> isTypingKey v = true ->
  allChars isKeypadChar v = true.
Proof.
  intros Hin Hk. cbn in Hin.
  repeat (destruct Hin as [<- | Hin]; [first [reflexivity | discriminate Hk]|]).
  destruct Hin.
Qed.

Lemma handlePress_input (ok : bool) (v : string) (s : state) :
  In v (keysOf basicButtons) ->
  allChars isKeypadChar (input s) = true ->
  allChars isKeypadChar (input (fst (handlePress ok v s))) = true.
Proof.
  intros Hin Hs. unfold handlePress.
  destruct (String.eqb v "=") eqn:E1.
  { unfold calculateResult.
    destruct (calculateExpressionWithSteps (input s)) as [[[v'|] stps]|];
      [destruct (db s); [destruct ok|]| |]; exact Hs. }
  destruct (String.eqb v "C") eqn:E2; [reflexivity|].
  cbn [fst input]. rewrite allChars_app, Hs.
  apply (keypad_key v Hin). unfold isTypingKey. now rewrite E1, E2.
Qed.

Lemma handle_input (lib : Builtins) (fuel : nat) (e : Event) (s s' : state) :
  fromKeypad e -> handle lib fuel e s = Some s' ->
  allChars isKeypadChar (input s) = true ->
  allChars isKeypadChar (input s') = true.
Proof.
  intros He H Hs. destruct e as [ok v | ok func | ok | | | rows]; cbn in H.
  - inversion H; subst. apply handlePress_input; assumption.
  - unfold calculateScientific in H.
    destruct (scientificValue lib fuel func _) as [[r|]|]; cbn in H;
      [|discriminate H|inversion H; subst; exact Hs].
    destruct (db s); [destruct ok|]; inversion H; subst; exact Hs.
  - unfold clearHistory in H.
    destruct (db s); [destruct ok|]; inversion H; subst; exact Hs.
  - inversion H; subst. exact Hs.
  - inversion H; subst. exact Hs.
  - inversion H; subst. exact Hs.
Qed.

(** X15: whatever is done on the screen, the input holds only characters
    of the keypad: digits, points and the four operators.  It never holds
    a parenthesis or a space, and it passes the validation of the
    evaluator as soon as it is not empty.  (The events are those of the
    screen and of the opening of the database, in any order.) *)
Theorem input_stays_on_keypad (lib : Builtins) (fuel : nat)
        (events : list Event) (s' : state) :
  Forall fromKeypad events ->
  run lib fuel events initial = Some s' ->
  allChars isKeypadChar (input s') = true
  /\ (input s' <> "" -> test (input s') = true).
Proof.
  intros He Hr.
  assert (G : forall s, allChars isKeypadChar (input s) = true ->
                        run lib fuel events s = Some s' ->
                        allChars isKeypadChar (input s') = true).
  { clear Hr. induction He as [|e l He _ IH]; intros s Hs Hr.
    - cbn in Hr. inversion Hr; subst. exact Hs.
    - cbn [run] in Hr. destruct (handle lib fuel e s) as [s1|] eqn:E;
        [|discriminate Hr].
      apply (IH s1); [|exact Hr]. eapply handle_input; eauto. }
  pose proof (G initial eq_refl Hr) as K. split; [exact K|].
  intros Hne. apply test_intro; [exact Hne|].
  apply (allChars_impl isKeypadChar); [exact keypad_allowed | exact K].
Qed.

Lemma input_stays_on_keypad_witness :
  allChars isKeypadChar
    (input (mkState false "2+3*4" "14" ["3 * 4 = 12"; "2 + 12 = 14"]
                    [mkEntry "2+3*4" "14"] true)) = true
  /\ (input (mkState false "2+3*4" "14" ["3 * 4 = 12"; "2 + 12 = 14"]
                     [mkEntry "2+3*4" "14"] true) <> "" ->
      test (input (mkState false "2+3*4" "14" ["3 * 4 = 12"; "2 + 12 = 14"]
                           [mkEntry "2+3*4" "14"] true)) = true).
Proof.
  apply (input_stays_on_keypad
           (mkBuiltins (fun _ => NaN) (fun x => x) (fun x => x) (fun x => x)
                       (fun x => x) (fun x => x) (fun x => x) (fun x _ => x) NaN NaN)
           0
           [Press true "2"; Press true "+"; Press true "3"; Press true "*";
            Press true "4"; Press true "="; ToggleMode]
           (mkState false "2+3*4" "14" ["3 * 4 = 12"; "2 + 12 = 14"]
                    [mkEntry "2+3*4" "14"] true)).
  - repeat (apply Forall_cons;
            [first [exact I | cbn; repeat (first [left; reflexivity | right])]|]).
    apply Forall_nil.
  - vm_compute. reflexivity.
Defined.

Lemma allChars_suffix (p : ascii -> bool) (s1 s2 : string) :
  allChars p (s1 ++ s2) = true -> allChars p s2 = true.
Proof. rewrite allChars_app. intros H. now apply andb_prop in H. Qed.

Lemma keypad_punct (c : ascii) :
  isKeypadChar c = true -> isPunct c = true ->
  inOps (String c EmptyString) = true.
Proof.
  intros Hk Hp.
  destruct c as [[] [] [] [] [] [] [] []]; try discriminate Hp;
    try discriminate Hk; reflexivity.
Qed.

(** The tokens of an input typed on the keypad are numbers and operators. *)
Lemma tokens_from_keypad (s : string) :
  allChars isKeypadChar s = true ->
  Forall (fun t => isNaN (Number t) = false \/ inOps t = true) (tokensOf s).
Proof.
  match goal with |- _ -> Forall ?Q _ => set (P := Q) end.
  induction s as [s IH] using string_length_ind. intros Hk.
  destruct s as [|c s]; [constructor|].
  rewrite tokensOf_step.
  pose proof Hk as Hk'. cbn [allChars] in Hk'. apply andb_prop in Hk'.
  destruct Hk' as [Hc Hs].
  destruct (isDigit c) eqn:Hd.
  - pose proof (spanDigits_split (String c s)) as Sp.
    destruct (spanDigits (String c s)) as [int r1] eqn:Hsp.
    destruct (spanDigits_first c s int r1 Hd Hsp) as (Hne & Hdi & L1 & _).
    simpl fst in Sp. simpl snd in Sp.
    assert (K1 : allChars isKeypadChar r1 = true)
      by (apply (allChars_suffix _ int); rewrite <- Sp; exact Hk).
    assert (Tint : P int).
    { left. apply Number_literal. now apply isLiteral_int. }
    assert (T1 : Forall P (tokensOf r1)) by (apply IH; [simpl; lia | exact K1]).
    destruct r1 as [|c1 r2]; [constructor; assumption|].
    destruct (Ascii.eqb c1 "."%char) eqn:E.
    + apply Ascii.eqb_eq in E. subst c1.
      pose proof (spanDigits_split r2) as Sp2.
      pose proof (spanDigits_digits r2) as D2.
      destruct (spanDigits r2) as [frac r3] eqn:Hs2.
      pose proof (spanDigits_rest_le _ _ _ Hs2) as L2.
      simpl fst in *. simpl snd in *.
      destruct frac as [|cf frac]; [constructor; assumption|].
      constructor.
      * left. apply Number_literal.
        apply isLiteral_frac; try assumption; discriminate.
      * apply IH; [simpl in *; lia|].
        apply (allChars_suffix _ (String cf frac)). rewrite <- Sp2.
        cbn [allChars] in K1. apply andb_prop in K1. apply K1.
    + assert (G : Forall P (int :: tokensOf (String c1 r2)))
        by (constructor; assumption).
      destruct c1 as [[] [] [] [] [] [] [] []]; try discriminate E; exact G.
  - destruct (isPunct c) eqn:Hp; [|apply IH; [simpl; lia | exact Hs]].
    constructor; [|apply IH; [simpl; lia | exact Hs]].
    right. apply keypad_punct; assumption.
Qed.

(** X16: the key [=] on an input typed on the keypad (the database being
    closed, or its write succeeding).  The input is kept.  Without any
    token (an empty input, or points only) the screen shows "Error", no
    step, and the history is as before.  With a token the evaluation
    succeeds with a number: the screen shows this number and the steps of
    the evaluation, one for each operator typed, and the history gains the
    entry at its head. *)
Theorem equals_on_keypad_input (ok : bool) (s : state) :
  allChars isKeypadChar (input s) = true ->
  db s = false \/ ok = true ->
  let s' := fst (handlePress ok "=" s) in
  input s' = input s
  /\ match regexMatch (input s) with
     | None =>
         result s' = "Error" /\ steps s' = [] /\ history s' = history s
     | Some tokens =>
         exists v,
           calculateExpressionWithSteps (input s)
           = Return (mkOutcome (Some v) (steps s'))
           /\ result s' = Render.toString v
           /\ List.length (steps s') = List.length (operatorTokens tokens)
           /\ history s' = mkEntry (input s) (result s') :: history s
     end.
Proof.
  intros Hk Hdb. cbv zeta. unfold handlePress.
  change (String.eqb "=" "=") with true. cbv iota. unfold calculateResult.
  destruct (regexMatch (input s)) as [tokens|] eqn:Hm.
  - assert (Hne : input s <> "").
    { intros E. rewrite E in Hm. discriminate Hm. }
    assert (Ht : test (input s) = true).
    { apply test_intro; [exact Hne|].
      apply (allChars_impl isKeypadChar); [exact keypad_allowed | exact Hk]. }
    pose proof (evaluate_returns _ _ Ht Hm) as Ev. unfold evaluate in Ev.
    rewrite Ev.
    pose proof (tokens_from_keypad (input s) Hk) as F.
    assert (Tk : tokensOf (input s) = tokens).
    { unfold regexMatch in Hm. destruct (tokensOf (input s)); [discriminate Hm|].
      now inversion Hm. }
    rewrite Tk in F.
    assert (Hno : ~ In "(" tokens).
    { intros Hin. rewrite Forall_forall in F.
      destruct (F _ Hin) as [H | H]; discriminate H. }
    assert (Hsome : first (calc (evalPostfix (toPostfix tokens))) <> None).
    { apply result_some. destruct tokens as [|t ts];
        [unfold regexMatch in Hm; rewrite Tk in Hm; discriminate Hm|].
      exists t. split; [left; reflexivity|]. now inversion F. }
    destruct (first (calc (evalPostfix (toPostfix tokens)))) as [v|] eqn:Ef;
      [|contradiction].
    assert (L : List.length (map renderStep (resolved (input s)))
                = List.length (operatorTokens tokens)).
    { unfold resolved. rewrite Hm, length_map, trace_count.
      rewrite (stack_without_paren tokens Hno). lia. }
    destruct Hdb as [Hd | ->].
    + rewrite Hd. cbn [fst input result steps history]. split; [reflexivity|].
      exists v. repeat split. exact L.
    + destruct (db s); cbn [fst input result steps history];
        (split; [reflexivity|]); exists v; repeat split; exact L.
  - unfold calculateExpressionWithSteps. rewrite Hm.
    destruct (negb (test (input s))); cbn [fst input result steps history];
      repeat split.
Qed.

Lemma equals_on_keypad_input_witness :
  input (fst (handlePress true "=" (mkState false "2+3*4" "" [] [] false)))
  = input (mkState false "2+3*4" "" [] [] false)
  /\ match regexMatch (input (mkState false "2+3*4" "" [] [] false)) with
     | None =>
         result (fst (handlePress true "=" (mkState false "2+3*4" "" [] [] false)))
         = "Error"
         /\ steps (fst (handlePress true "=" (mkState false "2+3*4" "" [] [] false)))
            = []
         /\ history (fst (handlePress true "=" (mkState false "2+3*4" "" [] [] false)))
            = history (mkState false "2+3*4" "" [] [] false)
     | Some tokens =>
         exists v,
           calculateExpressionWithSteps
             (input (mkState false "2+3*4" "" [] [] false))
           = Return
               (mkOutcome (Some v)
                  (steps (fst (handlePress true "="
                                 (mkState false "2+3*4" "" [] [] false)))))
           /\ result (fst (handlePress true "="
                              (mkState false "2+3*4" "" [] [] false)))
              = Render.toString v
           /\ List.length
                (steps (fst (handlePress true "="
                               (mkState false "2+3*4" "" [] [] false))))
              = List.length (operatorTokens tokens)
           /\ history (fst (handlePress true "="
                               (mkState false "2+3*4" "" [] [] false)))
              = mkEntry (input (mkState false "2+3*4" "" [] [] false))
                        (result (fst (handlePress true "="
                                        (mkState false "2+3*4" "" [] [] false))))
                :: history (mkState false "2+3*4" "" [] [] false)
     end.
Proof.
  apply (equals_on_keypad_input true (mkState false "2+3*4" "" [] [] false));
    [reflexivity | left; reflexivity].
Defined.

(** X17: the scientific keys and the [switch] agree: a name has a case in
    the [switch] exactly when it is on a scientific key, so that no key
    falls into the [default] branch and no case is out of reach. *)
Theorem scientific_keys_handled (lib : Builtins) (fuel : nat) (v : number)
        (func : string) :
  In func (keysOf scientificButtons)
  <-> scientificValue lib fuel func v <> None.
Proof.
  split.
  - intros Hin. cbn in Hin.
    repeat (destruct Hin as [<- | Hin]; [discriminate|]). destruct Hin.
  - unfold scientificValue. intros H.
    repeat match goal with
           | H : context [String.eqb func ?k] |- _ =>
               destruct (String.eqb_spec func k);
               [subst func; cbn; tauto|]
           end.
    contradiction.
Qed.

Lemma scientific_keys_handled_witness :
  scientificValue
    (mkBuiltins (fun _ => NaN) (fun x => x) (fun x => x) (fun x => x)
                (fun x => x) (fun x => x) (fun x => x) (fun x _ => x) NaN NaN)
    0 "ln" (ofZ 1) <> None.
Proof.
  apply (proj1 (scientific_keys_handled _ 0 (ofZ 1) "ln")).
  cbn. tauto.
Defined.

(** X18: the factorial key.  When the input converts to a negative number
    the screen shows "NaN" with the one step that says so, and the history
    gains the entry; when it converts to [2^53] or more the handler never
    returns. *)
Theorem factorial_key (lib : Builtins) (fuel : nat) (ok : bool) (s : state) :
  db s = false \/ ok = true ->
  let v := toNumberOfString lib (input s) in
  (ltb v zero = true ->
   option_map fst (calculateScientific lib fuel ok "!" s)
   = Some (mkState (db s) (input s) "NaN"
                   ["!(" ++ Render.toString v ++ ") = NaN"]
                   (mkEntry ("!(" ++ input s ++ ")") "NaN" :: history s)
                   (isScientific s)))
  /\ (leb (ofZ (2 ^ 53)) v = true ->
      calculateScientific lib fuel ok "!" s = None).
Proof.
  intros Hdb. cbv zeta. unfold calculateScientific, scientificValue.
  change (String.eqb "!" "sin") with false. change (String.eqb "!" "cos") with false.
  change (String.eqb "!" "tan") with false. change (String.eqb "!" "log") with false.
  change (String.eqb "!" "ln") with false.
  change (String.eqb "!" "√") with false.
  change (String.eqb "!" "^") with false. change (String.eqb "!" "!") with true.
  cbv iota. split.
  - intros Hneg. unfold factorial. rewrite Hneg.
    destruct Hdb as [Hd | ->]; [rewrite Hd | destruct (db s)]; reflexivity.
  - intros Hbig. now rewrite (factorial_diverges _ Hbig fuel).
Qed.

Lemma factorial_key_witness :
  calculateScientific
    (mkBuiltins (fun _ => Infinity) (fun x => x) (fun x => x) (fun x => x)
                (fun x => x) (fun x => x) (fun x => x) (fun x _ => x) NaN NaN)
    100 true "!" initial = None.
Proof.
  apply (proj2 (factorial_key
                  (mkBuiltins (fun _ => Infinity) (fun x => x) (fun x => x)
                              (fun x => x) (fun x => x) (fun x => x)
                              (fun x => x) (fun x _ => x) NaN NaN)
                  100 true initial (or_introl eq_refl))).
  reflexivity.
Defined.

End AppFacts.

(** * The evaluator in the store *)

Module ImpFacts.

Local Open Scope nat_scope.
Local Open Scope list_scope.

Lemma bind_done {A B : Type} (m : Imp.M A) (k : A -> Imp.M B)
      (h h' : Imp.heap) (a : A) :
  m h = Imp.Done h' a -> Imp.bind m k h = k a h'.
Proof. intros E. unfold Imp.bind. now rewrite E. Qed.

(** The arrays a call creates come after the ones that exist: [h0] is the
    store the call receives, [loc] the arrays it has created so far. *)
Lemma nth_error_local (h0 loc : Imp.heap) (k : nat) :
  nth_error (h0 ++ loc) (List.length h0 + k) = nth_error loc k.
Proof.
  rewrite nth_error_app2 by lia. f_equal. lia.
Qed.

Lemma update_local (h0 loc : Imp.heap) (k : nat) (arr : Imp.array) :
  Imp.update (List.length h0 + k) arr (h0 ++ loc)
  = (h0 ++ Imp.update k arr loc)%list.
Proof.
  induction h0 as [|x h0 IH]; simpl; [reflexivity|]. now rewrite IH.
Qed.

Lemma onArray_local {A : Type} (h0 loc : Imp.heap) (k : nat)
      (f : Imp.array -> Imp.array * A) (arr : Imp.array) :
  nth_error loc k = Some arr ->
  Imp.onArray (List.length h0 + k) f (h0 ++ loc)
  = Imp.Done (h0 ++ Imp.update k (fst (f arr)) loc) (snd (f arr)).
Proof.
  intros E. unfold Imp.onArray. rewrite nth_error_local, E, update_local.
  reflexivity.
Qed.

Lemma newArray_local (h0 loc : Imp.heap) :
  Imp.newArray (h0 ++ loc)
  = Imp.Done (h0 ++ (loc ++ [[]]))%list (List.length h0 + List.length loc).
Proof.
  unfold Imp.newArray. now rewrite length_app, app_assoc.
Qed.

Lemma stackArray_cons (top : string) (rest : list string) :
  Imp.stackArray (top :: rest)
  = (Imp.stackArray rest ++ [Imp.VStr top])%list.
Proof. reflexivity. Qed.

Lemma stackArray_length (stk : list string) :
  List.length (Imp.stackArray stk) = List.length stk.
Proof. unfold Imp.stackArray. now rewrite length_rev, length_map. Qed.

Lemma outputArray_snoc (out : list any) (x : any) :
  Imp.outputArray (out ++ [x])
  = (Imp.outputArray out ++ [Imp.ofAny x])%list.
Proof. unfold Imp.outputArray. now rewrite map_app. Qed.

Ltac run_op :=
  first [ erewrite bind_done by (apply onArray_local; reflexivity)
        | erewrite onArray_local by reflexivity ];
  cbn [fst snd Imp.update].

(** The three tests of the loops, on the stack of the functional
    rendering. *)
Lemma topBindsTighter_run (h0 : Imp.heap) (stk : list string)
      (O T : Imp.array) (t : string) :
  Imp.topBindsTighter (List.length h0 + 0) t
                      (h0 ++ [Imp.stackArray stk; O; T])
  = Imp.Done (h0 ++ [Imp.stackArray stk; O; T])
             (match stk with
              | top :: _ => geLookup (ops top) (ops t)
              | [] => false
              end).
Proof.
  unfold Imp.topBindsTighter, Imp.len, Imp.get.
  run_op.
  destruct stk as [|top rest]; [reflexivity|].
  rewrite stackArray_cons, length_app, Nat.add_1_r.
  run_op. rewrite nth_middle. reflexivity.
Qed.

Lemma topIsNotLeftParen_run (h0 : Imp.heap) (stk : list string)
      (O T : Imp.array) :
  Imp.topIsNotLeftParen (List.length h0 + 0)
                        (h0 ++ [Imp.stackArray stk; O; T])
  = Imp.Done (h0 ++ [Imp.stackArray stk; O; T])
             (match stk with
              | top :: _ => negb (String.eqb top "(")
              | [] => false
              end).
Proof.
  unfold Imp.topIsNotLeftParen, Imp.len, Imp.get.
  run_op.
  destruct stk as [|top rest]; [reflexivity|].
  rewrite stackArray_cons, length_app, Nat.add_1_r.
  run_op. rewrite nth_middle. reflexivity.
Qed.

Lemma nonEmpty_run (h0 : Imp.heap) (stk : list string) (O T : Imp.array) :
  Imp.nonEmpty (List.length h0 + 0) (h0 ++ [Imp.stackArray stk; O; T])
  = Imp.Done (h0 ++ [Imp.stackArray stk; O; T])
             (match stk with _ :: _ => true | [] => false end).
Proof.
  unfold Imp.nonEmpty, Imp.len.
  run_op.
  destruct stk as [|top rest]; [reflexivity|].
  rewrite stackArray_cons, length_app, Nat.add_1_r. reflexivity.
Qed.

Lemma moveTop_run (h0 : Imp.heap) (top : string) (rest : list string)
      (out : list any) (T : Imp.array) :
  Imp.moveTop (List.length h0 + 0) (List.length h0 + 1)
              (h0 ++ [Imp.stackArray (top :: rest); Imp.outputArray out; T])
  = Imp.Done (h0 ++ [Imp.stackArray rest;
                     Imp.outputArray (out ++ [Str top]); T]) tt.
Proof.
  unfold Imp.moveTop, Imp.pop, Imp.push.
  run_op.
  rewrite stackArray_cons, removelast_last, last_last.
  run_op. rewrite outputArray_snoc. reflexivity.
Qed.

Lemma push_stack_run (h0 : Imp.heap) (stk : list string) (O T : Imp.array)
      (t : string) :
  Imp.push (List.length h0 + 0) (Imp.VStr t)
           (h0 ++ [Imp.stackArray stk; O; T])
  = Imp.Done (h0 ++ [Imp.stackArray (t :: stk); O; T]) tt.
Proof.
  unfold Imp.push. run_op. reflexivity.
Qed.

(** The three loops do what the three recursive functions do, as soon as
    the fuel exceeds the height of the stack. *)
Lemma while_popWhileGe (h0 : Imp.heap) (T : Imp.array) (t : string)
      (stk : list string) :
  forall (out : list any) (fuel : nat),
    (List.length stk < fuel)%nat ->
    Imp.while fuel (Imp.topBindsTighter (List.length h0 + 0) t)
              (Imp.moveTop (List.length h0 + 0) (List.length h0 + 1))
              (h0 ++ [Imp.stackArray stk; Imp.outputArray out; T])
    = Imp.Done (h0 ++ [Imp.stackArray (stack (popWhileGe t stk out));
                       Imp.outputArray (output (popWhileGe t stk out)); T])
               tt.
Proof.
  induction stk as [|top rest IH]; intros out fuel Hf;
    (destruct fuel as [|fuel]; [simpl in Hf; lia|]); cbn [Imp.while].
  - rewrite (bind_done _ _ _ _ _ (topBindsTighter_run h0 [] _ T t)).
    reflexivity.
  - rewrite (bind_done _ _ _ _ _ (topBindsTighter_run h0 (top :: rest) _ T t)).
    cbn [popWhileGe]. destruct (geLookup (ops top) (ops t)); [|reflexivity].
    rewrite (bind_done _ _ _ _ _ (moveTop_run h0 top rest out T)).
    apply IH. simpl in Hf. lia.
Qed.

Lemma while_popUntilParen (h0 : Imp.heap) (T : Imp.array)
      (stk : list string) :
  forall (out : list any) (fuel : nat),
    (List.length stk < fuel)%nat ->
    Imp.while fuel (Imp.topIsNotLeftParen (List.length h0 + 0))
              (Imp.moveTop (List.length h0 + 0) (List.length h0 + 1))
              (h0 ++ [Imp.stackArray stk; Imp.outputArray out; T])
    = Imp.Done (h0 ++ [Imp.stackArray (stack (popUntilParen stk out));
                       Imp.outputArray (output (popUntilParen stk out)); T])
               tt.
Proof.
  induction stk as [|top rest IH]; intros out fuel Hf;
    (destruct fuel as [|fuel]; [simpl in Hf; lia|]); cbn [Imp.while].
  - rewrite (bind_done _ _ _ _ _ (topIsNotLeftParen_run h0 [] _ T)).
    reflexivity.
  - rewrite (bind_done _ _ _ _ _ (topIsNotLeftParen_run h0 (top :: rest) _ T)).
    cbn [popUntilParen]. destruct (String.eqb top "("); [reflexivity|].
    cbn [negb].
    rewrite (bind_done _ _ _ _ _ (moveTop_run h0 top rest out T)).
    apply IH. simpl in Hf. lia.
Qed.

Lemma while_flush (h0 : Imp.heap) (T : Imp.array) (stk : list string) :
  forall (out : list any) (fuel : nat),
    (List.length stk < fuel)%nat ->
    Imp.while fuel (Imp.nonEmpty (List.length h0 + 0))
              (Imp.moveTop (List.length h0 + 0) (List.length h0 + 1))
              (h0 ++ [Imp.stackArray stk; Imp.outputArray out; T])
    = Imp.Done (h0 ++ [Imp.stackArray [];
                       Imp.outputArray (flush stk out); T]) tt.
Proof.
  induction stk as [|top rest IH]; intros out fuel Hf;
    (destruct fuel as [|fuel]; [simpl in Hf; lia|]); cbn [Imp.while].
  - rewrite (bind_done _ _ _ _ _ (nonEmpty_run h0 [] _ T)). reflexivity.
  - rewrite (bind_done _ _ _ _ _ (nonEmpty_run h0 (top :: rest) _ T)).
    rewrite (bind_done _ _ _ _ _ (moveTop_run h0 top rest out T)).
    cbn [flush]. apply IH. simpl in Hf. lia.
Qed.

Lemma popWhileGe_height (t : string) (stk : list string) :
  forall out : list any,
    List.length (stack (popWhileGe t stk out)) <= List.length stk.
Proof.
  induction stk as [|top rest IH]; intros out; cbn [popWhileGe].
  - simpl. lia.
  - destruct (geLookup (ops top) (ops t)).
    + specialize (IH (out ++ [Str top])). simpl. lia.
    + simpl. lia.
Qed.

Lemma popUntilParen_height (stk : list string) :
  forall out : list any,
    List.length (stack (popUntilParen stk out)) <= List.length stk.
Proof.
  induction stk as [|top rest IH]; intros out; cbn [popUntilParen].
  - simpl. lia.
  - destruct (String.eqb top "(").
    + simpl. lia.
    + specialize (IH (out ++ [Str top])). simpl. lia.
Qed.

(** A token makes the stack at most one element higher. *)
Lemma scanToken_height (st : scan) (t : string) :
  List.length (stack (scanToken st t)) <= S (List.length (stack st)).
Proof.
  unfold scanToken.
  destruct (negb (isNaN (Number t))); [simpl; lia|].
  destruct (inOps t).
  { pose proof (popWhileGe_height t (stack st) (output st)). simpl. lia. }
  destruct (String.eqb t "("); [simpl; lia|].
  destruct (String.eqb t ")"); [|lia].
  pose proof (popUntilParen_height (stack st) (output st)) as H.
  cbn [stack dropTop].
  destruct (stack (popUntilParen (stack st) (output st))); simpl in *; lia.
Qed.

(** The body of [tokens.forEach], in the store and as a function. *)
Lemma scanToken_run (h0 : Imp.heap) (T : Imp.array) (fuel : nat)
      (st : scan) (t : string) :
  List.length (stack st) < fuel ->
  Imp.scanToken fuel (List.length h0 + 0) (List.length h0 + 1) t
                (h0 ++ [Imp.stackArray (stack st);
                        Imp.outputArray (output st); T])
  = Imp.Done (h0 ++ [Imp.stackArray (stack (scanToken st t));
                     Imp.outputArray (output (scanToken st t)); T]) tt.
Proof.
  intros Hf. unfold Imp.scanToken, scanToken.
  destruct (negb (isNaN (Number t))).
  { unfold Imp.push. run_op. cbn [stack output].
    rewrite outputArray_snoc. reflexivity. }
  destruct (inOps t).
  { rewrite (bind_done _ _ _ _ _
               (while_popWhileGe h0 T t (stack st) (output st) fuel Hf)).
    apply push_stack_run. }
  destruct (String.eqb t "(").
  { apply push_stack_run. }
  destruct (String.eqb t ")"); [|reflexivity].
  rewrite (bind_done _ _ _ _ _
             (while_popUntilParen h0 T (stack st) (output st) fuel Hf)).
  cbn [stack output].
  destruct (stack (popUntilParen (stack st) (output st))) as [|top rest].
  - unfold Imp.pop. run_op. reflexivity.
  - unfold Imp.pop. run_op. rewrite stackArray_cons, removelast_last.
    reflexivity.
Qed.

Lemma forEach_scanToken (h0 : Imp.heap) (T : Imp.array) (fuel : nat)
      (tokens : list string) :
  forall st : scan,
    List.length (stack st) + List.length tokens < fuel ->
    Imp.forEach tokens
                (Imp.scanToken fuel (List.length h0 + 0) (List.length h0 + 1))
                (h0 ++ [Imp.stackArray (stack st);
                        Imp.outputArray (output st); T])
    = Imp.Done
        (h0 ++ [Imp.stackArray (stack (fold_left scanToken tokens st));
                Imp.outputArray (output (fold_left scanToken tokens st)); T])
        tt
    /\ List.length (stack (fold_left scanToken tokens st)) < fuel.
Proof.
  induction tokens as [|t ts IH]; intros st Hf; cbn [Imp.forEach fold_left].
  - split; [reflexivity|]. simpl in Hf. lia.
  - simpl in Hf.
    rewrite (bind_done _ _ _ _ _ (scanToken_run h0 T fuel st t ltac:(lia))).
    apply IH. pose proof (scanToken_height st t). lia.
Qed.

(** The second phase: [calc] is the fourth array of the call. *)
Lemma pop_calc_run (h0 : Imp.heap) (Sx Ox T : Imp.array) (c : list number) :
  Imp.pop (List.length h0 + 3) (h0 ++ [Sx; Ox; T; Imp.calcArray c])
  = Imp.Done (h0 ++ [Sx; Ox; T; Imp.calcArray (snd (pop c))])
             (Imp.ofResult (fst (pop c))).
Proof.
  unfold Imp.pop. run_op. destruct c as [|x r]; [reflexivity|].
  change (Imp.calcArray (x :: r)) with (Imp.calcArray r ++ [Imp.VNum x]).
  rewrite removelast_last, last_last. reflexivity.
Qed.

Lemma push_calc_run (h0 : Imp.heap) (Sx Ox T : Imp.array) (c : list number)
      (n : number) :
  Imp.push (List.length h0 + 3) (Imp.VNum n)
           (h0 ++ [Sx; Ox; T; Imp.calcArray c])
  = Imp.Done (h0 ++ [Sx; Ox; T; Imp.calcArray (n :: c)]) tt.
Proof. unfold Imp.push. run_op. reflexivity. Qed.

Lemma operand_run (v : option number) (h : Imp.heap) :
  Imp.operand (Imp.ofResult v) h = Imp.Done h (toNumber v).
Proof. destruct v; reflexivity. Qed.

(** The [switch] never meets a string among its operands: they are
    numbers or [undefined]. *)
Lemma switchOperator_run (s : string) (a b : option number) (h : Imp.heap) :
  Imp.switchOperator (Imp.VStr s) (Imp.ofResult a) (Imp.ofResult b) h
  = Imp.Done h (applyOp s a b).
Proof.
  unfold Imp.switchOperator, applyOp.
  repeat (match goal with
          | |- context [String.eqb s ?c] => destruct (String.eqb s c)
          end;
          [rewrite (bind_done _ _ _ _ _ (operand_run a h));
           rewrite (bind_done _ _ _ _ _ (operand_run b h)); reflexivity|]).
  reflexivity.
Qed.

Lemma showValue_ofResult (v : option number) :
  Imp.showValue (Imp.ofResult v) = show v.
Proof. destruct v; reflexivity. Qed.

Lemma evalValue_run (h0 : Imp.heap) (Sx Ox : Imp.array) (st : evalState)
      (x : any) :
  Imp.evalValue (List.length h0 + 3) (List.length h0 + 2) (Imp.ofAny x)
                (h0 ++ [Sx; Ox; Imp.stepsArray (trace st);
                        Imp.calcArray (calc st)])
  = Imp.Done (h0 ++ [Sx; Ox; Imp.stepsArray (trace (evalItem st x));
                     Imp.calcArray (calc (evalItem st x))]) tt.
Proof.
  destruct x as [n|s]; cbn [Imp.ofAny Imp.evalValue evalItem].
  - apply push_calc_run.
  - rewrite (bind_done _ _ _ _ _ (pop_calc_run h0 Sx Ox _ (calc st))).
    destruct (pop (calc st)) as [b calc1]. cbn [fst snd].
    rewrite (bind_done _ _ _ _ _ (pop_calc_run h0 Sx Ox _ calc1)).
    destruct (pop calc1) as [a calc2]. cbn [fst snd].
    rewrite (bind_done _ _ _ _ _ (switchOperator_run s a b _)).
    unfold Imp.push at 1. run_op.
    rewrite !showValue_ofResult. cbn [calc trace].
    replace (Imp.stepsArray (trace st) ++ _)
      with (Imp.stepsArray (trace st ++ [mkStep a s b (applyOp s a b)])).
    + apply push_calc_run.
    + unfold Imp.stepsArray. rewrite map_app. reflexivity.
Qed.

Lemma forEach_evalValue (h0 : Imp.heap) (Sx Ox : Imp.array)
      (out : list any) :
  forall st : evalState,
    Imp.forEach (Imp.outputArray out)
                (Imp.evalValue (List.length h0 + 3) (List.length h0 + 2))
                (h0 ++ [Sx; Ox; Imp.stepsArray (trace st);
                        Imp.calcArray (calc st)])
    = Imp.Done
        (h0 ++ [Sx; Ox; Imp.stepsArray (trace (fold_left evalItem out st));
                Imp.calcArray (calc (fold_left evalItem out st))]) tt.
Proof.
  induction out as [|x out IH]; intros st;
    cbn [Imp.outputArray map Imp.forEach fold_left]; [reflexivity|].
  rewrite (bind_done _ _ _ _ _ (evalValue_run h0 Sx Ox st x)).
  apply IH.
Qed.

(** [calc[0]] is the element pushed first. *)
Lemma get_first (c : list number) :
  nth 0 (Imp.calcArray c) Imp.VUndefined = Imp.ofResult (first c).
Proof.
  unfold Imp.calcArray, first. rewrite <- map_rev.
  destruct (rev c); reflexivity.
Qed.

(** What a call does to the store and what it returns, in terms of the
    functional rendering: the arrays that exist are left as they are, the
    four arrays of the call come after them, and no loop needs more turns
    than there are tokens. *)
Lemma run_refines (expr : string) (fuel : nat) (h0 : Imp.heap) :
  List.length (tokensOf expr) < fuel ->
  Imp.calculateExpressionWithSteps fuel expr h0
  = if negb (test expr) then Imp.Abort h0 (Imp.JsThrow errInvalidExpression)
    else
      match regexMatch expr with
      | None => Imp.Abort (h0 ++ [[]; []; []]) (Imp.JsThrow errInvalid)
      | Some tokens =>
          let st := evalPostfix (toPostfix tokens) in
          Imp.Done (h0 ++ [[]; Imp.outputArray (toPostfix tokens);
                           Imp.stepsArray (trace st);
                           Imp.calcArray (calc st)])
                   (Imp.ofResult (first (calc st)), List.length h0 + 2)
      end.
Proof.
  intros Hf. unfold Imp.calculateExpressionWithSteps.
  destruct (negb (test expr)); [reflexivity|].
  assert (N0 : Imp.newArray h0 = Imp.Done (h0 ++ [[]]) (List.length h0 + 0)).
  { unfold Imp.newArray. now rewrite Nat.add_0_r. }
  rewrite (bind_done _ _ _ _ _ N0).
  rewrite (bind_done _ _ _ _ _ (newArray_local h0 [[]])).
  rewrite (bind_done _ _ _ _ _ (newArray_local h0 [[]; []])).
  cbn [List.length app].
  unfold regexMatch in *. destruct (tokensOf expr) as [|t ts]; [reflexivity|].
  set (tokens := t :: ts) in *.
  unfold Imp.bind at 1. cbn [Imp.ret Imp.forEachOf].
  destruct (forEach_scanToken h0 [] fuel tokens (mkScan [] [])
              ltac:(cbn [stack List.length Nat.add]; exact Hf)) as [E1 Hs].
  change (h0 ++ [[]; []; []])
    with (h0 ++ [Imp.stackArray (stack (mkScan [] []));
                 Imp.outputArray (output (mkScan [] [])); []]).
  rewrite (bind_done _ _ _ _ _ E1).
  fold (scanTokens tokens).
  rewrite (bind_done _ _ _ _ _
             (while_flush h0 [] (stack (scanTokens tokens))
                          (output (scanTokens tokens)) fuel Hs)).
  fold (toPostfix tokens).
  rewrite (bind_done _ _ _ _ _ (newArray_local h0 [_; _; _])).
  cbn [List.length app].
  unfold Imp.elements. run_op.
  change (h0 ++ [Imp.stackArray []; Imp.outputArray (toPostfix tokens); [];
                 []])
    with (h0 ++ [Imp.stackArray []; Imp.outputArray (toPostfix tokens);
                 Imp.stepsArray (trace (mkEval [] []));
                 Imp.calcArray (calc (mkEval [] []))]).
  rewrite (bind_done _ _ _ _ _
             (forEach_evalValue h0 _ _ (toPostfix tokens) (mkEval [] []))).
  fold (evalPostfix (toPostfix tokens)).
  unfold Imp.get. run_op. rewrite get_first. reflexivity.
Qed.

End ImpFacts.

(** What the caller sees of a call in any store is the outcome of the
    functional rendering. *)
Lemma observe_run (expr : string) (fuel : nat) (h : Imp.heap) :
  (List.length (tokensOf expr) < fuel)%nat ->
  Imp.observe (Imp.calculateExpressionWithSteps fuel expr h)
  = Some (Imp.ofCompletion (evaluate expr)).
Proof.
  intros Hf. rewrite (ImpFacts.run_refines expr fuel h Hf).
  unfold evaluate, calculateExpressionWithSteps.
  destruct (negb (test expr)); [reflexivity|].
  destruct (regexMatch expr) as [tokens|]; [|reflexivity].
  cbn [Imp.observe Imp.ofCompletion].
  rewrite ImpFacts.nth_error_local. cbn [nth_error].
  unfold Imp.stepsArray. rewrite map_map. reflexivity.
Qed.

(** A call leaves the arrays that existed as they were and adds its own
    after them. *)
Lemma heapAfter_run (expr : string) (fuel : nat) (h : Imp.heap) :
  (List.length (tokensOf expr) < fuel)%nat ->
  exists created,
    Imp.heapAfter (Imp.calculateExpressionWithSteps fuel expr h)
    = Some (h ++ created)%list.
Proof.
  intros Hf. rewrite (ImpFacts.run_refines expr fuel h Hf).
  destruct (negb (test expr)).
  { exists []. cbn [Imp.heapAfter]. now rewrite app_nil_r. }
  destruct (regexMatch expr) as [tokens|]; eexists; reflexivity.
Qed.

(** C8: the evaluator has no hidden state.  The function is run in a store
    that holds the arrays that exist when it is called; whatever they are,
    and whatever number of turns the loops are allowed beyond the number of
    tokens, the caller sees the same thing: the same value and the same
    elements in the array of steps, or the same error thrown.  A call
    leaves the arrays that existed untouched and adds its own; a second
    evaluation of the string, in the store the first one leaves, gives the
    outcome of the first. *)
Theorem evaluate_same_in_every_store
        (expr : string) (fuel1 fuel2 : nat) (h1 h2 : Imp.heap) :
  (List.length (tokensOf expr) < fuel1)%nat ->
  (List.length (tokensOf expr) < fuel2)%nat ->
  Imp.observe (Imp.calculateExpressionWithSteps fuel1 expr h1)
  = Some (Imp.ofCompletion (evaluate expr))
  /\ Imp.observe (Imp.calculateExpressionWithSteps fuel2 expr h2)
     = Imp.observe (Imp.calculateExpressionWithSteps fuel1 expr h1)
  /\ exists created,
       Imp.heapAfter (Imp.calculateExpressionWithSteps fuel1 expr h1)
       = Some (h1 ++ created)%list
       /\ Imp.observe
            (Imp.calculateExpressionWithSteps fuel2 expr (h1 ++ created)%list)
          = Imp.observe (Imp.calculateExpressionWithSteps fuel1 expr h1).
Proof.
  intros H1 H2. rewrite !(observe_run expr fuel1 h1 H1).
  split; [reflexivity|]. split; [apply observe_run; exact H2|].
  destruct (heapAfter_run expr fuel1 h1 H1) as [created E].
  exists created. split; [exact E|]. apply observe_run. exact H2.
Qed.

Lemma evaluate_same_in_every_store_witness :
  Imp.observe (Imp.calculateExpressionWithSteps 6 "2+3*4" [])
  = Some (Imp.ofCompletion (evaluate "2+3*4"))
  /\ Imp.observe
       (Imp.calculateExpressionWithSteps
          9 "2+3*4" [[Imp.VStr "1 + 1 = 2"]; [Imp.VNum (ofZ 2)]])
     = Imp.observe (Imp.calculateExpressionWithSteps 6 "2+3*4" [])
  /\ exists created,
       Imp.heapAfter (Imp.calculateExpressionWithSteps 6 "2+3*4" [])
       = Some ([] ++ created)%list
       /\ Imp.observe
            (Imp.calculateExpressionWithSteps 9 "2+3*4" ([] ++ created)%list)
          = Imp.observe (Imp.calculateExpressionWithSteps 6 "2+3*4" []).
Proof.
  apply (evaluate_same_in_every_store
           "2+3*4" 6 9 [] [[Imp.VStr "1 + 1 = 2"]; [Imp.VNum (ofZ 2)]]);
    vm_compute; lia.
Defined.

(** C9: a call ends by an error exactly when the validation fails or the
    token expression has no match, and the error is then the one thrown
    by the source at that place.  In every other case the two phases run
    to their end and a value is returned with the array of steps: the
    loops stop within the number of tokens, [forEach] is never called on
    [null], no operand of an operator is a string, and nothing is raised
    when operators and operands do not match (["2++"] gives [NaN]). *)
Theorem evaluate_raises_only_at_guards
        (expr : string) (fuel : nat) (h : Imp.heap) :
  (List.length (tokensOf expr) < fuel)%nat ->
  ((exists h' e,
       Imp.calculateExpressionWithSteps fuel expr h
       = Imp.Abort h' (Imp.JsThrow e))
   <-> (test expr = false \/ regexMatch expr = None))
  /\ (test expr = true -> regexMatch expr <> None ->
      exists h' v steps,
        Imp.calculateExpressionWithSteps fuel expr h = Imp.Done h' (v, steps))
  /\ (forall h' t,
         Imp.calculateExpressionWithSteps fuel expr h = Imp.Abort h' t ->
         (test expr = false /\ t = Imp.JsThrow errInvalidExpression)
         \/ (test expr = true /\ regexMatch expr = None
             /\ t = Imp.JsThrow errInvalid))
  /\ Imp.calculateExpressionWithSteps fuel expr h <> Imp.OutOfFuel
  /\ Imp.observe (Imp.calculateExpressionWithSteps 4 "2++" [])
     = Some (Return (Imp.VNum NaN,
                     [Imp.VStr "undefined + 2 = NaN";
                      Imp.VStr "undefined + NaN = NaN"])).
Proof.
  intros Hf. rewrite (ImpFacts.run_refines expr fuel h Hf).
  destruct (test expr) eqn:Ht; cbn [negb];
    [destruct (regexMatch expr) as [tokens|] eqn:Hm|].
  - split; [|split; [|split; [|split]]].
    + split; [intros [h' [e H]]; discriminate H|].
      intros [H|H]; discriminate H.
    + intros _ _. eexists. eexists. eexists. reflexivity.
    + intros h' t H. discriminate H.
    + discriminate.
    + vm_compute. reflexivity.
  - split; [|split; [|split; [|split]]].
    + split; [intros _; right; reflexivity|].
      intros _. eexists. eexists. reflexivity.
    + intros _ H. contradiction H. reflexivity.
    + intros h' t H. inversion H. right. repeat split.
    + discriminate.
    + vm_compute. reflexivity.
  - split; [|split; [|split; [|split]]].
    + split; [intros _; left; reflexivity|].
      intros _. eexists. eexists. reflexivity.
    + intros H. discriminate H.
    + intros h' t H. inversion H. left. split; reflexivity.
    + discriminate.
    + vm_compute. reflexivity.
Qed.

Lemma evaluate_raises_only_at_guards_witness :
  exists h' v steps,
    Imp.calculateExpressionWithSteps 3 "+2" [[Imp.VStr "1 + 1 = 2"]]
    = Imp.Done h' (v, steps).
Proof.
  apply (proj1 (proj2 (evaluate_raises_only_at_guards
                         "+2" 3 [[Imp.VStr "1 + 1 = 2"]]
                         ltac:(vm_compute; lia))));
    [reflexivity | discriminate].
Defined.
